(** * utype: schema resolution and call adaptation

    A shallow embedding of the field model ([utype/field.py]), the
    signature-schema builder and call adapter ([utype/parser/func.py]), the
    attribute-schema builder ([utype/parser/cls.py]) and the duration and
    time encoders ([utype/utils/encode.py]), together with the properties of
    the specification that are settled on it and further properties of the
    code. *)

From Stdlib Require Import ZArith List Bool Ascii Lia.
From stdpp Require Import base option list strings gmap sets pretty.
Import ListNotations.

Local Open Scope string_scope.
Local Open Scope list_scope.

Set Warnings "-register-all".

(** ** Python values and type rules *)

(** The values that reach the code under study.  [VEllipsis] is the
    sentinel [...] that field.py uses for "no value"; func.py tests the same
    sentinel through [unprovided(...)]. Dictionaries are kept as association
    lists in insertion order; only string keys are modelled, which is all a
    string-named discriminator can ever match. *)
Inductive Value : Type :=
| VNone
| VEllipsis
| VBool (b : bool)
| VInt (z : Z)
| VStr (s : string)
| VList (l : list Value)
| VDict (d : list (string * Value)).

(** Modelled from the spec: the type rules of rule.py and the schema
    classes of schema.py (neither is among the sources).  They are opaque to
    this core, except for what [SchemaField.validate_annotation] inspects: whether the type is a
    [LogicalType] and what [resolve_combined_origin()] gives for it, whether
    a union member is a schema class, which fields it has, and whether a
    field's type is a [Rule] subclass with a [const] attribute. *)
Inductive Ty : Type :=
| TClass (name : string)
| TRule (name : string) (const : option Value)
| TSchema (name : string) (schema_fields : list (string * Ty))
| TLogical (name : string) (comb : option (string * list Ty)).

Definition unprovided (v : Value) : bool :=
  match v with VEllipsis => true | _ => false end.

Definition is_None (v : Value) : bool :=
  match v with VNone => true | _ => false end.

(** [isinstance(v, (int, str, bool))] *)
Definition is_common_const (v : Value) : bool :=
  match v with VInt _ | VStr _ | VBool _ => true | _ => false end.

(** Lists and dicts are unhashable: using one as a dict key raises. *)
Definition hashable (v : Value) : bool :=
  match v with VList _ | VDict _ => false | _ => true end.

(** Python's [==] on the hashable values that can be dictionary keys here;
    [bool] is a subclass of [int], so [True == 1] and [False == 0]. *)
Definition py_key_eqb (a b : Value) : bool :=
  match a, b with
  | VNone, VNone => true
  | VEllipsis, VEllipsis => true
  | VBool x, VBool y => Bool.eqb x y
  | VBool x, VInt y | VInt y, VBool x => Z.eqb (Z.b2z x) y
  | VInt x, VInt y => Z.eqb x y
  | VStr x, VStr y => String.eqb x y
  | _, _ => false
  end.

(** [d.get(key)] on a dict with string keys: [None] when absent. *)
Fixpoint dict_get (d : list (string * Value)) (key : string) : Value :=
  match d with
  | [] => VNone
  | (k, v) :: rest => if String.eqb k key then v else dict_get rest key
  end.

(** [sub in s] for two Python strings: contiguous-substring test. *)
Fixpoint str_contains (sub s : string) : bool :=
  String.prefix sub s ||
  match s with
  | EmptyString => false
  | String _ s' => str_contains sub s'
  end.

(** Truthiness of a value. *)
Definition truthy (v : Value) : bool :=
  match v with
  | VNone => false
  | VEllipsis => true
  | VBool b => b
  | VInt z => negb (Z.eqb z 0)
  | VStr s => negb (String.eqb s "")
  | VList l => match l with [] => false | _ => true end
  | VDict d => match d with [] => false | _ => true end
  end.

(** Truthiness of an optional string ([None] and [''] are falsy). *)
Definition truthy_str (o : option string) : bool :=
  match o with
  | Some s => negb (String.eqb s "")
  | None => false
  end.

(** Truthiness of an optional flag ([None] and [False] are falsy). *)
Definition truthy_flag (o : option bool) : bool :=
  match o with Some true => true | _ => false end.

(** The text of an optional string that has passed a truthiness test. *)
Definition text_of (o : option string) : string :=
  match o with Some s => s | None => "" end.

(** [repr(s)] of a plain string. *)
Definition repr (s : string) : string := "'" +:+ s +:+ "'".

(** ** Exceptions *)

(** Modelled from the spec: the exception classes that the code raises
    (utils/exceptions.py is not among the sources), with the arguments they
    are raised with, next to the built-in ones.  Messages are kept up to the
    parts that interpolate type objects. *)

Inductive Item : Type :=
| ItemName (s : string)
| ItemIndex (i : nat).

Inductive Exn : Type :=
| TypeError (msg : string)
| ValueError (msg : string)
| SyntaxError (msg : string)
| ConfigError (msg : string)
| CoercionError (msg : string)
| ParseError (item : Item) (type : Ty) (value : Value) (origin_exc : Exn)
| AbsenceError (item : string)
| CollectedParseError (errors : list Exn)
| InvalidInstance (type : string) (value : Value)
| StopIteration (value : Value).

(** ** Field *)

(** What an [alias_from] entry may be: a string, another (nested) multi
    value, or a callable taking the attribute name. *)
Inductive AliasEntry : Type :=
| AliasValue (v : Value)
| AliasCall (f : string -> Value).

(** [alias_from: Union[str, List[str], Callable] = None]. [AliasOne] is a
    value for which [multi(...)] is false; [AliasList] is a list object. *)
Inductive AliasFrom : Type :=
| AliasNone
| AliasOne (e : AliasEntry)
| AliasList (l : list AliasEntry).

Inductive AliasArg : Type :=
| NoAlias
| AliasStr (s : string)
| AliasGen (f : string -> Value).

Inductive Required : Type :=
| ReqBool (b : bool)
| ReqMode (s : string).

Inductive Deprecated : Type :=
| DepBool (b : bool)
| DepTo (s : string).

(** [no_input] / [no_output]: [Union[bool, str, Callable]]. *)
Inductive NoIO : Type :=
| NoBool (b : bool)
| NoMode (s : string)
| NoCall (f : Value -> bool).

Inductive Policy : Type := EXCLUDE | PRESERVE | THROW.

(** A default is a plain value (copied on use) or a factory called afresh. *)
Inductive Default : Type :=
| DefaultValue (v : Value)
| DefaultFactory (make : unit -> Value).

Definition deprecated_truthy (d : Deprecated) : bool :=
  match d with
  | DepBool b => b
  | DepTo s => negb (String.eqb s "")
  end.

Module Field.

(** Keyword arguments of [Field.__init__] (the annotation and constraint
    arguments, which this core passes on untouched, are left out).
    [None] stands for Python's [None], and for [...] on [default] and
    [unprovided]. *)
Record Args : Type := {
  arg_alias : AliasArg;
  arg_alias_from : AliasFrom;
  arg_case_insensitive : bool;
  arg_required : option Required;
  arg_readonly : option bool;
  arg_writeonly : option bool;
  arg_mode : option string;
  arg_default : option Default;
  arg_deprecated : Deprecated;
  arg_discriminator : option string;
  arg_no_input : NoIO;
  arg_no_output : NoIO;
  arg_on_error : option Policy;
  arg_unprovided : option Default;
  arg_immutable : bool;
  arg_dependencies : option (list string)
}.

Record t : Type := {
  alias : option string;
  alias_generator : option (string -> Value);
  alias_from : AliasFrom;
  case_insensitive : bool;
  deprecated : bool;
  deprecated_to : option string;
  no_input : NoIO;
  no_output : NoIO;
  immutable : bool;
  required : Required;
  default : option Default;
  unprovided_value : option Default;
  dependencies : option (list string);
  discriminator : option string;
  on_error : option Policy;
  mode : option string
}.

Definition DEFAULT_REQUIRED : Required := ReqBool true.

(** The mode after the [readonly] / [writeonly] shorthands are applied. *)
Definition resolved_mode (a : Args) : option string :=
  let mode := arg_mode a in
  let mode := if truthy_flag (arg_readonly a) then Some "r" else mode in
  if truthy_flag (arg_writeonly a) then Some "w" else mode.

Definition resolved_required (a : Args) : Required :=
  let required := arg_required a in
  let required :=
    if deprecated_truthy (arg_deprecated a) then Some (ReqBool false) else required in
  let required :=
    match arg_default a with Some _ => Some (ReqBool false) | None => required end in
  match required with
  | None => DEFAULT_REQUIRED
  | Some r => r
  end.

(** The [isinstance(no_input, str)] check against the mode. *)
Definition not_in_mode (n : NoIO) (mode : option string) : option string :=
  match n with
  | NoMode s =>
      if truthy_str mode
      then if str_contains s (text_of mode) then None else Some s
      else None
  | _ => None
  end.

(** [Field.__init__] *)
Definition init (a : Args) : Exn + t :=
  if truthy_str (arg_mode a)
     && (truthy_flag (arg_readonly a) || truthy_flag (arg_writeonly a))
  then inl (ValueError ("Field: mode: (" +:+ repr (text_of (arg_mode a))
                        +:+ ") cannot set with readonly or writeonly"))
  else if truthy_flag (arg_readonly a) && truthy_flag (arg_writeonly a)
  then inl (ValueError "Field: readonly and writeonly cannot be both specified")
  else
    let mode := resolved_mode a in
    let required := resolved_required a in
    match not_in_mode (arg_no_input a) mode with
    | Some s =>
        inl (ValueError ("Field no_input: " +:+ repr s +:+ " is not in mode: "
                         +:+ repr (text_of mode)))
    | None =>
    match not_in_mode (arg_no_output a) mode with
    | Some s =>
        inl (ValueError ("Field no_output: " +:+ repr s +:+ " is not in mode: "
                         +:+ repr (text_of mode)))
    | None =>
        inr {| alias := match arg_alias a with AliasStr s => Some s | _ => None end;
               alias_generator :=
                 match arg_alias a with AliasGen f => Some f | _ => None end;
               alias_from := arg_alias_from a;
               case_insensitive := arg_case_insensitive a;
               deprecated := deprecated_truthy (arg_deprecated a);
               deprecated_to :=
                 match arg_deprecated a with DepTo s => Some s | _ => None end;
               no_input := arg_no_input a;
               no_output := arg_no_output a;
               immutable := arg_immutable a;
               required := required;
               default := arg_default a;
               unprovided_value := arg_unprovided a;
               dependencies := arg_dependencies a;
               discriminator := arg_discriminator a;
               on_error := arg_on_error a;
               mode := mode |}
    end
    end.

(** [no_default] property *)
Definition no_default (f : t) : bool :=
  match default f with None => true | Some _ => false end.

(** [get_alias] *)
Definition get_alias (self : t) (attname : string)
    (generator : option (string -> Value)) : string :=
  if truthy_str (alias self) then text_of (alias self)
  else
    let generator :=
      match alias_generator self with Some g => Some g | None => generator end in
    match generator with
    | Some g =>
        match g attname with
        | VStr s => if negb (String.eqb s "") then s else attname
        | _ => attname
        end
    | None => attname
    end.

(** Truthiness of the stored [alias_from]. *)
Definition alias_from_truthy (a : AliasFrom) : bool :=
match a with
| AliasNone => false
| AliasOne (AliasValue v) => truthy v
| AliasOne (AliasCall _) => true
| AliasList l => match l with [] => false | _ => true end
end.

(** [[a for a in alias if isinstance(a, str) and a]] *)
Fixpoint nonempty_strs (l : list Value) : list string :=
  match l with
  | [] => []
  | VStr s :: rest =>
      if negb (String.eqb s "") then s :: nonempty_strs rest else nonempty_strs rest
  | _ :: rest => nonempty_strs rest
  end.

(** One round of the [for alias in alias_from] loop. *)
Definition add_alias (attname : string) (aliases : gset string)
    (entry : AliasEntry) : gset string :=
  let alias := match entry with AliasCall f => f attname | AliasValue v => v end in
  match alias with
  | VList l => aliases ∪ list_to_set (nonempty_strs l)
  | VStr s => if negb (String.eqb s "") then aliases ∪ {[ s ]} else aliases
  | _ => aliases
  end.

(** [get_alias_from].  The method works on the list object that
    [self.alias_from] refers to: when the stored value is a list, the local
    [alias_from] is that very object, and [alias_from.append(generator)]
    changes the Field.  The Field as it is after the call is therefore part
    of the result.  When the stored value is not a list, a fresh
    one-element list is built and the Field is left alone. *)
Definition get_alias_from (self : t) (attname : string)
    (generator : option (string -> Value)) : gset string * t :=
  let aliases : gset string := {[ attname ]} in
  if alias_from_truthy (alias_from self) then
    match alias_from self with
    | AliasList stored =>
        let stored' :=
          match generator with
          | Some g => stored ++ [AliasCall g]
          | None => stored
          end in
        (fold_left (add_alias attname) stored' aliases,
         {| alias := alias self; alias_generator := alias_generator self;
            alias_from := AliasList stored';
            case_insensitive := case_insensitive self;
            deprecated := deprecated self; deprecated_to := deprecated_to self;
            no_input := no_input self; no_output := no_output self;
            immutable := immutable self; required := required self;
            default := default self; unprovided_value := unprovided_value self;
            dependencies := dependencies self;
            discriminator := discriminator self; on_error := on_error self;
            mode := mode self |})
    | AliasOne e =>
        let fresh :=
          match generator with
          | Some g => [e; AliasCall g]
          | None => [e]
          end in
        (fold_left (add_alias attname) fresh aliases, self)
    | AliasNone => (aliases, self)
    end
  else (aliases, self).

End Field.

(** ** Options and the per-call context *)

Module Options.

(** Modelled from the spec: the declaration-time [Options] (options.py is
    not among the sources), as far as the builders below look at them;
    [label] only tells two options objects apart. *)
Record t : Type := {
  label : string;
  vacuum : bool;
  case_insensitive : option bool
}.

(** The options that set nothing. *)
Definition unset : t := {| label := ""; vacuum := true; case_insensitive := None |}.

(** Modelled from the spec: the merge of two options objects (options.py is
    not among the sources), after the merge rule of the spec, "later (more
    specific, e.g. subclass) options override earlier ones field-by-field":
    what the later options set replaces what the earlier ones made of it,
    and what they leave unset is taken over.  The spec names no setting that
    is "marked non-inheritable", so none is singled out.  The merge sets
    nothing only when neither of the two does, and it is told apart by the
    label of the later, more specific one. *)
Definition override (earlier later : t) : t :=
  {| label := label later;
     vacuum := vacuum earlier && vacuum later;
     case_insensitive :=
       match case_insensitive later with
       | Some b => Some b
       | None => case_insensitive earlier
       end |}.

(** Modelled from the spec: [Options.generate_from] (options.py is
    not among the sources): the options merged one after the other, each
    overriding what came before it. *)
Definition generate_from (option_list : list t) : t :=
  fold_left override option_list unset.

End Options.

Inductive Warning : Type :=
| WarnText (msg : string) (category : string)
| WarnFormatted (error : Exn).

Module Runtime.

(** Modelled from the spec: the per-call object (options.py is not among
    the sources).  field.py calls it [options: RuntimeOptions] and func.py
    [context: RuntimeContext] (with the flags under [context.options]); both
    reach the same flags, transformer and error buffer, so one record stands
    for both.  [mode] is [None] when unset; [force_default] is [None] for
    [...]; [collect_errors] says whether the call aggregates its errors.
    [transformed] is a ghost log of the transformer invocations made during
    the call; no code reads it. *)
Record Context : Type := {
  mode : option string;
  ignore_required : bool;
  no_default : bool;
  force_default : option Default;
  invalid_values : Policy;
  invalid_items : Policy;
  collect_errors : bool;
  transformer : Value -> Ty -> Exn + Value;
  errors : list Exn;
  warnings : list Warning;
  transformed : list (Value * Ty)
}.

Definition with_errors (c : Context) (es : list Exn) : Context :=
  {| mode := mode c; ignore_required := ignore_required c;
     no_default := no_default c; force_default := force_default c;
     invalid_values := invalid_values c; invalid_items := invalid_items c;
     collect_errors := collect_errors c; transformer := transformer c;
     errors := es; warnings := warnings c; transformed := transformed c |}.

Definition with_warnings (c : Context) (ws : list Warning) : Context :=
  {| mode := mode c; ignore_required := ignore_required c;
     no_default := no_default c; force_default := force_default c;
     invalid_values := invalid_values c; invalid_items := invalid_items c;
     collect_errors := collect_errors c; transformer := transformer c;
     errors := errors c; warnings := ws; transformed := transformed c |}.

Definition with_transformed (c : Context) (l : list (Value * Ty)) : Context :=
  {| mode := mode c; ignore_required := ignore_required c;
     no_default := no_default c; force_default := force_default c;
     invalid_values := invalid_values c; invalid_items := invalid_items c;
     collect_errors := collect_errors c; transformer := transformer c;
     errors := errors c; warnings := warnings c; transformed := l |}.

(** A computation against the context either returns or raises; the
    context as it stands at that point is kept in both cases. *)
Inductive Outcome (A : Type) : Type :=
| Ok (a : A) (c : Context)
| Raise (e : Exn) (c : Context).
Arguments Ok {A} a c.
Arguments Raise {A} e c.

Definition M (A : Type) : Type := Context -> Outcome A.

Definition ret {A} (a : A) : M A := fun c => Ok a c.

Definition bind {A B} (m : M A) (k : A -> M B) : M B :=
  fun c =>
    match m c with
    | Ok a c' => k a c'
    | Raise e c' => Raise e c'
    end.

Definition raise {A} (e : Exn) : M A := fun c => Raise e c.

Definition ask : M Context := fun c => Ok c c.

(** [context.transformer(value, type)], with the outcome of the call
    handed back so that the caller's [try ... except Exception] can be
    written as a match. *)
Definition transform (value : Value) (type : Ty) : M (Exn + Value) :=
  fun c =>
    Ok (transformer c value type)
       (with_transformed c (transformed c ++ [(value, type)])).

(** Modelled from the spec: [collect_waring] of the context (options.py is
    not among the sources).  The warning joins the call's collected
    warnings. *)
Definition collect_waring (w : Warning) : M unit :=
  fun c => Ok tt (with_warnings c (warnings c ++ [w])).

(** Modelled from the spec: [handle_error] of the context (options.py is
    not among the sources).  A data error is fatal: it is raised at once,
    or, when the call aggregates its errors, put into the error buffer that
    [raise_error] raises from; [force_raise] always raises at once. *)
Definition handle_error (e : Exn) (force_raise : bool) : M unit :=
  fun c =>
    if force_raise || negb (collect_errors c)
    then Raise e c
    else Ok tt (with_errors c (errors c ++ [e])).

(** Modelled from the spec: [raise_error] of the context (options.py is
    not among the sources).  All accumulated errors are raised together. *)
Definition raise_error : M unit :=
  fun c =>
    match errors c with
    | [] => Ok tt c
    | es => Raise (CollectedParseError es) c
    end.

End Runtime.

Declare Scope py_scope.
Delimit Scope py_scope with py.
Notation "x <- m ;; k" := (Runtime.bind m (fun x => k))
  (at level 100, m at next level, right associativity) : py_scope.
Notation "m ;;; k" := (Runtime.bind m (fun _ => k))
  (at level 100, right associativity) : py_scope.

Local Open Scope py_scope.

(** ** SchemaField *)

(** [str.lower()] on ASCII text.  Python lower-cases the letters beyond
    ASCII as well, by the tables of Unicode; here they are left as they are,
    so what is stated about a lower-cased name is stated for ASCII names. *)
Definition lower_ascii (a : ascii) : ascii :=
  let n := Ascii.nat_of_ascii a in
  if (65 <=? n)%nat && (n <=? 90)%nat then Ascii.ascii_of_nat (n + 32) else a.

Fixpoint lower (s : string) : string :=
  match s with
  | EmptyString => EmptyString
  | String a s' => String (lower_ascii a) (lower s')
  end.

(** Lookup in an insertion-ordered Python dict whose keys are constants. *)
Fixpoint const_lookup {A} (m : list (Value * A)) (key : Value) : option A :=
  match m with
  | [] => None
  | (k, a) :: rest => if py_key_eqb k key then Some a else const_lookup rest key
  end.

Fixpoint assoc_lookup {A} (m : list (string * A)) (key : string) : option A :=
  match m with
  | [] => None
  | (k, a) :: rest => if String.eqb k key then Some a else assoc_lookup rest key
  end.

Module SchemaField.

Record t : Type := {
  attname : string;
  type : Ty;
  output_type : Ty;
  field : Field.t;
  options : option Options.t;
  final : bool;
  name : string;
  aliases : gset string;
  all_aliases : gset string;
  dependencies : gset string;
  deprecated_to : option string;
  discriminator_map : list (Value * Ty)
}.

(** [_get_const], on the type of a field *)
Definition get_const (ty : Ty) : Value :=
  match ty with
  | TRule _ (Some c) => c
  | _ => VEllipsis
  end.

(** The [for arg in comb.args] loop of [validate_annotation]; a schema
    class answers [__get_field__] from its field table. *)
Fixpoint discriminate (attname tag : string) (args : list Ty)
    (discriminator_map : list (Value * Ty)) : Exn + list (Value * Ty) :=
  match args with
  | [] => inr discriminator_map
  | arg :: rest =>
      match arg with
      | TSchema _ schema_fields =>
          match assoc_lookup schema_fields tag with
          | None =>
              inl (ValueError ("Field: " +:+ repr attname +:+ " specify a discriminator: "
                               +:+ repr tag +:+ ", but is was not find in type"))
          | Some field_type =>
              let const := get_const field_type in
              if negb (is_common_const const)
              then inl (ValueError ("Field: " +:+ repr attname
                                    +:+ " specify a discriminator: " +:+ repr tag
                                    +:+ ", but there is no common type const"))
              else
                match const_lookup discriminator_map const with
                | Some _ =>
                    inl (ValueError ("Field: " +:+ repr attname +:+ " with discriminator: "
                                     +:+ repr tag +:+ ", got a duplicate value"))
                | None => discriminate attname tag rest (discriminator_map ++ [(const, arg)])
                end
          end
      | _ =>
          inl (ValueError ("Field: " +:+ repr attname +:+ " specify a discriminator: "
                           +:+ repr tag +:+ ", but got a type that not instance of SchemaMeta"))
      end
  end.

(** [validate_annotation]: the discriminator map of the field, or the
    declaration-time failure. *)
Definition validate_annotation (attname : string) (type : Ty) (field : Field.t)
    : Exn + list (Value * Ty) :=
  if truthy_str (Field.discriminator field) then
    let tag := text_of (Field.discriminator field) in
    let comb := match type with TLogical _ comb => comb | _ => None end in
    match comb with
    | None =>
        inl (TypeError ("Field: " +:+ repr attname +:+ " specify a discriminator: "
                        +:+ repr tag +:+ ", but got a common type which does not support discriminator"))
    | Some (combinator, args) =>
        if String.eqb combinator "|" || String.eqb combinator "^"
        then discriminate attname tag args []
        else inl (TypeError ("Field: " +:+ repr attname +:+ " specify a discriminator: "
                             +:+ repr tag +:+ ", but got a logical type with combinator: "
                             +:+ repr combinator +:+ " which does not support discriminator"))
    end
  else inr [].

(** [case_insensitive] property, before the instance exists *)
Definition case_insensitive_of (options : option Options.t) (field : Field.t) : bool :=
  match options with
  | Some o =>
      match Options.case_insensitive o with
      | Some b => b
      | None => Field.case_insensitive field
      end
  | None => Field.case_insensitive field
  end.

(** [SchemaField.__init__] *)
Definition init (name : string) (input_type : Ty) (field : Field.t)
    (attname : string) (aliases : gset string) (output_type : Ty)
    (options : option Options.t) (final : bool) : Exn + t :=
  let ci := case_insensitive_of options field in
  let name := if ci then lower name else name in
  let aliases : gset string := if ci then set_map lower aliases else aliases in
  match validate_annotation attname input_type field with
  | inl e => inl e
  | inr discriminator_map =>
      inr {| attname := attname; type := input_type; output_type := output_type;
             field := field; options := options; final := final;
             name := name;
             aliases := aliases ∖ {[ name ]};
             all_aliases := (aliases ∖ {[ name ]}) ∪ {[ name ]};
             dependencies := ∅;
             deprecated_to := None;
             discriminator_map := discriminator_map |}
  end.

(** [get_on_error] *)
Definition get_on_error (self : t) (options : Runtime.Context) : Policy :=
  match Field.on_error (field self) with
  | Some p => p
  | None => Runtime.invalid_values options
  end.

(** [is_required] *)
Definition is_required (self : t) (options : Runtime.Context) : bool :=
  if Runtime.ignore_required options then false
  else
    match Field.required (field self) with
    | ReqBool b => b
    | ReqMode r =>
        if negb (truthy_str (Runtime.mode options)) then false
        else str_contains r (text_of (Runtime.mode options))
    end.

(** [no_input] *)
Definition no_input (self : t) (value : Value) (options : Runtime.Context) : bool :=
  match Field.no_input (field self) with
  | NoBool b => b
  | NoCall f => f value
  | NoMode n =>
      if negb (truthy_str (Runtime.mode options)) then false
      else if truthy_str (Field.mode (field self))
      then negb (str_contains (text_of (Runtime.mode options))
                              (text_of (Field.mode (field self))))
      else str_contains (text_of (Runtime.mode options)) n
  end.

(** [no_output] *)
Definition no_output (self : t) (value : Value) (options : Runtime.Context) : bool :=
  match Field.no_output (field self) with
  | NoBool b => b
  | NoCall f => f value
  | NoMode n =>
      if negb (truthy_str (Runtime.mode options)) then false
      else if truthy_str (Field.mode (field self))
      then negb (str_contains (text_of (Runtime.mode options))
                              (text_of (Field.mode (field self))))
      else str_contains (text_of (Runtime.mode options)) n
  end.

(** [get_default]: [VEllipsis] when there is none. *)
Definition get_default (self : t) (options : Runtime.Context) : Value :=
  if Runtime.no_default options then VEllipsis
  else
    let chosen :=
      match Runtime.force_default options with
      | Some d => Some d
      | None => Field.default (field self)
      end in
    match chosen with
    | None => VEllipsis
    | Some (DefaultFactory make) => make tt
    | Some (DefaultValue v) => v
    end.

(** The rule that [parse_value] hands to the transformer: the declared
    type, or the variant that the tag of a dict input selects.  Testing an
    unhashable tag against the map raises, outside the [try]. *)
Definition select_type (self : t) (value : Value) : Exn + Ty :=
  match discriminator_map self with
  | [] => inr (type self)
  | _ =>
      match value with
      | VDict d =>
          let discriminator := dict_get d (text_of (Field.discriminator (field self))) in
          if hashable discriminator then
            match const_lookup (discriminator_map self) discriminator with
            | Some variant => inr variant
            | None => inr (type self)
            end
          else inl (TypeError "unhashable type")
      | _ => inr (type self)
      end
  end.

Definition deprecation_warning (self : t) : Warning :=
  let to :=
    match deprecated_to self with
    | Some d => if negb (String.eqb d "") then ", use " +:+ repr d +:+ " instead" else ""
    | None => ""
    end in
  WarnText (repr (name self) +:+ " is deprecated" +:+ to) "DeprecationWarning".

(** [parse_value] *)
Definition parse_value (self : t) (value : Value) : Runtime.M Value :=
  (if Field.deprecated (field self)
   then Runtime.collect_waring (deprecation_warning self)
   else Runtime.ret tt) ;;;
  match select_type self value with
  | inl e => Runtime.raise e
  | inr type =>
      r <- Runtime.transform value type ;;
      match r with
      | inr parsed => Runtime.ret parsed
      | inl e =>
          let error := ParseError (ItemName (name self)) (SchemaField.type self) value e in
          options <- Runtime.ask ;;
          match get_on_error self options with
          | EXCLUDE =>
              (if is_required self options
               then Runtime.handle_error error false
               else Runtime.collect_waring (WarnFormatted error)) ;;;
              Runtime.ret VEllipsis
          | PRESERVE =>
              Runtime.collect_waring (WarnFormatted error) ;;;
              Runtime.ret value
          | THROW =>
              Runtime.handle_error error false ;;;
              Runtime.ret VEllipsis
          end
      end
  end.

(** [immutable] property *)
Definition immutable (self : t) : bool :=
  if final self then true else Field.immutable (field self).

(** [alias_map[key]] when the key is an alias, the key itself otherwise
    (the [if dep in alias_map: dep = alias_map[dep]] of [apply_fields]). *)
Definition canonical (alias_map : gmap string string) (key : string) : string :=
  match alias_map !! key with
  | Some to => to
  | None => key
  end.

(** The [for dep in self.field.dependencies] loop of [apply_fields]. *)
Fixpoint collect_dependencies (name : string) (fields : gmap string t)
    (alias_map : gmap string string) (declared dependencies : list string)
    : Exn + list string :=
  match declared with
  | [] => inr dependencies
  | dep :: rest =>
      let dep := canonical alias_map dep in
      match fields !! dep with
      | None =>
          inl (ValueError ("Field(name=" +:+ repr name +:+ ") dependency: "
                           +:+ repr dep +:+ " not exists"))
      | Some _ =>
          collect_dependencies name fields alias_map rest
            (if bool_decide (dep ∈ dependencies) then dependencies
             else dependencies ++ [dep])
      end
  end.

(** [apply_fields]: the field as it is afterwards, or the failure.  The
    message of the first failure is kept up to the set it interpolates. *)
Definition apply_fields (self : t) (fields : gmap string t)
    (alias_map : gmap string string) : Exn + t :=
  if bool_decide (aliases self ∩ dom fields = ∅) then
    let collected :=
      match Field.dependencies (field self) with
      | Some (dep :: rest) =>
          match collect_dependencies (name self) fields alias_map (dep :: rest) [] with
          | inl e => inl e
          | inr l => inr (list_to_set l)
          end
      | _ => inr (dependencies self)
      end in
    match collected with
    | inl e => inl e
    | inr dependencies =>
        let applied :=
          {| attname := attname self; type := type self;
             output_type := output_type self; field := field self;
             options := options self; final := final self; name := name self;
             aliases := aliases self; all_aliases := all_aliases self;
             dependencies := dependencies;
             deprecated_to := deprecated_to self;
             discriminator_map := discriminator_map self |} in
        if truthy_str (Field.deprecated_to (field self)) then
          let to := canonical alias_map (text_of (Field.deprecated_to (field self))) in
          match fields !! to with
          | None =>
              inl (ValueError ("Field(name=" +:+ repr (name self)
                               +:+ ") is deprecated, but prefer field : "
                               +:+ repr to +:+ " not exists"))
          | Some _ => inr applied
          end
        else inr applied
    end
  else
    inl (ValueError ("Field(name=" +:+ repr (name self)
                     +:+ ") aliases conflict with fields")).

(** What stands for an attribute in the class body or for a parameter in
    the signature: nothing ([...]), a plain default, or a [Field]. *)
Inductive Declared : Type :=
| NoValue
| PlainValue (d : Default)
| FieldValue (f : Field.t).

(** The arguments of [Field(default=default, no_input=False,
    no_output=False, dependencies=None)]. *)
Definition implicit_field (default : option Default) : Field.Args :=
  {| Field.arg_alias := NoAlias; Field.arg_alias_from := AliasNone;
     Field.arg_case_insensitive := false; Field.arg_required := None;
     Field.arg_readonly := None; Field.arg_writeonly := None;
     Field.arg_mode := None; Field.arg_default := default;
     Field.arg_deprecated := DepBool false; Field.arg_discriminator := None;
     Field.arg_no_input := NoBool false; Field.arg_no_output := NoBool false;
     Field.arg_on_error := None; Field.arg_unprovided := None;
     Field.arg_immutable := false; Field.arg_dependencies := None |}.

(** [generate], for a declaration that is not a property object.
    [input_type] is what [Rule.parse_annotation] (rule.py is not among the
    sources) makes of the annotation and [final] whether the annotation is
    [Final[...]]; [alias_generator] and [alias_from_generator] are the values
    of [options.alias_generator if options else None] and of
    [options.alias_from_generator if options else None].  The aliases are
    computed on the Field object itself, so the Field that the schema field
    keeps is the one [get_alias_from] leaves behind. *)
Definition generate (attname : string) (input_type : Ty) (final : bool)
    (default : Declared) (options : option Options.t)
    (alias_generator alias_from_generator : option (string -> Value)) : Exn + t :=
  let made :=
    match default with
    | FieldValue f => inr f
    | PlainValue d => Field.init (implicit_field (Some d))
    | NoValue => Field.init (implicit_field None)
    end in
  match made with
  | inl e => inl e
  | inr field =>
      let name := Field.get_alias field attname alias_generator in
      let '(aliases, field) := Field.get_alias_from field attname alias_from_generator in
      init name input_type field attname aliases input_type options final
  end.

End SchemaField.

(** ** Signature-schema builder and call adapter *)

Module FunctionParser.

Inductive Kind : Type :=
| POSITIONAL_ONLY
| POSITIONAL_OR_KEYWORD
| VAR_POSITIONAL
| KEYWORD_ONLY
| VAR_KEYWORD.

(** What stands after [=] in the signature: a plain value or a [Field]. *)
Inductive ParamDefault : Type :=
| PlainDefault (v : Value)
| FieldDefault (f : Field.t).

(** An [inspect.Parameter]; [None] is [Parameter.empty]. *)
Record Param : Type := {
  kind : Kind;
  default : option ParamDefault;
  annotation : option Ty
}.

Definition is_kind (a b : Kind) : bool :=
  match a, b with
  | POSITIONAL_ONLY, POSITIONAL_ONLY
  | POSITIONAL_OR_KEYWORD, POSITIONAL_OR_KEYWORD
  | VAR_POSITIONAL, VAR_POSITIONAL
  | KEYWORD_ONLY, KEYWORD_ONLY
  | VAR_KEYWORD, VAR_KEYWORD => true
  | _, _ => false
  end.

(** The parser of one callable, after [__init__] and field generation.
    [fields] are the values of [self.fields] in insertion order. *)
Record t : Type := {
  obj : string;
  from_class : option string;
  instancemethod : bool;
  classmethod : bool;
  first_reserve : option bool;
  parameters : list (string * Param);
  fields : list SchemaField.t;
  pos_var : option string;
  pos_var_index : option nat;
  kw_var : option string;
  pos_key_map : list (nat * string);
  pos_only_keys : list string;
  position_type : option Ty;
  return_type : option Ty;
  generator_yield_type : option Ty;
  generator_send_type : option Ty;
  generator_return_type : option Ty
}.

(** The positional bookkeeping that [__init__] derives from the signature
    (the loop over [enumerate(self.parameters)]). *)
Fixpoint scan_parameters (i : nat) (params : list (string * Param))
    (pos_var : option string) (pos_var_index : option nat) (kw_var : option string)
    (pos_key_map : list (nat * string)) (pos_only_keys : list string)
    : option string * option nat * option string * list (nat * string) * list string :=
  match params with
  | [] => (pos_var, pos_var_index, kw_var, pos_key_map, pos_only_keys)
  | (k, v) :: rest =>
      match kind v with
      | VAR_POSITIONAL =>
          scan_parameters (S i) rest (Some k) (Some i) kw_var pos_key_map pos_only_keys
      | VAR_KEYWORD =>
          scan_parameters (S i) rest pos_var pos_var_index (Some k) pos_key_map pos_only_keys
      | POSITIONAL_ONLY =>
          scan_parameters (S i) rest pos_var pos_var_index kw_var
            (pos_key_map ++ [(i, k)]) (pos_only_keys ++ [k])
      | POSITIONAL_OR_KEYWORD =>
          scan_parameters (S i) rest pos_var pos_var_index kw_var
            (pos_key_map ++ [(i, k)]) pos_only_keys
      | KEYWORD_ONLY =>
          scan_parameters (S i) rest pos_var pos_var_index kw_var pos_key_map pos_only_keys
      end
  end.

(** A parser for the signature of a plain function (no class context, no
    receiver) and its generated fields. *)
Definition make (obj : string) (parameters : list (string * Param))
    (fields : list SchemaField.t) (position_type return_type : option Ty)
    (yield_type send_type generator_return_type : option Ty) : t :=
  let '(pos_var, pos_var_index, kw_var, pos_key_map, pos_only_keys) :=
    scan_parameters 0 parameters None None None [] [] in
  {| obj := obj; from_class := None; instancemethod := false; classmethod := false;
     first_reserve := None; parameters := parameters; fields := fields;
     pos_var := pos_var; pos_var_index := pos_var_index; kw_var := kw_var;
     pos_key_map := pos_key_map; pos_only_keys := pos_only_keys;
     position_type := position_type; return_type := return_type;
     generator_yield_type := yield_type; generator_send_type := send_type;
     generator_return_type := generator_return_type |}.

(** Modelled from the spec: [BaseParser.get_field] (base.py is not among
    the sources).  A key reaches a field through the field's canonical
    name, its aliases, or its attribute name. *)
Definition get_field (self : t) (key : string) : option SchemaField.t :=
  find (fun f => String.eqb (SchemaField.name f) key
                 || bool_decide (key ∈ SchemaField.all_aliases f)
                 || String.eqb (SchemaField.attname f) key)
       (fields self).

(** [positional_fields]: index to field, for the keys that have one *)
Definition positional_fields (self : t) : list (nat * SchemaField.t) :=
  omap (fun '(index, key) =>
          match get_field self key with
          | Some field => Some (index, field)
          | None => None
          end)
       (pos_key_map self).

Fixpoint index_lookup {A} (m : list (nat * A)) (i : nat) : option A :=
  match m with
  | [] => None
  | (j, a) :: rest => if Nat.eqb j i then Some a else index_lookup rest i
  end.

(** [positional_only_fields]; the index counts every positional-only key,
    also those without a field. *)
Fixpoint positional_only_from (self : t) (i : nat) (keys : list string)
    : list (nat * SchemaField.t) :=
  match keys with
  | [] => []
  | key :: rest =>
      match get_field self key with
      | Some field => (i, field) :: positional_only_from self (S i) rest
      | None => positional_only_from self (S i) rest
      end
  end.

Definition positional_only_fields (self : t) : list (nat * SchemaField.t) :=
  positional_only_from self 0 (pos_only_keys self).

(** *** Default order: [validate_fields] *)

Definition order_message (self : t) (k optional_name : string) : string :=
  obj self +:+ ": non-default argument: " +:+ repr k
  +:+ " follows default argument: " +:+ repr optional_name.

(** The parameters that the default order is checked on: neither variadic
    nor keyword-only. *)
Definition order_checked (v : Param) : bool :=
match kind v with
| POSITIONAL_ONLY | POSITIONAL_OR_KEYWORD => true
| _ => false
end.

(** The flag [required] that the loop computes for a checked parameter. *)
Definition order_required (self : t) (k : string) (v : Param) : bool :=
match get_field self k with
| Some field => Field.no_default (SchemaField.field field)
| None => match default v with Some _ => true | None => false end
end.

(** The loop of [validate_fields].  The result is the list of messages
    handed to [warnings.warn], in order, and the [SyntaxError] that ended
    the loop, if one did.  Parameter names are identifiers, hence never
    empty, so [optional_name] is falsy only while it is [None]. *)
Fixpoint validate_order (self : t) (params : list (string * Param))
    (optional_name : option string) (warned : list string)
    : list string * option Exn :=
match params with
| [] => (warned, None)
| (k, v) :: rest =>
    if negb (order_checked v)
    then validate_order self rest optional_name warned
    else
      if order_required self k v then
        match optional_name with
        | Some o =>
            let msg := order_message self k o in
            if is_kind (kind v) POSITIONAL_ONLY
            then (warned, Some (SyntaxError msg))
            else validate_order self rest optional_name (warned ++ [msg])
        | None => validate_order self rest optional_name warned
        end
      else validate_order self rest (Some k) warned
end.

(** [validate_fields], after the inherited checks of [BaseParser] (base.py
    is not among the sources) have passed. *)
Definition validate_fields (self : t) : list string * option Exn :=
  validate_order self (parameters self) None [].

(** *** Parameter parsing *)

(** [parse_pos_type] *)
Definition parse_pos_type (self : t) (index : nat) (value : Value) : Runtime.M Value :=
  match position_type self with
  | Some pos_type =>
      r <- Runtime.transform value pos_type ;;
      match r with
      | inr parsed => Runtime.ret parsed
      | inl e =>
          let error := ParseError (ItemIndex index) pos_type value e in
          context <- Runtime.ask ;;
          match Runtime.invalid_items context with
          | PRESERVE =>
              Runtime.collect_waring (WarnFormatted error) ;;; Runtime.ret value
          | EXCLUDE =>
              Runtime.collect_waring (WarnFormatted error) ;;; Runtime.ret VEllipsis
          | THROW =>
              Runtime.handle_error error false ;;; Runtime.ret value
          end
      end
  | None => Runtime.ret value
  end.

Definition in_pos_var (self : t) (i : nat) : bool :=
  match pos_var self, pos_var_index self with
  | Some name, Some index => negb (String.eqb name "") && (index <=? i)%nat
  | _, _ => false
  end.

(** Step 1 of [parse_params]: the loop over [enumerate(args)]. *)
Fixpoint parse_args (self : t) (i : nat) (args : list Value)
    (parsed_args : list Value) (parsed_keys : list string)
    : Runtime.M (list Value * list string) :=
  match args with
  | [] => Runtime.ret (parsed_args, parsed_keys)
  | arg :: rest =>
      if in_pos_var self i then
        arg <- parse_pos_type self i arg ;;
        if unprovided arg
        then parse_args self (S i) rest parsed_args parsed_keys
        else parse_args self (S i) rest (parsed_args ++ [arg]) parsed_keys
      else
        match index_lookup (positional_fields self) i with
        | Some field =>
            context <- Runtime.ask ;;
            if SchemaField.no_input field arg context then
              let arg := SchemaField.get_default field context in
              if unprovided arg
              then parse_args self (S i) rest parsed_args parsed_keys
              else parse_args self (S i) rest (parsed_args ++ [arg]) parsed_keys
            else
              let parsed_keys := parsed_keys ++ [SchemaField.attname field] in
              arg <- SchemaField.parse_value field arg ;;
              if unprovided arg
              then parse_args self (S i) rest parsed_args parsed_keys
              else parse_args self (S i) rest (parsed_args ++ [arg]) parsed_keys
        | None => parse_args self (S i) rest (parsed_args ++ [arg]) parsed_keys
        end
  end.

Definition key_in (key : string) (keys : list string) : bool :=
  existsb (String.eqb key) keys.

(** Step 2 of [parse_params]: the loop over [positional_only_fields]. *)
Fixpoint fill_positional_only (pos_only : list (nat * SchemaField.t))
    (parsed_args : list Value) (parsed_keys : list string)
    : Runtime.M (list Value * list string) :=
  match pos_only with
  | [] => Runtime.ret (parsed_args, parsed_keys)
  | (index, field) :: rest =>
      if key_in (SchemaField.attname field) parsed_keys
      then fill_positional_only rest parsed_args parsed_keys
      else
        context <- Runtime.ask ;;
        if SchemaField.is_required field context then
          Runtime.handle_error (AbsenceError (SchemaField.attname field)) false ;;;
          fill_positional_only rest parsed_args parsed_keys
        else
          let default := SchemaField.get_default field context in
          if negb (unprovided default)
          then fill_positional_only rest (parsed_args ++ [default])
                 (parsed_keys ++ [SchemaField.attname field])
          else fill_positional_only rest parsed_args parsed_keys
  end.

Section ParseParams.

(** [self.parse_data(kwargs, context=..., excluded_keys=..., as_attname=True)],
    inherited from [BaseParser] (base.py is not among the sources). *)
Variable parse_data :
  t -> list (string * Value) -> list string -> Runtime.M (list (string * Value)).

(** [parse_params] *)
Definition parse_params (self : t) (args : list Value) (kwargs : list (string * Value))
    : Runtime.M (list Value * list (string * Value)) :=
step1 <- parse_args self 0 args [] [] ;;
step2 <- fill_positional_only (positional_only_fields self) (fst step1) (snd step1) ;;
parsed_kwargs <- parse_data self kwargs (snd step2) ;;
Runtime.raise_error ;;;
Runtime.ret (fst step2, parsed_kwargs).

End ParseParams.

(** Modelled from the spec: the non-positional fields, against which
    [BaseParser.parse_data] validates keyword data (base.py is not among the
    sources): those of the parameters that are not positional-only. *)
Definition non_positional (self : t) (field : SchemaField.t) : bool :=
negb (key_in (SchemaField.attname field) (pos_only_keys self)).

(** Modelled from the spec: the keyword half of [BaseParser.parse_data]
    (base.py is not among the sources).  Each supplied keyword that reaches
    a non-positional field not yet parsed is validated through that field;
    the other keywords are kept only when the signature has a variadic
    keyword parameter. *)
Fixpoint parse_supplied (self : t) (data : list (string * Value))
    (excluded_keys : list string) (result : list (string * Value))
    : Runtime.M (list (string * Value)) :=
match data with
| [] => Runtime.ret result
| (key, value) :: rest =>
    match List.filter (non_positional self) (option_list (get_field self key)) with
    | field :: _ =>
        if key_in (SchemaField.attname field) excluded_keys
        then parse_supplied self rest excluded_keys result
        else
          context <- Runtime.ask ;;
          if SchemaField.no_input field value context
          then parse_supplied self rest excluded_keys result
          else
            parsed <- SchemaField.parse_value field value ;;
            if unprovided parsed
            then parse_supplied self rest excluded_keys result
            else parse_supplied self rest excluded_keys
                   (result ++ [(SchemaField.attname field, parsed)])
    | [] =>
        if truthy_str (kw_var self)
        then parse_supplied self rest excluded_keys (result ++ [(key, value)])
        else parse_supplied self rest excluded_keys result
    end
end.

(** Modelled from the spec: whether some supplied keyword reaches the
    field (part of [BaseParser.parse_data]). *)
Definition supplied (self : t) (data : list (string * Value)) (field : SchemaField.t) : bool :=
existsb (fun '(key, _) =>
           match get_field self key with
           | Some f => String.eqb (SchemaField.attname f) (SchemaField.attname field)
           | None => false
           end) data.

(** Modelled from the spec: the second half of [BaseParser.parse_data]
    (base.py is not among the sources).  A non-positional field that was
    neither parsed positionally nor supplied by keyword raises an absence
    error when it is required and takes its default otherwise. *)
Fixpoint parse_missing (self : t) (remaining : list SchemaField.t)
    (data : list (string * Value)) (excluded_keys : list string)
    (result : list (string * Value)) : Runtime.M (list (string * Value)) :=
match remaining with
| [] => Runtime.ret result
| field :: rest =>
    if negb (non_positional self field)
       || key_in (SchemaField.attname field) excluded_keys
       || supplied self data field
    then parse_missing self rest data excluded_keys result
    else
      context <- Runtime.ask ;;
      if SchemaField.is_required field context then
        Runtime.handle_error (AbsenceError (SchemaField.attname field)) false ;;;
        parse_missing self rest data excluded_keys result
      else
        let default := SchemaField.get_default field context in
        if negb (unprovided default)
        then parse_missing self rest data excluded_keys
               (result ++ [(SchemaField.attname field, default)])
        else parse_missing self rest data excluded_keys result
end.

(** Modelled from the spec: [BaseParser.parse_data] with
    [as_attname=True] (base.py is not among the sources): the remaining
    keyword arguments are validated in bulk against the non-positional
    fields. *)
Definition parse_data (self : t) (data : list (string * Value))
    (excluded_keys : list string) : Runtime.M (list (string * Value)) :=
result <- parse_supplied self data excluded_keys [] ;;
parse_missing self (fields self) data excluded_keys result.

(** [parse_result] *)
Definition parse_result (self : t) (result : Value) : Runtime.M Value :=
  match return_type self with
  | Some return_type =>
      r <- Runtime.transform result return_type ;;
      match r with
      | inr parsed => Runtime.ret parsed
      | inl e =>
          let error := ParseError (ItemName "<return>") return_type result e in
          Runtime.handle_error error true ;;;
          Runtime.ret result
      end
  | None => Runtime.ret result
  end.

Section Call.

Variable parse_data :
  t -> list (string * Value) -> list string -> Runtime.M (list (string * Value)).

(** [pop(kwargs, key)] (utils/functional.py is not among the sources): the
    value taken out, and what is left of the dict. *)
Variable pop : list (string * Value) -> string -> Value * list (string * Value).

(** [getattr(x, "__class__", None)] and [isinstance(x, cls)] of the
    interpreter. *)
Variable class_of : Value -> Value.
Variable isinstance : Value -> string -> bool.

(** The wrapped callable [self.obj], here one that is not a generator
    function: called with the arguments, it returns a value or raises. *)
Variable func : list Value -> list (string * Value) -> Exn + Value.

(** The receiver that [get_params] takes out of the arguments. *)
Definition take_receiver (self : t) (args : list Value) (kwargs : list (string * Value))
    : Value * list Value * list (string * Value) :=
let '(receiver, kwargs) :=
  if instancemethod self || classmethod self then
    let '(_self, kwargs) := pop kwargs "__self__" in
    if classmethod self then
      if truthy _self then (class_of _self, kwargs)
      else pop kwargs "__class__"
    else if truthy _self then (_self, kwargs) else (VNone, kwargs)
  else (VNone, kwargs) in
match args with
| first :: rest =>
    if negb (truthy receiver) then (first, rest, kwargs) else (receiver, args, kwargs)
| [] => (receiver, args, kwargs)
end.

(** [get_params] *)
Definition get_params (self : t) (args : list Value) (kwargs : list (string * Value))
    (first_reserve parse_params : option bool)
    : Runtime.M (list Value * list (string * Value)) :=
let first_reserve :=
  match first_reserve with
  | None => FunctionParser.first_reserve self
  | Some b => Some b
  end in
let '(receiver, args, kwargs) :=
  if truthy_flag first_reserve then take_receiver self args kwargs
  else (VNone, args, kwargs) in
parsed <- (if truthy_flag parse_params
           then FunctionParser.parse_params parse_data self args kwargs
           else Runtime.ret (args, kwargs)) ;;
if truthy_flag first_reserve then
  match from_class self with
  | Some cls =>
      if negb (isinstance receiver cls)
      then Runtime.raise (InvalidInstance cls receiver)
      else Runtime.ret (receiver :: fst parsed, snd parsed)
  | None => Runtime.ret (receiver :: fst parsed, snd parsed)
  end
else Runtime.ret parsed.

(** [sync_call], for a callable that is not a generator function (so that
    [do_parse_generator] is false). *)
Definition sync_call (self : t) (args : list Value) (kwargs : list (string * Value))
    (first_reserve parse_params parse_result : option bool) : Runtime.M Value :=
params <- get_params self args kwargs first_reserve parse_params ;;
match func (fst params) (snd params) with
| inl e => Runtime.raise e
| inr result =>
    if truthy_flag parse_result
    then FunctionParser.parse_result self result
    else Runtime.ret result
end.

(** [async_call]: the same steps around [await func(...)]. *)
Definition async_call (self : t) (args : list Value) (kwargs : list (string * Value))
    (first_reserve parse_params parse_result : option bool) : Runtime.M Value :=
params <- get_params self args kwargs first_reserve parse_params ;;
match func (fst params) (snd params) with
| inl e => Runtime.raise e
| inr result =>
    if truthy_flag parse_result
    then FunctionParser.parse_result self result
    else Runtime.ret result
end.

End Call.

End FunctionParser.

(** ** Generators *)

Module Generator.

(** What a generator hands over when it yields: a plain item, or another
    generator object ([inspect.isgenerator(item)]). *)
Inductive Yielded (G : Type) : Type :=
| Plain (item : Value)
| Nested (inner : G).
Arguments Plain {G} item.
Arguments Nested {G} inner.

(** The three ways a resumed generator comes back: it yields and is
    suspended again, it returns ([StopIteration(result)]), or it raises.  A
    [StopIteration] that it raises in any other way is the same to its
    caller. *)
Inductive Step (G : Type) : Type :=
| Yields (item : Yielded G) (rest : G)
| Returns (result : Value)
| Throws (e : Exn).
Arguments Yields {G} item rest.
Arguments Returns {G} result.
Arguments Throws {G} e.

(** Where the body of [sync_generator] is suspended: not started yet, or
    at [sent = yield item] with the current underlying generator and the
    counter [i]. *)
Inductive Frame (G : Type) : Type :=
| Created (generator : G)
| AtYield (generator : G) (i : nat).
Arguments Created {G} generator.
Arguments AtYield {G} generator i.

(** What one resumption of the wrapper delivers to its consumer: an item,
    the value it returns with, or the [RuntimeError] that the interpreter
    raises in place of a [StopIteration] that would leave the body of a
    generator (PEP 479); [sync_generator] is a generator itself. *)
Inductive Delivered (G : Type) : Type :=
| Yield (item : Value) (frame : Frame G)
| Return (result : Value)
| RuntimeError (msg : string).
Arguments Yield {G} item frame.
Arguments Return {G} result.
Arguments RuntimeError {G} msg.

(** The message of that [RuntimeError]. *)
Definition raised_StopIteration : string := "generator raised StopIteration".

Section SyncGenerator.

Context {G : Type}.

(** [generator.send(value)] on a suspended underlying generator;
    [next(generator)] is [send generator VNone]. *)
Variable send : G -> Value -> Step G.

Variable self : FunctionParser.t.

Definition yield_item (i : nat) : Item :=
  ItemName ("<generator.yield[" +:+ pretty i +:+ "]>").

Definition send_item (i : nat) : Item :=
  ItemName ("<generator.send[" +:+ pretty i +:+ "]>").

(** Coercion of a produced item against the yield type. *)
Definition parse_yield (i : nat) (item : Value) : Runtime.M Value :=
  match FunctionParser.generator_yield_type self with
  | Some yield_type =>
      r <- Runtime.transform item yield_type ;;
      match r with
      | inr parsed => Runtime.ret parsed
      | inl e =>
          Runtime.handle_error (ParseError (yield_item i) yield_type item e) true ;;;
          Runtime.ret item
      end
  | None => Runtime.ret item
  end.

(** Coercion of a sent value against the send type. *)
Definition parse_sent (i : nat) (sent : Value) : Runtime.M Value :=
  match FunctionParser.generator_send_type self with
  | Some send_type =>
      r <- Runtime.transform sent send_type ;;
      match r with
      | inr parsed => Runtime.ret parsed
      | inl e =>
          Runtime.handle_error (ParseError (send_item i) send_type sent e) true ;;;
          Runtime.ret sent
      end
  | None => Runtime.ret sent
  end.

(** The [while True] loop of [sync_generator], from [next(generator)]
    up to the next [yield] or the end of the body.  A produced generator
    replaces the current one and the loop goes round again, so the loop
    is bounded by [fuel]; [None] means the bound was reached.  When the
    underlying generator is exhausted and its result is [None], or no
    return type is declared, the body re-raises the [StopIteration] it has
    caught: that exception leaves the body of a generator, so what the
    consumer gets is the [RuntimeError]. *)
Fixpoint pump (fuel : nat) (generator : G) (i : nat)
    : Runtime.M (option (Delivered G)) :=
  match fuel with
  | O => Runtime.ret None
  | S fuel =>
      match send generator VNone with
      | Yields (Nested inner) _ => pump fuel inner i
      | Yields (Plain item) rest =>
          item <- parse_yield i item ;;
          Runtime.ret (Some (Yield item (AtYield rest i)))
      | Returns result | Throws (StopIteration result) =>
          match FunctionParser.generator_return_type self with
          | Some return_type =>
              if is_None result then Runtime.ret (Some (RuntimeError raised_StopIteration))
              else
                r <- Runtime.transform result return_type ;;
                match r with
                | inr parsed => Runtime.ret (Some (Return parsed))
                | inl e =>
                    Runtime.handle_error
                      (ParseError (ItemName "<generator.return>") return_type result e)
                      true ;;;
                    Runtime.ret (Some (Return result))
                end
          | None => Runtime.ret (Some (RuntimeError raised_StopIteration))
          end
      | Throws e => Runtime.raise e
      end
  end.

(** One resumption of the wrapper: [next(wrapper)] is [resume] with
    [VNone], [wrapper.send(v)] is [resume] with [v].  After a [yield],
    a value that is not [None] is coerced and passed to
    [generator.send], whose own result is not looked at; then [i] is
    incremented and the loop continues with [next(generator)].  That
    [generator.send] stands outside any [try]: when the underlying generator
    is exhausted by it, its [StopIteration] leaves the body of the wrapper,
    and the consumer gets the [RuntimeError]. *)
Definition resume (fuel : nat) (frame : Frame G) (sent : Value)
    : Runtime.M (option (Delivered G)) :=
  match frame with
  | Created generator =>
      if is_None sent then pump fuel generator 0
      else Runtime.raise
             (TypeError "can't send non-None value to a just-started generator")
  | AtYield generator i =>
      if is_None sent then pump fuel generator (S i)
      else
        sent <- parse_sent i sent ;;
        match send generator sent with
        | Yields _ rest => pump fuel rest (S i)
        | Returns _ | Throws (StopIteration _) =>
            Runtime.ret (Some (RuntimeError raised_StopIteration))
        | Throws e => Runtime.raise e
        end
  end.

End SyncGenerator.

End Generator.

(** ** Asynchronous generators *)

Module AsyncGenerator.

(** The three ways a resumed asynchronous generator comes back: it yields
    and is suspended again, it ends ([StopAsyncIteration]), or it raises. *)
Inductive Step (G : Type) : Type :=
| Yields (item : Value) (rest : G)
| Ends
| Throws (e : Exn).
Arguments Yields {G} item rest.
Arguments Ends {G}.
Arguments Throws {G} e.

(** Where the body of the wrapper is suspended: not started yet, holding
    the arguments of the call, or at [sent = yield item] with the underlying
    generator and the counter [i]. *)
Inductive Frame (G : Type) : Type :=
| Created (args : list Value) (kwargs : list (string * Value))
| AtYield (generator : G) (i : nat).
Arguments Created {G} args kwargs.
Arguments AtYield {G} generator i.

(** What one resumption of the wrapper delivers to its consumer: an item,
    the end of the iteration, or the [RuntimeError] that the interpreter
    raises in place of a [StopAsyncIteration] that would leave the body of
    an asynchronous generator. *)
Inductive Delivered (G : Type) : Type :=
| Yield (item : Value) (frame : Frame G)
| End
| RuntimeError (msg : string).
Arguments Yield {G} item frame.
Arguments End {G}.
Arguments RuntimeError {G} msg.

Section GetAsyncGenerator.

Context {G : Type}.

Variable parse_data :
  FunctionParser.t -> list (string * Value) -> list string ->
  Runtime.M (list (string * Value)).
Variable pop : list (string * Value) -> string -> Value * list (string * Value).
Variable class_of : Value -> Value.
Variable isinstance : Value -> string -> bool.

(** The wrapped asynchronous generator function [self.obj]: called with
    the arguments, it hands out a generator object, unless the arguments do
    not fit. *)
Variable func : list Value -> list (string * Value) -> Exn + G.

(** [generator.asend(value)] on a suspended underlying generator;
    [generator.__anext__()], which [async for] awaits, is [asend] with
    [None]. *)
Variable asend : G -> Value -> Step G.

Variable self : FunctionParser.t.

(** The arguments of [get_async_generator], which the wrapper closes
    over. *)
Variables first_reserve parse_params parse_result : option bool.

Definition yield_item (i : nat) : Item :=
  ItemName ("<asyncgenerator.yield[" +:+ pretty i +:+ "]>").

Definition send_item (i : nat) : Item :=
  ItemName ("<asyncgenerator.send[" +:+ pretty i +:+ "]>").

(** [if parse_result and self.generator_yield_type: ...] *)
Definition parse_yield (i : nat) (item : Value) : Runtime.M Value :=
  if truthy_flag parse_result then
    match FunctionParser.generator_yield_type self with
    | Some yield_type =>
        r <- Runtime.transform item yield_type ;;
        match r with
        | inr parsed => Runtime.ret parsed
        | inl e =>
            Runtime.handle_error (ParseError (yield_item i) yield_type item e) true ;;;
            Runtime.ret item
        end
    | None => Runtime.ret item
    end
  else Runtime.ret item.

(** [if parse_result and self.generator_send_type: ...] *)
Definition parse_sent (i : nat) (sent : Value) : Runtime.M Value :=
  if truthy_flag parse_result then
    match FunctionParser.generator_send_type self with
    | Some send_type =>
        r <- Runtime.transform sent send_type ;;
        match r with
        | inr parsed => Runtime.ret parsed
        | inl e =>
            Runtime.handle_error (ParseError (send_item i) send_type sent e) true ;;;
            Runtime.ret sent
        end
    | None => Runtime.ret sent
    end
  else Runtime.ret sent.

(** One round of [async for item in generator], up to the [yield]. *)
Definition pull (generator : G) (i : nat) : Runtime.M (Delivered G) :=
  match asend generator VNone with
  | Throws e => Runtime.raise e
  | Ends => Runtime.ret End
  | Yields item rest =>
      item <- parse_yield i item ;;
      Runtime.ret (Yield item (AtYield rest i))
  end.

(** One resumption of the wrapper that [get_async_generator] builds:
    [wrapper.__anext__()] is [resume] with [VNone], [wrapper.asend(v)] is
    [resume] with [v].  The first resumption runs the body from its start,
    in the context that [make_context()] has just made: the parameters are
    taken, the function is called, and the loop is entered.  After a
    [yield], a value that is not [None] is coerced and passed to
    [generator.asend], whose own result is not looked at. *)
Definition resume (frame : Frame G) (sent : Value) : Runtime.M (Delivered G) :=
  match frame with
  | Created args kwargs =>
      if is_None sent then
        params <- FunctionParser.get_params parse_data pop class_of isinstance
                    self args kwargs first_reserve parse_params ;;
        match func (fst params) (snd params) with
        | inl e => Runtime.raise e
        | inr generator => pull generator 0
        end
      else Runtime.raise
             (TypeError "can't send non-None value to a just-started async generator")
  | AtYield generator i =>
      if is_None sent then pull generator (S i)
      else
        sent <- parse_sent i sent ;;
        match asend generator sent with
        | Yields _ rest => pull rest (S i)
        | Ends => Runtime.ret (RuntimeError "async generator raised StopAsyncIteration")
        | Throws e => Runtime.raise e
        end
  end.

End GetAsyncGenerator.

End AsyncGenerator.

(** ** Attribute-schema builder *)

Module ClassParser.

(** The state of a class parser that [generate_from_bases] and
    [generate_fields] work on. *)
Record t : Type := {
  options : Options.t;
  fields : gmap string SchemaField.t;
  exclude_vars : gset string;
  field_alias_map : gmap string string;
  attr_alias_map : gmap string string;
  case_insensitive_names : gset string
}.

(** One entry of [self.obj.__bases__]: whether it passes the test
    [isinstance(base, type(self.obj)) and base is not object], and the
    parser that [self.apply_for(base)] answers with. *)
Record Base : Type := {
  is_schema : bool;
  parser : t
}.

(** The accumulators of [generate_from_bases]. *)
Record Merged : Type := {
  m_fields : gmap string SchemaField.t;
  m_alias_map : gmap string string;
  m_attr_alias_map : gmap string string;
  m_case_insensitive_names : gset string;
  m_exclude_vars : gset string;
  m_option_list : list Options.t
}.

Definition empty_merged : Merged :=
  {| m_fields := ∅; m_alias_map := ∅; m_attr_alias_map := ∅;
     m_case_insensitive_names := ∅; m_exclude_vars := ∅; m_option_list := [] |}.

(** The body of the [for base in ...] loop; [d.update(e)] keeps the
    entries of [e] on common keys. *)
Definition merge_base (acc : Merged) (base : Base) : Merged :=
  if negb (is_schema base) then acc
  else
    let parser := parser base in
    {| m_option_list :=
         if negb (Options.vacuum (options parser))
         then m_option_list acc ++ [options parser]
         else m_option_list acc;
       m_fields := fields parser ∪ m_fields acc;
       m_exclude_vars := m_exclude_vars acc ∪ exclude_vars parser;
       m_alias_map := field_alias_map parser ∪ m_alias_map acc;
       m_attr_alias_map := attr_alias_map parser ∪ m_attr_alias_map acc;
       m_case_insensitive_names :=
         m_case_insensitive_names acc ∪ case_insensitive_names parser |}.

Definition merge_bases (bases : list Base) : Merged :=
  fold_left merge_base (rev bases) empty_merged.

(** [generate_from_bases]; [bases] is [self.obj.__bases__] in declaration
    order and [cls_options] the options the class itself was given. *)
Definition generate_from_bases (bases : list Base) (cls_options : option Options.t) : t :=
  let acc := merge_bases bases in
  let option_list :=
    match cls_options with
    | Some o => m_option_list acc ++ [o]
    | None => m_option_list acc
    end in
  {| options := Options.generate_from option_list;
     fields := m_fields acc;
     exclude_vars := m_exclude_vars acc;
     field_alias_map := m_alias_map acc;
     attr_alias_map := m_attr_alias_map acc;
     case_insensitive_names := m_case_insensitive_names acc |}.

(** The end of [generate_fields]: the fields generated for the class's
    own declarations are checked for clashing names and laid over
    [self.fields].  [self] is the parser as the two loops before have left
    it, which add the names they pass over to [self.exclude_vars], and
    [generated] is the list [fields] that they have built. *)
Fixpoint collect_fields (generated : list SchemaField.t)
    (field_map : gmap string SchemaField.t) : Exn + gmap string SchemaField.t :=
  match generated with
  | [] => inr field_map
  | field :: rest =>
      match field_map !! SchemaField.name field with
      | Some _ =>
          inl (ValueError ("field name: " +:+ repr (SchemaField.name field)
                           +:+ " conflicted"))
      | None => collect_fields rest (<[ SchemaField.name field := field ]> field_map)
      end
  end.

Definition generate_fields (self : t) (generated : list SchemaField.t) : Exn + t :=
  match collect_fields generated ∅ with
  | inl e => inl e
  | inr field_map =>
      inr {| options := options self;
             fields := field_map ∪ fields self;
             exclude_vars := exclude_vars self;
             field_alias_map := field_alias_map self;
             attr_alias_map := attr_alias_map self;
             case_insensitive_names := case_insensitive_names self |}
  end.


(** *** Accessors *)

(** The [__dict__] of an instance. *)
Definition Instance : Type := gmap string Value.

(** How an accessor fails: with the [AttributeError] it raises itself, or
    with what a hook raised. *)
Inductive Failure : Type :=
| AttributeError (msg : string)
| Raised (e : Exn).

(** [make_getter]: the closure [getter(_obj_self)]; [name] is [self.name]. *)
Definition make_getter (name : string) (field : SchemaField.t) (instance : Instance)
    : Failure + Value :=
  match instance !! SchemaField.attname field with
  | None =>
      inl (AttributeError (name +:+ ": " +:+ repr (SchemaField.attname field)
                           +:+ " not provided in schema"))
  | Some value => inr value
  end.

(** [make_setter]: the closure [setter(_obj_self, value)].  [name] is
    [self.name] and [options_immutable] is [self.options.immutable].  Past
    the immutability test, the rest runs against the runtime options that
    [make_runtime(..., force_error=True)] answers with; the result is the
    [__dict__] afterwards. *)
Definition make_setter (name : string) (options_immutable : bool) (field : SchemaField.t)
    (post_setattr : option (Instance -> SchemaField.t -> Value -> Runtime.M Instance))
    (instance : Instance) (value : Value) : Failure + Runtime.M Instance :=
  if options_immutable || SchemaField.immutable field then
    inl (AttributeError (name +:+ ": Attempt to set immutable attribute: ["
                         +:+ repr (SchemaField.attname field) +:+ "]"))
  else
    inr (value <- SchemaField.parse_value field value ;;
         let instance := <[ SchemaField.attname field := value ]> instance in
         match post_setattr with
         | Some hook => hook instance field value
         | None => Runtime.ret instance
         end).

(** [make_deleter]: the closure [deleter(_obj_self)]; [options] are the
    runtime options that [make_runtime(..., force_error=True)] answers
    with. *)
Definition make_deleter (name : string) (options_immutable : bool) (field : SchemaField.t)
    (post_delattr : option (Instance -> SchemaField.t -> Runtime.Context -> Exn + Instance))
    (options : Runtime.Context) (instance : Instance) : Failure + Instance :=
  if options_immutable || SchemaField.immutable field then
    inl (AttributeError (name +:+ ": Attempt to set immutable attribute: ["
                         +:+ repr (SchemaField.attname field) +:+ "]"))
  else if SchemaField.is_required field options then
    inl (AttributeError (name +:+ ": Attempt to delete required schema key: "
                         +:+ repr (SchemaField.attname field)))
  else
    match instance !! SchemaField.attname field with
    | None =>
        inl (AttributeError (name +:+ ": Attempt to delete nonexistent key: "
                             +:+ repr (SchemaField.attname field)))
    | Some _ =>
        let instance := delete (SchemaField.attname field) instance in
        match post_delattr with
        | Some hook =>
            match hook instance field options with
            | inl e => inl (Raised e)
            | inr instance => inr instance
            end
        | None => inr instance
        end
    end.

End ClassParser.


(** ** Wire encoding of durations *)

Module Encode.

(** A [datetime.timedelta]: days, seconds and microseconds, which the
    class keeps normalised. *)
Record timedelta : Type := {
  days : Z;
  seconds : Z;
  microseconds : Z
}.

(** What every [timedelta] object satisfies. *)
Definition normalised (d : timedelta) : Prop :=
  (-999999999 <= days d <= 999999999)%Z
  /\ (0 <= seconds d < 86400)%Z
  /\ (0 <= microseconds d < 1000000)%Z.

(** [timedelta(days, seconds, microseconds)] on integers: microseconds
    carry into seconds and seconds into days by floor division, and a
    magnitude of more than 999999999 days is an [OverflowError], here
    [None]. *)
Definition make (d s us : Z) : option timedelta :=
  let s := (s + us / 1000000)%Z in
  let us := (us mod 1000000)%Z in
  let d := (d + s / 86400)%Z in
  let s := (s mod 86400)%Z in
  if (999999999 <? Z.abs d)%Z then None
  else Some {| days := d; seconds := s; microseconds := us |}.

(** [timedelta.__mul__] by an integer *)
Definition mul (d : timedelta) (n : Z) : option timedelta :=
  make (days d * n) (seconds d * n) (microseconds d * n).

(** [timedelta.__lt__]: the comparison of the (days, seconds, microseconds)
    triples. *)
Definition ltb (a b : timedelta) : bool :=
  (days a <? days b)%Z
  || ((days a =? days b)%Z
      && ((seconds a <? seconds b)%Z
          || ((seconds a =? seconds b)%Z && (microseconds a <? microseconds b)%Z))).

(** [timedelta(0)] *)
Definition zero : timedelta := {| days := 0; seconds := 0; microseconds := 0 |}.

Fixpoint zeros (n : nat) : string :=
  match n with
  | O => ""
  | S n => String "0" (zeros n)
  end.

(** [format(n, '0wd')]: the decimal digits, padded with zeros after the
    sign up to the width [w]. *)
Definition format_0d (width : nat) (n : Z) : string :=
  let digits := pretty (Z.abs n) in
  let sign := if (n <? 0)%Z then "-" else "" in
  sign +:+ zeros (width - String.length sign - String.length digits) +:+ digits.

(** [duration_iso_string] *)
Definition duration_iso_string (duration : timedelta) : option string :=
  let negative := ltb duration zero in
  match (if negative then mul duration (-1) else Some duration) with
  | None => None
  | Some duration =>
      let sign := if negative then "-" else "" in
      let days := days duration in
      let seconds := seconds duration in
      let microseconds := microseconds duration in
      let minutes := (seconds / 60)%Z in
      let seconds := (seconds mod 60)%Z in
      let hours := (minutes / 60)%Z in
      let minutes := (minutes mod 60)%Z in
      let ms := if (microseconds =? 0)%Z then "" else "." +:+ format_0d 6 microseconds in
      Some (sign +:+ "P" +:+ pretty days +:+ "DT" +:+ format_0d 2 hours +:+ "H"
            +:+ format_0d 2 minutes +:+ "M" +:+ format_0d 2 seconds +:+ ms +:+ "S")
  end.

(** A [datetime.time].  [tzstr] is the text of the UTC offset as
    [isoformat] appends it ([+HH:MM] and the like), empty for a time without
    time zone. *)
Record time : Type := {
  hour : Z;
  minute : Z;
  second : Z;
  microsecond : Z;
  tzstr : string
}.

(** What every [time] object satisfies. *)
Definition time_valid (t : time) : Prop :=
  (0 <= hour t < 24)%Z /\ (0 <= minute t < 60)%Z /\ (0 <= second t < 60)%Z
  /\ (0 <= microsecond t < 1000000)%Z.

(** [time.isoformat()]: [HH:MM:SS], then [.ffffff] when the microsecond is
    not 0, then the UTC offset. *)
Definition time_isoformat (t : time) : string :=
  format_0d 2 (hour t) +:+ ":" +:+ format_0d 2 (minute t) +:+ ":"
  +:+ format_0d 2 (second t)
  +:+ (if (microsecond t =? 0)%Z then "" else "." +:+ format_0d 6 (microsecond t))
  +:+ tzstr t.

(** [from_time] *)
Definition from_time (data : time) : string :=
  let r := time_isoformat data in
  if negb (microsecond data =? 0)%Z then String.substring 0 12 r else r.

End Encode.


(** ** The wording of the specification, for comparison *)

Module Wording.

(** "is a subset of the field's mode": every tag (character) of the string
    occurs in the mode. *)
Definition str_subset (s m : string) : bool :=
forallb (fun a => existsb (Ascii.eqb a) (String.list_ascii_of_string m))
        (String.list_ascii_of_string s).

Definition not_subset_of_mode (n : NoIO) (mode : option string) : bool :=
match n with
| NoMode s => negb (str_subset s (text_of mode))
| _ => false
end.

(** The three conflicts that section 4.1 lists for constructing a Field. *)
Definition field_conflict (a : Field.Args) : bool :=
(truthy_flag (Field.arg_readonly a) && truthy_flag (Field.arg_writeonly a))
|| (truthy_str (Field.arg_mode a)
    && (truthy_flag (Field.arg_readonly a) || truthy_flag (Field.arg_writeonly a)))
|| not_subset_of_mode (Field.arg_no_input a) (Field.resolved_mode a)
|| not_subset_of_mode (Field.arg_no_output a) (Field.resolved_mode a).

End Wording.

(** ** Concrete inputs *)

Module Sample.

(** A small transformer to run the embedding on: [int] and [str] coerce the
    way the Python constructors do on the values used below, a schema
    accepts a dict whose constant-typed entries carry their constants, and a
    union accepts what one of its members accepts. *)
Fixpoint digits (s : string) (acc : Z) : option Z :=
match s with
| EmptyString => Some acc
| String a s' =>
    let n := Ascii.nat_of_ascii a in
    if (48 <=? n)%nat && (n <=? 57)%nat
    then digits s' (10 * acc + Z.of_nat (n - 48))%Z
    else None
end.

Definition to_int (v : Value) : Exn + Value :=
match v with
| VInt z => inr (VInt z)
| VBool b => inr (VInt (Z.b2z b))
| VStr s =>
    match s with
    | EmptyString => inl (CoercionError "invalid literal for int()")
    | _ =>
        match digits s 0 with
        | Some z => inr (VInt z)
        | None => inl (CoercionError "invalid literal for int()")
        end
    end
| _ => inl (CoercionError "int() argument must be a string or a number")
end.

Definition to_str (v : Value) : Exn + Value :=
match v with
| VStr s => inr (VStr s)
| VInt z => inr (VStr (pretty z))
| VNone => inr (VStr "None")
| VBool true => inr (VStr "True")
| VBool false => inr (VStr "False")
| _ => inl (CoercionError "not a string")
end.

Definition accepts_schema (schema_fields : list (string * Ty)) (v : Value) : bool :=
match v with
| VDict d =>
    forallb (fun '(k, ty) =>
               match ty with
               | TRule _ (Some c) => py_key_eqb (dict_get d k) c
               | _ => true
               end) schema_fields
| _ => false
end.

Definition accepts_member (v : Value) (ty : Ty) : bool :=
match ty with
| TSchema _ schema_fields => accepts_schema schema_fields v
| _ => false
end.

Definition coerce (v : Value) (ty : Ty) : Exn + Value :=
match ty with
| TClass "int" => to_int v
| TClass "str" => to_str v
| TSchema _ schema_fields =>
    if accepts_schema schema_fields v then inr v
    else inl (CoercionError "schema mismatch")
| TLogical _ (Some (_, args)) =>
    if existsb (accepts_member v) args then inr v
    else inl (CoercionError "no member of the union matches")
| _ => inr v
end.

Definition int_type : Ty := TClass "int".
Definition str_type : Ty := TClass "str".

(** A fresh context: no mode, no overrides, the given policy for invalid
    values, errors raised at once or aggregated. *)
Definition context (invalid_values : Policy) (collect_errors : bool) : Runtime.Context :=
{| Runtime.mode := None; Runtime.ignore_required := false;
   Runtime.no_default := false; Runtime.force_default := None;
   Runtime.invalid_values := invalid_values; Runtime.invalid_items := THROW;
   Runtime.collect_errors := collect_errors; Runtime.transformer := coerce;
   Runtime.errors := []; Runtime.warnings := []; Runtime.transformed := [] |}.

Definition ignoring_required (c : Runtime.Context) : Runtime.Context :=
{| Runtime.mode := Runtime.mode c; Runtime.ignore_required := true;
   Runtime.no_default := Runtime.no_default c;
   Runtime.force_default := Runtime.force_default c;
   Runtime.invalid_values := Runtime.invalid_values c;
   Runtime.invalid_items := Runtime.invalid_items c;
   Runtime.collect_errors := Runtime.collect_errors c;
   Runtime.transformer := Runtime.transformer c;
   Runtime.errors := Runtime.errors c; Runtime.warnings := Runtime.warnings c;
   Runtime.transformed := Runtime.transformed c |}.

(** [Field(...)] for arguments that are known not to conflict. *)
Definition plain_field (required : Required) (default : option Default)
    (on_error : option Policy) : Field.t :=
{| Field.alias := None; Field.alias_generator := None; Field.alias_from := AliasNone;
   Field.case_insensitive := false; Field.deprecated := false;
   Field.deprecated_to := None; Field.no_input := NoBool false;
   Field.no_output := NoBool false; Field.immutable := false;
   Field.required := required; Field.default := default;
   Field.unprovided_value := None; Field.dependencies := None;
   Field.discriminator := None; Field.on_error := on_error; Field.mode := None |}.

(** The schema field of a parameter [attname: type]. *)
Definition schema_field (attname : string) (type : Ty) (field : Field.t)
    (discriminator_map : list (Value * Ty)) : SchemaField.t :=
{| SchemaField.attname := attname; SchemaField.type := type;
   SchemaField.output_type := type; SchemaField.field := field;
   SchemaField.options := None; SchemaField.final := false;
   SchemaField.name := attname; SchemaField.aliases := ∅;
   SchemaField.all_aliases := {[ attname ]}; SchemaField.dependencies := ∅;
   SchemaField.deprecated_to := None;
   SchemaField.discriminator_map := discriminator_map |}.

(** [Field(mode='rw', no_input='wr')] *)
Definition reordered_tags : Field.Args :=
{| Field.arg_alias := NoAlias; Field.arg_alias_from := AliasNone;
   Field.arg_case_insensitive := false; Field.arg_required := None;
   Field.arg_readonly := None; Field.arg_writeonly := None;
   Field.arg_mode := Some "rw";
   Field.arg_default := None; Field.arg_deprecated := DepBool false;
   Field.arg_discriminator := None; Field.arg_no_input := NoMode "wr";
   Field.arg_no_output := NoBool false; Field.arg_on_error := None;
   Field.arg_unprovided := None; Field.arg_immutable := false;
   Field.arg_dependencies := None |}.

(** [Field(no_input='r')], no mode given *)
Definition modeless : Field.Args :=
{| Field.arg_alias := NoAlias; Field.arg_alias_from := AliasNone;
   Field.arg_case_insensitive := false; Field.arg_required := None;
   Field.arg_readonly := None; Field.arg_writeonly := None;
   Field.arg_mode := None;
   Field.arg_default := None; Field.arg_deprecated := DepBool false;
   Field.arg_discriminator := None; Field.arg_no_input := NoMode "r";
   Field.arg_no_output := NoBool false; Field.arg_on_error := None;
   Field.arg_unprovided := None; Field.arg_immutable := false;
   Field.arg_dependencies := None |}.

(** [Field(alias_from=['a'])] *)
Definition listed_aliases : Field.Args :=
{| Field.arg_alias := NoAlias;
   Field.arg_alias_from := AliasList [AliasValue (VStr "a")];
   Field.arg_case_insensitive := false; Field.arg_required := None;
   Field.arg_readonly := None; Field.arg_writeonly := None;
   Field.arg_mode := None;
   Field.arg_default := None; Field.arg_deprecated := DepBool false;
   Field.arg_discriminator := None; Field.arg_no_input := NoBool false;
   Field.arg_no_output := NoBool false; Field.arg_on_error := None;
   Field.arg_unprovided := None; Field.arg_immutable := false;
   Field.arg_dependencies := None |}.

(** An alias generator, [lambda name: name.upper()]-like: it prefixes. *)
Definition prefixing : string -> Value := fun attname => VStr ("x_" +:+ attname).

(** The field of a parameter [n: int] with the given error policy. *)
Definition int_field (required : bool) (on_error : option Policy) : SchemaField.t :=
schema_field "n" int_type (plain_field (ReqBool required) None on_error) [].

(** The parser of [def f(n: int, /) -> int]. *)
Definition int_to_int : FunctionParser.t :=
FunctionParser.make "f"
  [("n", {| FunctionParser.kind := FunctionParser.POSITIONAL_ONLY;
            FunctionParser.default := None;
            FunctionParser.annotation := Some int_type |})]
  [int_field true None] None (Some int_type) None None None.

Definition param (kind : FunctionParser.Kind) (default : option FunctionParser.ParamDefault)
    : FunctionParser.Param :=
{| FunctionParser.kind := kind; FunctionParser.default := default;
   FunctionParser.annotation := Some int_type |}.

(** The field generated for a parameter [name: int] without a default, and
    for one with the default [1]. *)
Definition bare (name : string) : SchemaField.t :=
schema_field name int_type (plain_field (ReqBool true) None None) [].

Definition defaulted (name : string) : SchemaField.t :=
schema_field name int_type
  (plain_field (ReqBool false) (Some (DefaultValue (VInt 1))) None) [].

(** The field of [name: int = Field(required=False)]: optional for the
    schema, yet without a default. *)
Definition schema_optional (name : string) : SchemaField.t :=
schema_field name int_type (plain_field (ReqBool false) None None) [].

(** [def f(a: int, b: int = 1, *, c: int)] *)
Definition a_b1_star_c : FunctionParser.t :=
FunctionParser.make "f"
  [("a", param FunctionParser.POSITIONAL_OR_KEYWORD None);
   ("b", param FunctionParser.POSITIONAL_OR_KEYWORD (Some (FunctionParser.PlainDefault (VInt 1))));
   ("c", param FunctionParser.KEYWORD_ONLY None)]
  [bare "a"; defaulted "b"; bare "c"] None None None None None.

(** [def f(a: int = Field(required=False), b: int = Field(), /)] *)
Definition optional_then_required : FunctionParser.t :=
FunctionParser.make "f"
  [("a", param FunctionParser.POSITIONAL_ONLY
           (Some (FunctionParser.FieldDefault (plain_field (ReqBool false) None None))));
   ("b", param FunctionParser.POSITIONAL_ONLY
           (Some (FunctionParser.FieldDefault (plain_field (ReqBool true) None None))))]
  [schema_optional "a"; bare "b"] None None None None None.

(** [def f(a: int, b: int = 1, c: int = Field(), /)]: [c] is positional-only
    and its field has no default. *)
Definition a_b1_c_positional : FunctionParser.t :=
FunctionParser.make "f"
  [("a", param FunctionParser.POSITIONAL_ONLY None);
   ("b", param FunctionParser.POSITIONAL_ONLY (Some (FunctionParser.PlainDefault (VInt 1))));
   ("c", param FunctionParser.POSITIONAL_ONLY
           (Some (FunctionParser.FieldDefault (plain_field (ReqBool true) None None))))]
  [bare "a"; defaulted "b"; bare "c"] None None None None None.

(** [def f(a: int, b: int = 1, c: int = Field())]: the same, with [c]
    positional-or-keyword. *)
Definition a_b1_c_keyword : FunctionParser.t :=
FunctionParser.make "f"
  [("a", param FunctionParser.POSITIONAL_OR_KEYWORD None);
   ("b", param FunctionParser.POSITIONAL_OR_KEYWORD (Some (FunctionParser.PlainDefault (VInt 1))));
   ("c", param FunctionParser.POSITIONAL_OR_KEYWORD
           (Some (FunctionParser.FieldDefault (plain_field (ReqBool true) None None))))]
  [bare "a"; defaulted "b"; bare "c"] None None None None None.

(** Two schema classes tagged 1 and 2, and their union. *)
Definition variant (name : string) (tag : Z) : Ty :=
TSchema name [("tag", TRule "Literal" (Some (VInt tag))); ("payload", str_type)].

Definition tagged_union : Ty :=
TLogical "Union" (Some ("|", [variant "A" 1; variant "B" 2])).

(** [Field(discriminator='tag', on_error=...)] *)
Definition discriminating (on_error : option Policy) : Field.t :=
{| Field.alias := None; Field.alias_generator := None; Field.alias_from := AliasNone;
   Field.case_insensitive := false; Field.deprecated := false;
   Field.deprecated_to := None; Field.no_input := NoBool false;
   Field.no_output := NoBool false; Field.immutable := false;
   Field.required := ReqBool true; Field.default := None;
   Field.unprovided_value := None; Field.dependencies := None;
   Field.discriminator := Some "tag"; Field.on_error := on_error; Field.mode := None |}.

Definition tagged (tag : Z) : Value :=
VDict [("tag", VInt tag); ("payload", VStr "p")].

(** Two base schemas that both declare a field [x], and a class
    [class C(A, B)] that declares [y] itself. *)
Definition options_of (label : string) : Options.t :=
{| Options.label := label; Options.vacuum := false; Options.case_insensitive := None |}.

Definition x_of_A : SchemaField.t := bare "x".
Definition x_of_B : SchemaField.t := defaulted "x".
Definition y_of_C : SchemaField.t := bare "y".

Definition base_parser (label : string) (x : SchemaField.t) (excluded : string)
    : ClassParser.t :=
{| ClassParser.options := options_of label;
   ClassParser.fields := {[ "x" := x ]};
   ClassParser.exclude_vars := {[ excluded ]};
   ClassParser.field_alias_map := ∅;
   ClassParser.attr_alias_map := ∅;
   ClassParser.case_insensitive_names := ∅ |}.

Definition base_A : ClassParser.Base :=
{| ClassParser.is_schema := true; ClassParser.parser := base_parser "A" x_of_A "helper_a" |}.

Definition base_B : ClassParser.Base :=
{| ClassParser.is_schema := true; ClassParser.parser := base_parser "B" x_of_B "helper_b" |}.

(** The same bases with options that set the case-insensitivity flag:
    [A] to true and [B] to false. *)
Definition flagged (label : string) (flag : bool) : Options.t :=
{| Options.label := label; Options.vacuum := false; Options.case_insensitive := Some flag |}.

Definition flagged_base (base : ClassParser.Base) (options : Options.t) : ClassParser.Base :=
{| ClassParser.is_schema := ClassParser.is_schema base;
   ClassParser.parser :=
     {| ClassParser.options := options;
        ClassParser.fields := ClassParser.fields (ClassParser.parser base);
        ClassParser.exclude_vars := ClassParser.exclude_vars (ClassParser.parser base);
        ClassParser.field_alias_map := ClassParser.field_alias_map (ClassParser.parser base);
        ClassParser.attr_alias_map := ClassParser.attr_alias_map (ClassParser.parser base);
        ClassParser.case_insensitive_names :=
          ClassParser.case_insensitive_names (ClassParser.parser base) |} |}.

Definition bases_of_C : list ClassParser.Base :=
[flagged_base base_A (flagged "A" true); flagged_base base_B (flagged "B" false)].

(** A generator that yields the given items one after the other, takes no
    notice of what it is sent, and then returns [result]. *)
Record Script : Type := {
  items : list Value;
  result : Value
}.

Definition script_send (g : Script) (sent : Value) : Generator.Step Script :=
match items g with
| item :: rest => Generator.Yields (Generator.Plain item) {| items := rest; result := result g |}
| [] => Generator.Returns (result g)
end.

(** [def f() -> Generator[int, int, str]] *)
Definition int_generator : FunctionParser.t :=
FunctionParser.make "f" [] [] None None (Some int_type) (Some int_type) (Some str_type).

(** The field of a parameter [name: int = Field(on_error='exclude')]. *)
Definition excluding (name : string) : SchemaField.t :=
schema_field name int_type (plain_field (ReqBool true) None (Some EXCLUDE)) [].

(** [def f(a: int, b: int = Field(on_error='exclude'), /, *, k: int =
    Field(on_error='exclude'))] *)
Definition a_b_slash_k : FunctionParser.t :=
FunctionParser.make "f"
  [("a", param FunctionParser.POSITIONAL_ONLY None);
   ("b", param FunctionParser.POSITIONAL_ONLY
           (Some (FunctionParser.FieldDefault (plain_field (ReqBool true) None (Some EXCLUDE)))));
   ("k", param FunctionParser.KEYWORD_ONLY
           (Some (FunctionParser.FieldDefault (plain_field (ReqBool true) None (Some EXCLUDE)))))]
  [bare "a"; excluding "b"; excluding "k"] None None None None None.

(** Stand-ins for [pop], for the interpreter's [__class__] and
    [isinstance], and a function that returns its only argument. *)
Definition pop (d : list (string * Value)) (key : string) : Value * list (string * Value) :=
(dict_get d key, List.filter (fun kv => negb (String.eqb (fst kv) key)) d).

Definition no_class : Value -> Value := fun _ => VNone.
Definition any_instance : Value -> string -> bool := fun _ _ => true.

Definition echo (args : list Value) (kwargs : list (string * Value)) : Exn + Value :=
match args with
| [v] => inr v
| _ => inl (TypeError "f() takes exactly one argument")
end.

(** Ill-formed discriminated declarations: a plain type, an all-of
    combination, a member without the tag field, a member whose tag field
    has no constant, and two members with the same constant. *)
Definition all_of : Ty :=
TLogical "AllOf" (Some ("&", [variant "A" 1; variant "B" 2])).

Definition untagged_member : Ty :=
TLogical "Union" (Some ("|", [variant "A" 1; TSchema "B" [("payload", str_type)]])).

Definition unconstant_member : Ty :=
TLogical "Union" (Some ("|", [variant "A" 1; TSchema "B" [("tag", int_type)]])).

Definition duplicated_members : Ty :=
TLogical "Union" (Some ("^", [variant "A" 1; variant "B" 1])).

End Sample.

(** ** Outcomes named in the properties *)

(** The context in which the transformer's failure is handled: the
    deprecation warning (if the field is deprecated) has been collected and
    the transformer has been called once. *)
Definition after_transform (self : SchemaField.t) (value : Value) (ty : Ty)
    (c : Runtime.Context) : Runtime.Context :=
  let c0 :=
    if Field.deprecated (SchemaField.field self)
    then Runtime.with_warnings c (Runtime.warnings c ++ [SchemaField.deprecation_warning self])
    else c in
  Runtime.with_transformed c0 (Runtime.transformed c0 ++ [(value, ty)]).

(** What "escalates to fatal through the context" amounts to for
    [parse_value]: the error is raised, or it joins the buffer of errors
    that are raised together when parsing completes. *)
Definition escalated (error : Exn) (c : Runtime.Context) : Runtime.Outcome Value :=
  if Runtime.collect_errors c
  then Runtime.Ok VEllipsis (Runtime.with_errors c (Runtime.errors c ++ [error]))
  else Runtime.Raise error c.

(** What "a warning is recorded" amounts to. *)
Definition warned (error : Exn) (c : Runtime.Context) : Runtime.Context :=
  Runtime.with_warnings c (Runtime.warnings c ++ [WarnFormatted error]).

(** Whether the field of a parameter carries a default. *)
Definition has_default (self : FunctionParser.t) (k : string) : bool :=
  match FunctionParser.get_field self k with
  | Some field => negb (Field.no_default (SchemaField.field field))
  | None => false
  end.

(** The name of the last checked parameter with a default among [params],
    or [start] when there is none. *)
Fixpoint last_defaulted (self : FunctionParser.t)
    (params : list (string * FunctionParser.Param)) (start : option string)
    : option string :=
  match params with
  | [] => start
  | (k, v) :: rest =>
      last_defaulted self rest
        (if FunctionParser.order_checked v && has_default self k then Some k else start)
  end.

(** Every parameter that the default order is checked on has a field. *)
Definition checked_have_fields (self : FunctionParser.t)
    (params : list (string * FunctionParser.Param)) : Prop :=
  forall k v, In (k, v) params -> FunctionParser.order_checked v = true ->
              is_Some (FunctionParser.get_field self k).

(** A parameter of the given kind whose field has no default and which
    comes after a checked parameter with a default; [o] is the name of the
    last such parameter before it. *)
Definition out_of_order (self : FunctionParser.t)
    (params : list (string * FunctionParser.Param)) (start : option string)
    (kd : FunctionParser.Kind) (k o : string) : Prop :=
  exists pre v post,
    params = pre ++ (k, v) :: post
    /\ FunctionParser.kind v = kd
    /\ has_default self k = false
    /\ last_defaulted self pre start = Some o.

Definition keyword_only (p : string * FunctionParser.Param) : bool :=
  FunctionParser.is_kind (FunctionParser.kind (snd p)) FunctionParser.KEYWORD_ONLY.

(** The literal constant that a union member carries for the tag field:
    defined when the member is a schema class with a field of that name
    whose type has a constant of a common type. *)
Definition tag_const (tag : string) (member : Ty) : option Value :=
  match member with
  | TSchema _ schema_fields =>
      match assoc_lookup schema_fields tag with
      | Some field_type =>
          if is_common_const (SchemaField.get_const field_type)
          then Some (SchemaField.get_const field_type)
          else None
      | None => None
      end
  | _ => None
  end.

(** The representative of a hashable value under Python's [==]. *)
Definition key_class (v : Value) : option Value :=
  match v with
  | VNone => Some VNone
  | VEllipsis => Some VEllipsis
  | VBool b => Some (VInt (Z.b2z b))
  | VInt z => Some (VInt z)
  | VStr s => Some (VStr s)
  | VList _ | VDict _ => None
  end.

(** A base that takes part in the composition. *)
Definition eligible (base : ClassParser.Base) : Prop :=
  ClassParser.is_schema base = true.

(** The options that the bases contribute, in the order the bases are
    processed. *)
Definition contributed_options (processed : list ClassParser.Base) : list Options.t :=
  omap (fun base =>
          if ClassParser.is_schema base
             && negb (Options.vacuum (ClassParser.options (ClassParser.parser base)))
          then Some (ClassParser.options (ClassParser.parser base))
          else None)
       processed.

(** [b] is what the last of the options [option_list] that set the
    case-insensitivity flag set it to. *)
Definition last_setting (option_list : list Options.t) (b : bool) : Prop :=
  exists earlier o later,
    option_list = earlier ++ o :: later
    /\ Options.case_insensitive o = Some b
    /\ forall o', In o' later -> Options.case_insensitive o' = None.

(** [base] is the last of [processed] to define [k] in the map that [proj]
    selects, and defines it as [a]. *)
Definition last_to_define {A} (proj : ClassParser.t -> gmap string A)
    (processed : list ClassParser.Base) (k : string) (a : A) : Prop :=
  exists earlier base later,
    processed = earlier ++ base :: later
    /\ eligible base
    /\ proj (ClassParser.parser base) !! k = Some a
    /\ forall b, In b later -> eligible b -> proj (ClassParser.parser b) !! k = None.

(** The value of the counter [i] at the next [next(generator)] of a
    suspended wrapper. *)
Definition next_index {G} (frame : Generator.Frame G) : nat :=
  match frame with
  | Generator.Created _ => 0
  | Generator.AtYield _ i => S i
  end.

(** The underlying generator of a suspended wrapper. *)
Definition current {G} (frame : Generator.Frame G) : G :=
  match frame with
  | Generator.Created g => g
  | Generator.AtYield g _ => g
  end.

(** The consumer resumes the wrapper with the values [sents], one per
    resumption, and is delivered [items]. *)
Inductive drives {G} (send : G -> Value -> Generator.Step G) (self : FunctionParser.t)
    (fuel : nat)
    : Generator.Frame G -> Runtime.Context -> list Value -> list Value ->
      Generator.Frame G -> Runtime.Context -> Prop :=
| drives_nil frame c : drives send self fuel frame c [] [] frame c
| drives_cons frame c sent item frame' c' sents items frame'' c'' :
    Generator.resume send self fuel frame sent c
    = Runtime.Ok (Some (Generator.Yield item frame')) c' ->
    drives send self fuel frame' c' sents items frame'' c'' ->
    drives send self fuel frame c (sent :: sents) (item :: items) frame'' c''.

(** The context after one more call of the transformer. *)
Definition transformed_once (c : Runtime.Context) (value : Value) (ty : Ty) : Runtime.Context :=
  Runtime.with_transformed c (Runtime.transformed c ++ [(value, ty)]).

(** [c'] is [c] later in the same call: the flags and the transformer are
    the same, and the error buffer has only grown. *)
Definition extends (c c' : Runtime.Context) : Prop :=
  exists es ws ts,
    c' = Runtime.with_transformed
           (Runtime.with_warnings (Runtime.with_errors c (Runtime.errors c ++ es)) ws) ts.

(** A computation that leaves the call's flags alone and drops nothing
    from the error buffer. *)
Definition steady {A} (m : Runtime.M A) : Prop :=
  forall c,
    match m c with
    | Runtime.Ok _ c' => extends c c'
    | Runtime.Raise _ c' => extends c c'
    end.

(** A steady computation that, while the call aggregates its errors,
    raises nothing of its own but the error of an unhashable tag. *)
Definition tame {A} (m : Runtime.M A) : Prop :=
  forall c,
    match m c with
    | Runtime.Ok _ c' => extends c c'
    | Runtime.Raise e c' =>
        extends c c'
        /\ (Runtime.collect_errors c = true -> e = TypeError "unhashable type")
    end.

(** No positional argument of the call is matched to the field. *)
Definition not_given_positionally (self : FunctionParser.t) (args : list Value)
    (f : SchemaField.t) : Prop :=
  forall i g, i < length args ->
              FunctionParser.index_lookup (FunctionParser.positional_fields self) i = Some g ->
              SchemaField.attname g <> SchemaField.attname f.

(** The field is the only one of the parser with its attribute name. *)
Definition own_attname (self : FunctionParser.t) (f : SchemaField.t) : Prop :=
  forall g, In g (FunctionParser.fields self) ->
            SchemaField.attname g = SchemaField.attname f -> g = f.

(** Parameter parsing aborts the call, and when the call aggregates its
    errors the absence of the field is among the errors at that point
    (unless an unhashable tag stopped the parsing before). *)
Definition absence_is_fatal
    (parse_data : FunctionParser.t -> list (string * Value) -> list string ->
                  Runtime.M (list (string * Value)))
    (self : FunctionParser.t) (args : list Value) (kwargs : list (string * Value))
    (c : Runtime.Context) (f : SchemaField.t) : Prop :=
  (exists e c', FunctionParser.parse_params parse_data self args kwargs c = Runtime.Raise e c')
  /\ (Runtime.collect_errors c = true ->
      forall e c',
        FunctionParser.parse_params parse_data self args kwargs c = Runtime.Raise e c' ->
        e = TypeError "unhashable type"
        \/ In (AbsenceError (SchemaField.attname f)) (Runtime.errors c')).

(** ** Further concrete inputs *)

Module Inputs.

(** [Field(required=True, default=1)] *)
Definition required_with_default : Field.Args :=
  {| Field.arg_alias := NoAlias; Field.arg_alias_from := AliasNone;
     Field.arg_case_insensitive := false;
     Field.arg_required := Some (ReqBool true);
     Field.arg_readonly := None; Field.arg_writeonly := None;
     Field.arg_mode := None;
     Field.arg_default := Some (DefaultValue (VInt 1));
     Field.arg_deprecated := DepBool false; Field.arg_discriminator := None;
     Field.arg_no_input := NoBool false; Field.arg_no_output := NoBool false;
     Field.arg_on_error := None; Field.arg_unprovided := None;
     Field.arg_immutable := false; Field.arg_dependencies := None |}.

(** [Field(mode='rw', no_input='r')] *)
Definition rw_no_input_r : Field.Args :=
  {| Field.arg_alias := NoAlias; Field.arg_alias_from := AliasNone;
     Field.arg_case_insensitive := false; Field.arg_required := None;
     Field.arg_readonly := None; Field.arg_writeonly := None;
     Field.arg_mode := Some "rw";
     Field.arg_default := None;
     Field.arg_deprecated := DepBool false; Field.arg_discriminator := None;
     Field.arg_no_input := NoMode "r"; Field.arg_no_output := NoBool false;
     Field.arg_on_error := None; Field.arg_unprovided := None;
     Field.arg_immutable := false; Field.arg_dependencies := None |}.

(** A fresh context for a call in the given mode. *)
Definition at_mode (mode : string) : Runtime.Context :=
  {| Runtime.mode := Some mode; Runtime.ignore_required := false;
     Runtime.no_default := false; Runtime.force_default := None;
     Runtime.invalid_values := THROW; Runtime.invalid_items := THROW;
     Runtime.collect_errors := false; Runtime.transformer := Sample.coerce;
     Runtime.errors := []; Runtime.warnings := []; Runtime.transformed := [] |}.

(** A Field as [Field(deprecated='b')] leaves it. *)
Definition deprecated_for_b : Field.t :=
  {| Field.alias := None; Field.alias_generator := None; Field.alias_from := AliasNone;
     Field.case_insensitive := false; Field.deprecated := true;
     Field.deprecated_to := Some "b"; Field.no_input := NoBool false;
     Field.no_output := NoBool false; Field.immutable := false;
     Field.required := ReqBool false; Field.default := None;
     Field.unprovided_value := None; Field.dependencies := None;
     Field.discriminator := None; Field.on_error := None; Field.mode := None |}.

(** The parser of a function whose only parameter is the variadic
    positional [args: int]. *)
Definition star_args : FunctionParser.t :=
  FunctionParser.make "f"
    [("args", {| FunctionParser.kind := FunctionParser.VAR_POSITIONAL;
                 FunctionParser.default := None;
                 FunctionParser.annotation := Some Sample.int_type |})]
    [] (Some Sample.int_type) None None None None.

(** A fresh context with the given policy for invalid items. *)
Definition items (invalid_items : Policy) (collect_errors : bool) : Runtime.Context :=
  {| Runtime.mode := None; Runtime.ignore_required := false;
     Runtime.no_default := false; Runtime.force_default := None;
     Runtime.invalid_values := THROW; Runtime.invalid_items := invalid_items;
     Runtime.collect_errors := collect_errors; Runtime.transformer := Sample.coerce;
     Runtime.errors := []; Runtime.warnings := []; Runtime.transformed := [] |}.

(** The parser of [def f(_a, _b=1, /)], whose parameter names are not
    taken as field names, so that no field is generated. *)
Definition private_a_b1 : FunctionParser.t :=
  FunctionParser.make "f"
    [("_a", {| FunctionParser.kind := FunctionParser.POSITIONAL_ONLY;
               FunctionParser.default := None; FunctionParser.annotation := None |});
     ("_b", {| FunctionParser.kind := FunctionParser.POSITIONAL_ONLY;
               FunctionParser.default := Some (FunctionParser.PlainDefault (VInt 1));
               FunctionParser.annotation := None |})]
    [] None None None None None.

(** The parser of the method [m] of [class C: def m(self, n: int)], made
    in the context of the class: the receiver is reserved. *)
Definition method_of_C : FunctionParser.t :=
  {| FunctionParser.obj := "C.m"; FunctionParser.from_class := Some "C";
     FunctionParser.instancemethod := true; FunctionParser.classmethod := false;
     FunctionParser.first_reserve := Some true;
     FunctionParser.parameters := [("n", Sample.param FunctionParser.POSITIONAL_OR_KEYWORD None)];
     FunctionParser.fields := [Sample.bare "n"];
     FunctionParser.pos_var := None; FunctionParser.pos_var_index := None;
     FunctionParser.kw_var := None;
     FunctionParser.pos_key_map := [(0, "n")]; FunctionParser.pos_only_keys := [];
     FunctionParser.position_type := None; FunctionParser.return_type := None;
     FunctionParser.generator_yield_type := None;
     FunctionParser.generator_send_type := None;
     FunctionParser.generator_return_type := None |}.

(** An asynchronous generator that yields the given items one after the
    other, whatever it is sent, and then ends. *)
Definition items_asend (g : list Value) (sent : Value) : AsyncGenerator.Step (list Value) :=
  match g with
  | item :: rest => AsyncGenerator.Yields item rest
  | [] => AsyncGenerator.Ends
  end.

(** The asynchronous generator function behind it: it yields its
    positional arguments. *)
Definition yield_args (args : list Value) (kwargs : list (string * Value))
    : Exn + list Value :=
  inr args.

(** [async def f() -> AsyncGenerator[int, int]] *)
Definition int_async_generator : FunctionParser.t :=
  FunctionParser.make "f" [] [] None None (Some Sample.int_type) (Some Sample.int_type) None.

(** The schema field of an attribute [n: int = Field(required=False,
    on_error='exclude')]. *)
Definition optional_excluding : SchemaField.t :=
  Sample.schema_field "n" Sample.int_type
    (Sample.plain_field (ReqBool false) None (Some EXCLUDE)) [].

(** The schema field of a parameter
    [a: int = Field(no_input=True, default=5)]. *)
Definition never_input : SchemaField.t :=
  Sample.schema_field "a" Sample.int_type
    {| Field.alias := None; Field.alias_generator := None; Field.alias_from := AliasNone;
       Field.case_insensitive := false; Field.deprecated := false;
       Field.deprecated_to := None; Field.no_input := NoBool true;
       Field.no_output := NoBool false; Field.immutable := false;
       Field.required := ReqBool false; Field.default := Some (DefaultValue (VInt 5));
       Field.unprovided_value := None; Field.dependencies := None;
       Field.discriminator := None; Field.on_error := None; Field.mode := None |} [].

End Inputs.

(** ** Fields, as the properties speak of them *)

(** The dependencies that the Field of a schema field declares. *)
Definition declared_dependencies (self : SchemaField.t) : list string :=
  match Field.dependencies (SchemaField.field self) with
  | Some l => l
  | None => []
  end.

(** The context that an outcome leaves behind. *)
Definition context_of {A} (o : Runtime.Outcome A) : Runtime.Context :=
  match o with
  | Runtime.Ok _ c => c
  | Runtime.Raise _ c => c
  end.

(** Whether a name is plain ASCII text, on which [lower] is what
    [str.lower()] computes. *)
Definition ascii_only (s : string) : bool :=
  forallb (fun a => (Ascii.nat_of_ascii a <? 128)%nat) (String.list_ascii_of_string s).

(** ** Variadic positional items, as the properties speak of them *)

(** Whether the transformer rejects an item for a type. *)
Definition rejected (c : Runtime.Context) (ty : Ty) (arg : Value) : bool :=
  match Runtime.transformer c arg ty with
  | inl _ => true
  | inr _ => false
  end.

(** What becomes of a variadic positional item under an item policy that
    does not throw: the coerced item, or for an item that the transformer
    rejects the raw item (preserve) or nothing (exclude); the sentinel for
    "no value" is never passed on. *)
Definition variadic_item (c : Runtime.Context) (ty : Ty) (arg : Value) : option Value :=
  let parsed :=
    match Runtime.transformer c arg ty with
    | inr v => v
    | inl _ =>
        match Runtime.invalid_items c with
        | PRESERVE => arg
        | _ => VEllipsis
        end
    end in
  if unprovided parsed then None else Some parsed.

(** ** Signatures, as the properties speak of them *)

(** Whether a parameter carries a default in the signature. *)
Definition param_defaulted (v : FunctionParser.Param) : bool :=
  match FunctionParser.default v with
  | Some _ => true
  | None => false
  end.

(** None of the parameters that the default order is checked on has a
    schema field (as when their names are not valid field names). *)
Definition checked_lack_fields (self : FunctionParser.t)
    (params : list (string * FunctionParser.Param)) : Prop :=
  forall k v, In (k, v) params -> FunctionParser.order_checked v = true ->
              FunctionParser.get_field self k = None.

(** ** Durations, as the properties speak of them *)

(** A decimal digit. *)
Definition is_digit (c : ascii) : bool :=
  match Ascii.is_nat c with Some _ => true | None => false end.

(** A string of decimal digits. *)
Fixpoint all_digits (s : string) : bool :=
  match s with
  | EmptyString => true
  | String c s => is_digit c && all_digits s
  end.

(** The [w] lowest decimal digits of [n], put in front of [acc]. *)
Fixpoint fixed_digits (w : nat) (n : N) (acc : string) : string :=
  match w with
  | O => acc
  | S w => fixed_digits w (n / 10)%N (String (pretty_N_char (n mod 10)%N) acc)
  end.

(** The duration in microseconds. *)
Definition total_microseconds (d : Encode.timedelta) : Z :=
  ((Encode.days d * 86400 + Encode.seconds d) * 1000000 + Encode.microseconds d)%Z.

(** The duration without its sign, as [duration_iso_string] takes it. *)
Definition magnitude (d : Encode.timedelta) : option Encode.timedelta :=
  if Encode.ltb d Encode.zero then Encode.mul d (-1) else Some d.

(** The text for a duration without sign, with the digits laid out. *)
Definition render_duration (negative : bool) (a : Encode.timedelta) : string :=
  (if negative then "-" else "")
  +:+ String "P" (pretty (Encode.days a)
  +:+ String "D" (String "T" (fixed_digits 2 (Z.to_N (Encode.seconds a / 60 / 60)) ""
  +:+ String "H" (fixed_digits 2 (Z.to_N ((Encode.seconds a / 60) mod 60)) ""
  +:+ String "M" (fixed_digits 2 (Z.to_N (Encode.seconds a mod 60)) ""
  +:+ (if (Encode.microseconds a =? 0)%Z then "S"
       else String "." (fixed_digits 6 (Z.to_N (Encode.microseconds a)) "" +:+ "S"))))))).

(** * Properties *)

(** ** Sequencing *)

Lemma bind_Ok {A B} (m : Runtime.M A) (k : A -> Runtime.M B) (c c1 : Runtime.Context) (a : A) :
  m c = Runtime.Ok a c1 -> Runtime.bind m k c = k a c1.
Proof. intros H. unfold Runtime.bind. rewrite H. reflexivity. Qed.

Lemma bind_Raise {A B} (m : Runtime.M A) (k : A -> Runtime.M B) (c c1 : Runtime.Context)
    (e : Exn) :
  m c = Runtime.Raise e c1 -> Runtime.bind m k c = Runtime.Raise e c1.
Proof. intros H. unfold Runtime.bind. rewrite H. reflexivity. Qed.

(** ** Field construction *)

Lemma truthy_flag_true (o : option bool) : truthy_flag o = true <-> o = Some true.
Proof. destruct o as [[|]|]; simpl; split; congruence. Qed.

Lemma not_in_mode_spec (n : NoIO) (mode : option string) :
  (exists s, Field.not_in_mode n mode = Some s) <->
  (exists s, n = NoMode s /\ truthy_str mode = true
             /\ str_contains s (text_of mode) = false).
Proof.
  unfold Field.not_in_mode. split.
  - intros [s Hs]. destruct n as [b|s'|f]; try discriminate.
    destruct (truthy_str mode) eqn:Hm; try discriminate.
    destruct (str_contains s' (text_of mode)) eqn:Hc; try discriminate.
    exists s'. auto.
  - intros (s & -> & Hm & Hc). rewrite Hm, Hc. eauto.
Qed.

(** C7 (as amended): constructing a Field fails exactly when both readonly
    and writeonly are set, or mode is set together with readonly or
    writeonly, or a string-valued no_input or no_output is given while the
    field's mode (after readonly/writeonly are applied) is non-empty and
    does not contain that string as a contiguous substring. *)
Theorem field_init_fails_iff (a : Field.Args) :
  (exists e, Field.init a = inl e) <->
  (truthy_flag (Field.arg_readonly a) = true /\ truthy_flag (Field.arg_writeonly a) = true)
  \/ (truthy_str (Field.arg_mode a) = true
      /\ (truthy_flag (Field.arg_readonly a) = true
          \/ truthy_flag (Field.arg_writeonly a) = true))
  \/ (exists s, Field.arg_no_input a = NoMode s
                /\ truthy_str (Field.resolved_mode a) = true
                /\ str_contains s (text_of (Field.resolved_mode a)) = false)
  \/ (exists s, Field.arg_no_output a = NoMode s
                /\ truthy_str (Field.resolved_mode a) = true
                /\ str_contains s (text_of (Field.resolved_mode a)) = false).
Proof.
  rewrite <- !not_in_mode_spec. unfold Field.init.
  destruct (truthy_str (Field.arg_mode a)) eqn:Hmode;
  destruct (truthy_flag (Field.arg_readonly a)) eqn:Hr;
  destruct (truthy_flag (Field.arg_writeonly a)) eqn:Hw; simpl;
  try (split; [intros _; auto | intros _; eauto]; fail).
  all: destruct (Field.not_in_mode (Field.arg_no_input a) (Field.resolved_mode a)) eqn:Hi;
    [ split; [intros _; right; right; left; eauto | intros _; eauto] | ].
  all: destruct (Field.not_in_mode (Field.arg_no_output a) (Field.resolved_mode a)) eqn:Ho;
    [ split; [intros _; right; right; right; eauto | intros _; eauto] | ].
  all: split; [ intros [e He]; discriminate | ].
  all: intros [[H1 H2] | [[H1 H2] | [[s Hs] | [s Hs]]]]; try discriminate;
    try (destruct H2; discriminate).
Qed.

(** C7 (as stated) fails: with mode 'rw' and no_input 'wr' none of the three
    listed conflicts holds (the tags of 'wr' are a subset of those of 'rw'),
    yet construction raises; and with no mode at all a string no_input that
    is no subset of the (empty) mode is accepted. *)
Lemma field_init_subset_counterexample :
  (Wording.field_conflict Sample.reordered_tags = false
   /\ Field.init Sample.reordered_tags
      = inl (ValueError "Field no_input: 'wr' is not in mode: 'rw'"))
  /\ (Wording.field_conflict Sample.modeless = true
      /\ exists f, Field.init Sample.modeless = inr f).
Proof.
  split; split; try reflexivity. eexists. reflexivity.
Qed.

(** ** Aliases *)

(** C9: the code does not keep the claim.  Evaluated on
    [Field(alias_from=['a'])], [get_alias_from('name', generator)] returns
    the alias set and leaves the Field's stored [alias_from] list one entry
    longer: the generator has been appended to it. A second call appends it
    again. *)
Theorem get_alias_from_appends_to_field :
  exists f : Field.t,
    Field.init Sample.listed_aliases = inr f
    /\ Field.alias_from f = AliasList [AliasValue (VStr "a")]
    /\ let f1 := snd (Field.get_alias_from f "name" (Some Sample.prefixing)) in
       Field.alias_from f1
       = AliasList [AliasValue (VStr "a"); AliasCall Sample.prefixing]
       /\ Field.alias_from f1 <> Field.alias_from f
       /\ Field.alias_from (snd (Field.get_alias_from f1 "name" (Some Sample.prefixing)))
          = AliasList [AliasValue (VStr "a"); AliasCall Sample.prefixing;
                       AliasCall Sample.prefixing].
Proof.
  eexists. split; [reflexivity|]. split; [reflexivity|].
  simpl. split; [reflexivity|]. split; [discriminate|reflexivity].
Qed.

Lemma get_alias_from_list_appends (f : Field.t) (e : AliasEntry) (l : list AliasEntry)
    (attname : string) (g : string -> Value) :
  Field.alias_from f = AliasList (e :: l) ->
  Field.alias_from (snd (Field.get_alias_from f attname (Some g)))
  = AliasList (e :: l ++ [AliasCall g]).
Proof.
  intros H. unfold Field.get_alias_from. rewrite H. reflexivity.
Qed.

Lemma get_alias_from_single_keeps (f : Field.t) (e : AliasEntry)
    (attname : string) (g : option (string -> Value)) :
  Field.alias_from f = AliasOne e ->
  snd (Field.get_alias_from f attname g) = f.
Proof.
  intros H. unfold Field.get_alias_from. rewrite H.
  destruct (Field.alias_from_truthy (AliasOne e)); reflexivity.
Qed.

(** ** Error policy of [parse_value] *)

Lemma escalated_handle_error (error : Exn) (c : Runtime.Context) :
  escalated error c
  = (Runtime.handle_error error false ;;; Runtime.ret VEllipsis) c.
Proof.
  unfold escalated, Runtime.bind, Runtime.handle_error, Runtime.ret. simpl.
  destruct (Runtime.collect_errors c); reflexivity.
Qed.

Lemma parse_value_on_failure (self : SchemaField.t) (value : Value) (c : Runtime.Context)
    (ty : Ty) (e : Exn) :
  SchemaField.select_type self value = inr ty ->
  Runtime.transformer c value ty = inl e ->
  let error := ParseError (ItemName (SchemaField.name self)) (SchemaField.type self) value e in
  let c1 := after_transform self value ty c in
  SchemaField.parse_value self value c =
  match SchemaField.get_on_error self c with
  | EXCLUDE =>
      if SchemaField.is_required self c then escalated error c1
      else Runtime.Ok VEllipsis (warned error c1)
  | PRESERVE => Runtime.Ok value (warned error c1)
  | THROW => escalated error c1
  end.
Proof.
  intros Hty Htr error c1. subst error c1.
  unfold SchemaField.parse_value, after_transform, escalated, warned.
  rewrite Hty.
  unfold Runtime.bind, Runtime.transform, Runtime.ask, Runtime.collect_waring,
    Runtime.handle_error, Runtime.ret, SchemaField.get_on_error, SchemaField.is_required.
  destruct (Field.deprecated (SchemaField.field self)); simpl; rewrite Htr; simpl;
    destruct (Field.on_error (SchemaField.field self)) as [[| |]|]; simpl;
    try destruct (Runtime.invalid_values c); simpl;
    destruct (Runtime.ignore_required c); simpl;
    try destruct (Field.required (SchemaField.field self)); simpl;
    try destruct b; simpl;
    try destruct (truthy_str (Runtime.mode c)); simpl;
    try destruct (str_contains _ _); simpl;
    destruct (Runtime.collect_errors c); reflexivity.
Qed.

(** C1: when the transformer rejects the value, [parse_value] resolves the
    field's error policy: under 'exclude' a currently required field's error
    escalates to fatal through the context, while otherwise the sentinel for
    a missing value is returned and a warning recorded; under 'preserve' the
    raw value is returned and a warning recorded; under 'throw' the error
    escalates to fatal through the context. *)
Theorem parse_value_error_policy (self : SchemaField.t) (value : Value) (c : Runtime.Context)
    (ty : Ty) (e : Exn) :
  SchemaField.select_type self value = inr ty ->
  Runtime.transformer c value ty = inl e ->
  let error := ParseError (ItemName (SchemaField.name self)) (SchemaField.type self) value e in
  let c1 := after_transform self value ty c in
  SchemaField.parse_value self value c =
  match SchemaField.get_on_error self c with
  | EXCLUDE =>
      if SchemaField.is_required self c then escalated error c1
      else Runtime.Ok VEllipsis (warned error c1)
  | PRESERVE => Runtime.Ok value (warned error c1)
  | THROW => escalated error c1
  end.
Proof.
  intros Hty Htr error c1. subst error c1.
  unfold SchemaField.parse_value, after_transform, escalated, warned.
  rewrite Hty.
  unfold Runtime.bind, Runtime.transform, Runtime.ask, Runtime.collect_waring,
    Runtime.handle_error, Runtime.ret, SchemaField.get_on_error, SchemaField.is_required.
  destruct (Field.deprecated (SchemaField.field self)); simpl; rewrite Htr; simpl;
    destruct (Field.on_error (SchemaField.field self)) as [[| |]|]; simpl;
    try destruct (Runtime.invalid_values c); simpl;
    destruct (Runtime.ignore_required c); simpl;
    try destruct (Field.required (SchemaField.field self)); simpl;
    try destruct b; simpl;
    try destruct (truthy_str (Runtime.mode c)); simpl;
    try destruct (str_contains _ _); simpl;
    destruct (Runtime.collect_errors c); reflexivity.
Qed.

Lemma parse_value_error_policy_witness :
  SchemaField.parse_value (Sample.int_field true (Some EXCLUDE)) (VStr "x")
    (Sample.context THROW true)
  = escalated
      (ParseError (ItemName "n") Sample.int_type (VStr "x")
         (CoercionError "invalid literal for int()"))
      (after_transform (Sample.int_field true (Some EXCLUDE)) (VStr "x") Sample.int_type
         (Sample.context THROW true))
  /\ SchemaField.parse_value (Sample.int_field false (Some EXCLUDE)) (VStr "x")
       (Sample.context THROW false)
     = Runtime.Ok VEllipsis
         (warned
            (ParseError (ItemName "n") Sample.int_type (VStr "x")
               (CoercionError "invalid literal for int()"))
            (after_transform (Sample.int_field false (Some EXCLUDE)) (VStr "x")
               Sample.int_type (Sample.context THROW false)))
  /\ SchemaField.parse_value (Sample.int_field true None) (VStr "x")
       (Sample.context PRESERVE false)
     = Runtime.Ok (VStr "x")
         (warned
            (ParseError (ItemName "n") Sample.int_type (VStr "x")
               (CoercionError "invalid literal for int()"))
            (after_transform (Sample.int_field true None) (VStr "x")
               Sample.int_type (Sample.context PRESERVE false)))
  /\ SchemaField.parse_value (Sample.int_field true None) (VStr "x")
       (Sample.context THROW false)
     = Runtime.Raise
         (ParseError (ItemName "n") Sample.int_type (VStr "x")
            (CoercionError "invalid literal for int()"))
         (after_transform (Sample.int_field true None) (VStr "x")
            Sample.int_type (Sample.context THROW false)).
Proof.
  split; [|split; [|split]].
  - exact (parse_value_error_policy (Sample.int_field true (Some EXCLUDE)) (VStr "x")
             (Sample.context THROW true) Sample.int_type _ eq_refl eq_refl).
  - exact (parse_value_error_policy (Sample.int_field false (Some EXCLUDE)) (VStr "x")
             (Sample.context THROW false) Sample.int_type _ eq_refl eq_refl).
  - exact (parse_value_error_policy (Sample.int_field true None) (VStr "x")
             (Sample.context PRESERVE false) Sample.int_type _ eq_refl eq_refl).
  - exact (parse_value_error_policy (Sample.int_field true None) (VStr "x")
             (Sample.context THROW false) Sample.int_type _ eq_refl eq_refl).
Defined.

(** ** Return values *)

Lemma parse_result_outcome (self : FunctionParser.t) (result : Value)
    (c : Runtime.Context) (return_type : Ty) :
  FunctionParser.return_type self = Some return_type ->
  FunctionParser.parse_result self result c =
  match Runtime.transformer c result return_type with
  | inr parsed => Runtime.Ok parsed (transformed_once c result return_type)
  | inl e =>
      Runtime.Raise (ParseError (ItemName "<return>") return_type result e)
        (transformed_once c result return_type)
  end.
Proof.
  intros Hrt. unfold FunctionParser.parse_result. rewrite Hrt.
  unfold Runtime.bind, Runtime.transform, Runtime.handle_error, Runtime.ret. simpl.
  destruct (Runtime.transformer c result return_type); reflexivity.
Qed.

(** C6 (as amended): when result parsing is enabled for a wrapped plain or
    coroutine callable with a declared return type, the value that the
    callable returns is handed to the transformer once, after the call, and
    when that coercion fails the ParseError is raised with force_raise: the
    outcome is the raised error whatever the call's policies for invalid
    values or items are and whether or not the call aggregates its errors. *)
Theorem result_coerced_once_and_fatal
    (parse_data : FunctionParser.t -> list (string * Value) -> list string ->
                  Runtime.M (list (string * Value)))
    (pop : list (string * Value) -> string -> Value * list (string * Value))
    (class_of : Value -> Value) (isinstance : Value -> string -> bool)
    (func : list Value -> list (string * Value) -> Exn + Value)
    (self : FunctionParser.t) (args : list Value) (kwargs : list (string * Value))
    (first_reserve parse_params parse_result : option bool)
    (c c1 : Runtime.Context) (params : list Value * list (string * Value))
    (result : Value) (return_type : Ty) :
  FunctionParser.return_type self = Some return_type ->
  truthy_flag parse_result = true ->
  FunctionParser.get_params parse_data pop class_of isinstance self args kwargs
    first_reserve parse_params c = Runtime.Ok params c1 ->
  func (fst params) (snd params) = inr result ->
  let outcome :=
    match Runtime.transformer c1 result return_type with
    | inr parsed => Runtime.Ok parsed (transformed_once c1 result return_type)
    | inl e =>
        Runtime.Raise (ParseError (ItemName "<return>") return_type result e)
          (transformed_once c1 result return_type)
    end in
  FunctionParser.sync_call parse_data pop class_of isinstance func self args kwargs
    first_reserve parse_params parse_result c = outcome
  /\ FunctionParser.async_call parse_data pop class_of isinstance func self args kwargs
       first_reserve parse_params parse_result c = outcome
  /\ Runtime.transformed (transformed_once c1 result return_type)
     = Runtime.transformed c1 ++ [(result, return_type)]
  /\ Runtime.warnings (transformed_once c1 result return_type) = Runtime.warnings c1
  /\ Runtime.errors (transformed_once c1 result return_type) = Runtime.errors c1.
Proof.
  intros Hrt Hflag Hparams Hfunc outcome. subst outcome.
  unfold FunctionParser.sync_call, FunctionParser.async_call.
  rewrite !(bind_Ok _ _ _ _ _ Hparams), Hfunc, Hflag.
  rewrite (parse_result_outcome self result c1 return_type Hrt).
  repeat split.
Qed.

Lemma result_coerced_once_and_fatal_witness :
  FunctionParser.sync_call FunctionParser.parse_data Sample.pop Sample.no_class Sample.any_instance
    Sample.echo Sample.int_to_int [VStr "x"] [] None None (Some true)
    (Sample.context EXCLUDE true)
  = Runtime.Raise
      (ParseError (ItemName "<return>") Sample.int_type (VStr "x")
         (CoercionError "invalid literal for int()"))
      (transformed_once (Sample.context EXCLUDE true) (VStr "x") Sample.int_type).
Proof.
  exact (proj1 (result_coerced_once_and_fatal FunctionParser.parse_data Sample.pop Sample.no_class
                  Sample.any_instance Sample.echo Sample.int_to_int [VStr "x"] [] None None
                  (Some true) (Sample.context EXCLUDE true) (Sample.context EXCLUDE true)
                  ([VStr "x"], []) (VStr "x") Sample.int_type
                  eq_refl eq_refl eq_refl eq_refl)).
Defined.

(** C6 (as stated) fails: a wrapper for which result parsing is not
    enabled (the default of [wrap], and what the generated constructor
    asks for) returns what the callable returned, here a string that the
    declared return type [int] rejects, without calling the transformer. *)
Lemma result_not_parsed_counterexample :
  FunctionParser.return_type Sample.int_to_int = Some Sample.int_type
  /\ Sample.coerce (VStr "x") Sample.int_type
     = inl (CoercionError "invalid literal for int()")
  /\ FunctionParser.sync_call FunctionParser.parse_data Sample.pop Sample.no_class Sample.any_instance
       Sample.echo Sample.int_to_int [VStr "x"] [] None None None
       (Sample.context THROW false)
     = Runtime.Ok (VStr "x") (Sample.context THROW false)
  /\ FunctionParser.async_call FunctionParser.parse_data Sample.pop Sample.no_class Sample.any_instance
       Sample.echo Sample.int_to_int [VStr "x"] [] None None (Some false)
       (Sample.context THROW false)
     = Runtime.Ok (VStr "x") (Sample.context THROW false).
Proof.
  split; [reflexivity|]. split; [reflexivity|]. split; reflexivity.
Qed.

(** ** Requiredness under [ignore_required] *)

(** C10: when the per-call options set ignore_required, [is_required] is
    false whatever the field declares; then an invalid value is excluded
    under the 'exclude' policy (sentinel returned, warning recorded, nothing
    escalated), and a positional-only field that was not supplied records no
    absence error: its default is used, or it is left out. *)
Theorem ignore_required_overrides (self : SchemaField.t) (c : Runtime.Context) :
  Runtime.ignore_required c = true ->
  SchemaField.is_required self c = false
  /\ (forall value ty e,
        SchemaField.select_type self value = inr ty ->
        Runtime.transformer c value ty = inl e ->
        SchemaField.get_on_error self c = EXCLUDE ->
        SchemaField.parse_value self value c
        = Runtime.Ok VEllipsis
            (warned (ParseError (ItemName (SchemaField.name self))
                       (SchemaField.type self) value e)
                    (after_transform self value ty c)))
  /\ (forall index rest parsed_args parsed_keys,
        FunctionParser.key_in (SchemaField.attname self) parsed_keys = false ->
        FunctionParser.fill_positional_only ((index, self) :: rest) parsed_args parsed_keys c
        = if negb (unprovided (SchemaField.get_default self c))
          then FunctionParser.fill_positional_only rest
                 (parsed_args ++ [SchemaField.get_default self c])
                 (parsed_keys ++ [SchemaField.attname self]) c
          else FunctionParser.fill_positional_only rest parsed_args parsed_keys c).
Proof.
  intros Hig.
  assert (Hreq : SchemaField.is_required self c = false).
  { unfold SchemaField.is_required. rewrite Hig. reflexivity. }
  split; [exact Hreq|]. split.
  - intros value ty e Hty Htr Hpol.
    rewrite (parse_value_on_failure self value c ty e Hty Htr).
    rewrite Hpol, Hreq. reflexivity.
  - intros index rest parsed_args parsed_keys Hkey.
    simpl. rewrite Hkey. unfold Runtime.bind, Runtime.ask. rewrite Hreq.
    destruct (negb (unprovided (SchemaField.get_default self c))); reflexivity.
Qed.

Lemma ignore_required_overrides_witness :
  SchemaField.is_required (Sample.int_field true None)
    (Sample.ignoring_required (Sample.context EXCLUDE true)) = false
  /\ SchemaField.is_required (Sample.int_field true None) (Sample.context EXCLUDE true) = true.
Proof.
  split.
  - exact (proj1 (ignore_required_overrides (Sample.int_field true None)
                    (Sample.ignoring_required (Sample.context EXCLUDE true)) eq_refl)).
  - reflexivity.
Defined.

(** ** Default order of a signature *)

Section DefaultOrder.

Variable self : FunctionParser.t.

Lemma order_required_field (k : string) (v : FunctionParser.Param) :
  is_Some (FunctionParser.get_field self k) ->
  FunctionParser.order_required self k v = negb (has_default self k).
Proof.
  intros [f Hf]. unfold FunctionParser.order_required, has_default. rewrite Hf.
  destruct (Field.no_default (SchemaField.field f)); reflexivity.
Qed.

Lemma checked_have_fields_cons p params :
  checked_have_fields self (p :: params) -> checked_have_fields self params.
Proof. intros H k v Hin. apply H. right. exact Hin. Qed.

Lemma is_kind_eq (a b : FunctionParser.Kind) :
  FunctionParser.is_kind a b = true <-> a = b.
Proof. destruct a, b; simpl; split; congruence. Qed.

Lemma checked_kind (v : FunctionParser.Param) :
  FunctionParser.order_checked v = true ->
  FunctionParser.is_kind (FunctionParser.kind v) FunctionParser.POSITIONAL_ONLY = false ->
  FunctionParser.kind v = FunctionParser.POSITIONAL_OR_KEYWORD.
Proof.
  unfold FunctionParser.order_checked. destruct (FunctionParser.kind v); simpl; congruence.
Qed.

Lemma kind_checked (v : FunctionParser.Param) :
  FunctionParser.kind v = FunctionParser.POSITIONAL_ONLY
  \/ FunctionParser.kind v = FunctionParser.POSITIONAL_OR_KEYWORD ->
  FunctionParser.order_checked v = true.
Proof. unfold FunctionParser.order_checked. intros [-> | ->]; reflexivity. Qed.

(** The five ways one round of the loop can go. *)
Ltac round k v opt :=
  simpl FunctionParser.validate_order;
  destruct (FunctionParser.order_checked v) eqn:Hck; simpl negb; cbv iota;
  [ destruct (FunctionParser.order_required self k v) eqn:Hrq;
    [ destruct opt as [o0|];
      [ destruct (FunctionParser.is_kind (FunctionParser.kind v)
                    FunctionParser.POSITIONAL_ONLY) eqn:Hk | ] | ] | ].

Lemma validate_order_keeps_warnings params opt w0 w :
  In w w0 -> In w (fst (FunctionParser.validate_order self params opt w0)).
Proof.
  revert opt w0. induction params as [|[k v] rest IH]; intros opt w0 Hin; [exact Hin|].
  round k v opt; auto.
  apply IH. apply in_or_app. left. exact Hin.
Qed.

Lemma round_default k v params :
  checked_have_fields self ((k, v) :: params) ->
  FunctionParser.order_checked v = true ->
  FunctionParser.order_required self k v = negb (has_default self k).
Proof.
  intros H Hc. apply order_required_field. apply (H k v); [left; reflexivity|exact Hc].
Qed.

(** After [round]: what the flag of the round says about the default. *)
Ltac default_of H Hck Hrq :=
  let Hx := fresh "Hx" in
  pose proof (round_default _ _ _ H Hck) as Hx; rewrite Hrq in Hx;
  match type of Hx with
  | _ = negb ?d => destruct d eqn:Hf; simpl in Hx; try discriminate Hx; clear Hx
  end.

Lemma validate_order_raises params opt w0 e :
  checked_have_fields self params ->
  snd (FunctionParser.validate_order self params opt w0) = Some e ->
  exists k o, out_of_order self params opt FunctionParser.POSITIONAL_ONLY k o
              /\ e = SyntaxError (FunctionParser.order_message self k o).
Proof.
  revert opt w0. induction params as [|[k v] rest IH]; intros opt w0 H He; [discriminate|].
  pose proof (checked_have_fields_cons _ _ H) as Hrest.
  revert He. round k v opt; intros He; try default_of H Hck Hrq.
  - (* raises here *)
    injection He as <-. exists k, o0. split; [|reflexivity].
    exists [], v, rest. apply is_kind_eq in Hk. auto.
  - destruct (IH _ _ Hrest He) as (k' & o & (pre & v' & post & -> & Hkd & Hd & Hl) & ->).
    exists k', o. split; [|reflexivity]. exists ((k, v) :: pre), v', post.
    simpl. rewrite Hf, andb_false_r. auto.
  - destruct (IH _ _ Hrest He) as (k' & o & (pre & v' & post & -> & Hkd & Hd & Hl) & ->).
    exists k', o. split; [|reflexivity]. exists ((k, v) :: pre), v', post.
    simpl. rewrite Hf, andb_false_r. auto.
  - destruct (IH _ _ Hrest He) as (k' & o & (pre & v' & post & -> & Hkd & Hd & Hl) & ->).
    exists k', o. split; [|reflexivity]. exists ((k, v) :: pre), v', post.
    simpl. rewrite Hck, Hf. auto.
  - destruct (IH _ _ Hrest He) as (k' & o & (pre & v' & post & -> & Hkd & Hd & Hl) & ->).
    exists k', o. split; [|reflexivity]. exists ((k, v) :: pre), v', post.
    simpl. rewrite Hck. auto.
Qed.

Lemma validate_order_must_raise params opt w0 k o :
  checked_have_fields self params ->
  out_of_order self params opt FunctionParser.POSITIONAL_ONLY k o ->
  exists e, snd (FunctionParser.validate_order self params opt w0) = Some e.
Proof.
  intros H (pre & v & post & -> & Hkd & Hd & Hl).
  revert opt w0 H Hl. induction pre as [|[k1 v1] pre IH]; intros opt w0 H Hl.
  - simpl in Hl. subst opt.
    assert (Hc : FunctionParser.order_checked v = true) by (apply kind_checked; auto).
    simpl. rewrite Hc. simpl.
    rewrite (round_default _ _ _ H Hc).
    rewrite Hd. simpl. rewrite Hkd. simpl. eauto.
  - pose proof (checked_have_fields_cons _ _ H) as Hrest.
    simpl in Hl. simpl app.
    round k1 v1 opt; eauto; try default_of H Hck Hrq.
    all: apply IH; [exact Hrest|]; simpl in Hl; exact Hl.
Qed.

Lemma validate_order_warning_sound params opt w0 w :
  checked_have_fields self params ->
  In w (fst (FunctionParser.validate_order self params opt w0)) ->
  In w w0
  \/ exists k o, out_of_order self params opt FunctionParser.POSITIONAL_OR_KEYWORD k o
                 /\ w = FunctionParser.order_message self k o.
Proof.
  revert opt w0. induction params as [|[k v] rest IH]; intros opt w0 H Hin; [left; exact Hin|].
  pose proof (checked_have_fields_cons _ _ H) as Hrest.
  assert (Hext : forall opt' w0',
            last_defaulted self [(k, v)] opt = opt' ->
            (In w w0' -> In w w0 \/ (w = FunctionParser.order_message self k (text_of opt)
                                      /\ FunctionParser.kind v = FunctionParser.POSITIONAL_OR_KEYWORD
                                      /\ has_default self k = false /\ is_Some opt)) ->
            In w (fst (FunctionParser.validate_order self rest opt' w0')) ->
            In w w0
            \/ exists k' o, out_of_order self ((k, v) :: rest) opt
                              FunctionParser.POSITIONAL_OR_KEYWORD k' o
                            /\ w = FunctionParser.order_message self k' o).
  { intros opt' w0' Hopt Hw0 Hin'.
    destruct (IH _ _ Hrest Hin') as [Hold | (k' & o & (pre & v' & post & -> & Hkd & Hd & Hl) & ->)].
    - destruct (Hw0 Hold) as [? | (-> & Hkd & Hd & [o Ho])]; [left; assumption|].
      right. exists k, o. subst opt. split; [|reflexivity].
      exists [], v, rest. auto.
    - right. exists k', o. split; [|reflexivity].
      exists ((k, v) :: pre), v', post. simpl in Hopt. simpl. rewrite Hopt. auto. }
  revert Hin. round k v opt; intros Hin; try default_of H Hck Hrq; simpl in Hin.
  - left. exact Hin.
  - apply (Hext (Some o0) (w0 ++ [FunctionParser.order_message self k o0])); auto.
    + simpl. rewrite Hf, andb_false_r. reflexivity.
    + intros Hw. apply in_app_or in Hw. destruct Hw as [Hw | [<- | []]]; [left; exact Hw|].
      right. simpl. split; [reflexivity|]. split; [apply checked_kind; assumption|].
      split; [reflexivity | eauto].
  - apply (Hext None w0); auto. simpl. rewrite Hf, andb_false_r. reflexivity.
  - apply (Hext (Some k) w0); auto. simpl. rewrite Hck, Hf. reflexivity.
  - apply (Hext opt w0); auto. simpl. rewrite Hck. reflexivity.
Qed.

Lemma validate_order_warning_complete params opt w0 k o :
  checked_have_fields self params ->
  snd (FunctionParser.validate_order self params opt w0) = None ->
  out_of_order self params opt FunctionParser.POSITIONAL_OR_KEYWORD k o ->
  In (FunctionParser.order_message self k o)
     (fst (FunctionParser.validate_order self params opt w0)).
Proof.
  intros H Hnone (pre & v & post & -> & Hkd & Hd & Hl).
  revert opt w0 H Hnone Hl. induction pre as [|[k1 v1] pre IH]; intros opt w0 H Hnone Hl.
  - simpl in Hl. subst opt.
    assert (Hc : FunctionParser.order_checked v = true) by (apply kind_checked; auto).
    simpl. rewrite Hc. simpl.
    rewrite (round_default _ _ _ H Hc).
    rewrite Hd. simpl. rewrite Hkd. simpl.
    apply validate_order_keeps_warnings. apply in_or_app. right. left. reflexivity.
  - pose proof (checked_have_fields_cons _ _ H) as Hrest.
    simpl in Hl. simpl app in *.
    revert Hnone. round k1 v1 opt; intros Hnone; try discriminate Hnone;
      try default_of H Hck Hrq.
    all: apply IH; [exact Hrest|exact Hnone|]; simpl in Hl; exact Hl.
Qed.

Lemma validate_order_ignores_keyword_only params opt w0 :
  FunctionParser.validate_order self
    (List.filter (fun p => negb (keyword_only p)) params) opt w0
  = FunctionParser.validate_order self params opt w0.
Proof.
  revert opt w0. induction params as [|[k v] rest IH]; intros opt w0; [reflexivity|].
  simpl List.filter. unfold keyword_only at 1. simpl snd.
  destruct (FunctionParser.kind v) eqn:Hkind; simpl;
    unfold FunctionParser.order_checked; rewrite ?Hkind; simpl;
    try apply IH.
  all: destruct (FunctionParser.order_required self k v); try apply IH.
  all: destruct opt; simpl; try apply IH; reflexivity.
Qed.

End DefaultOrder.

(** C2 (as amended): in a signature whose non-keyword-only, non-variadic
    parameters all have a schema field, once such a parameter has a default,
    every later one must have a default too.  A positional-only parameter
    that breaks the order raises a SyntaxError at decoration time, and
    nothing else does; a positional-or-keyword parameter that breaks it only
    has a warning emitted, and nothing else is warned about; keyword-only
    parameters are not checked at all, so that leaving them out changes
    neither the warnings nor the error. *)
Theorem default_order_rule (self : FunctionParser.t) :
  checked_have_fields self (FunctionParser.parameters self) ->
  (forall e, snd (FunctionParser.validate_fields self) = Some e ->
     exists k o, out_of_order self (FunctionParser.parameters self) None
                   FunctionParser.POSITIONAL_ONLY k o
                 /\ e = SyntaxError (FunctionParser.order_message self k o))
  /\ (forall k o, out_of_order self (FunctionParser.parameters self) None
                    FunctionParser.POSITIONAL_ONLY k o ->
       exists e, snd (FunctionParser.validate_fields self) = Some e)
  /\ (forall w, In w (fst (FunctionParser.validate_fields self)) ->
       exists k o, out_of_order self (FunctionParser.parameters self) None
                     FunctionParser.POSITIONAL_OR_KEYWORD k o
                   /\ w = FunctionParser.order_message self k o)
  /\ (snd (FunctionParser.validate_fields self) = None ->
       forall k o, out_of_order self (FunctionParser.parameters self) None
                     FunctionParser.POSITIONAL_OR_KEYWORD k o ->
       In (FunctionParser.order_message self k o) (fst (FunctionParser.validate_fields self)))
  /\ FunctionParser.validate_order self
       (List.filter (fun p => negb (keyword_only p)) (FunctionParser.parameters self)) None []
     = FunctionParser.validate_fields self.
Proof.
  intros H. unfold FunctionParser.validate_fields. repeat split.
  - intros e He. eapply validate_order_raises; eassumption.
  - intros k o Ho. eapply validate_order_must_raise; eassumption.
  - intros w Hw. destruct (validate_order_warning_sound self _ _ _ _ H Hw) as [[]|Hx].
    exact Hx.
  - intros Hnone k o Ho. apply validate_order_warning_complete; assumption.
  - apply validate_order_ignores_keyword_only.
Qed.

Lemma sample_checked_have_fields :
  checked_have_fields Sample.a_b1_c_positional
    (FunctionParser.parameters Sample.a_b1_c_positional).
Proof.
  intros k v Hin _. simpl in Hin.
  destruct Hin as [H | [H | [H | []]]]; injection H as <- <-; eexists; reflexivity.
Defined.

Lemma sample_out_of_order :
  out_of_order Sample.a_b1_c_positional
    (FunctionParser.parameters Sample.a_b1_c_positional) None
    FunctionParser.POSITIONAL_ONLY "c" "b".
Proof.
  exists [("a", Sample.param FunctionParser.POSITIONAL_ONLY None);
          ("b", Sample.param FunctionParser.POSITIONAL_ONLY
                  (Some (FunctionParser.PlainDefault (VInt 1))))].
  eexists. exists []. repeat split.
Defined.

Lemma default_order_rule_witness :
  exists e, snd (FunctionParser.validate_fields Sample.a_b1_c_positional) = Some e.
Proof.
  exact (proj1 (proj2 (default_order_rule Sample.a_b1_c_positional
                         sample_checked_have_fields))
           "c" "b" sample_out_of_order).
Defined.

(** C2 (as stated) fails: in [(a, b=1, *, c)] the keyword-only [c] has no
    default and follows the defaulted [b], yet nothing is warned about and
    nothing raised; and in [(a=Field(required=False), b=Field(), /)] the
    positional-only [b] has no default and follows the schema-optional [a],
    yet nothing is raised. *)
Lemma default_order_counterexample :
  (out_of_order Sample.a_b1_star_c (FunctionParser.parameters Sample.a_b1_star_c) None
     FunctionParser.KEYWORD_ONLY "c" "b"
   /\ FunctionParser.validate_fields Sample.a_b1_star_c = ([], None))
  /\ (Field.required (SchemaField.field (Sample.schema_optional "a")) = ReqBool false
      /\ Field.required (SchemaField.field (Sample.bare "b")) = ReqBool true
      /\ has_default Sample.optional_then_required "b" = false
      /\ FunctionParser.validate_fields Sample.optional_then_required = ([], None)).
Proof.
  split; [split|repeat split].
  exists [("a", Sample.param FunctionParser.POSITIONAL_OR_KEYWORD None);
          ("b", Sample.param FunctionParser.POSITIONAL_OR_KEYWORD
                  (Some (FunctionParser.PlainDefault (VInt 1))))].
  eexists. exists []. repeat split.
  reflexivity.
Qed.

(** ** Discriminated unions *)

Lemma py_key_eqb_class (a b : Value) :
  py_key_eqb a b = true <-> exists n, key_class a = Some n /\ key_class b = Some n.
Proof.
  destruct a, b; simpl; split;
    try (intros H; discriminate H);
    try (intros (n & H1 & H2); congruence);
    try (intros _; eexists; split; reflexivity).
  all: try (intros H; apply Z.eqb_eq in H; subst; eexists; split; reflexivity).
  all: try (intros (n & H1 & H2); apply Z.eqb_eq; congruence).
  - intros H. apply Bool.eqb_prop in H. subst. eexists; split; reflexivity.
  - intros (n & H1 & H2). destruct b, b0; simpl in *; congruence.
  - intros H. apply String.eqb_eq in H. subst. eexists; split; reflexivity.
  - intros (n & H1 & H2). apply String.eqb_eq. congruence.
Qed.

Lemma py_key_eqb_euclid (a b t : Value) :
  py_key_eqb a t = true -> py_key_eqb b t = true -> py_key_eqb a b = true.
Proof.
  rewrite !py_key_eqb_class. intros (n & Ha & Ht) (n' & Hb & Ht').
  exists n. split; congruence.
Qed.

Lemma const_lookup_app {A} (m1 m2 : list (Value * A)) (key : Value) :
  const_lookup (m1 ++ m2) key
  = match const_lookup m1 key with
    | Some a => Some a
    | None => const_lookup m2 key
    end.
Proof.
  induction m1 as [|[k a] m1 IH]; simpl; [reflexivity|].
  destruct (py_key_eqb k key); [reflexivity|exact IH].
Qed.

Section Discriminate.

Variables attname tag : string.

Lemma discriminate_step (member : Ty) (rest : list Ty) (m0 m : list (Value * Ty)) :
  SchemaField.discriminate attname tag (member :: rest) m0 = inr m ->
  exists c, tag_const tag member = Some c
            /\ const_lookup m0 c = None
            /\ SchemaField.discriminate attname tag rest (m0 ++ [(c, member)]) = inr m.
Proof.
  simpl. unfold tag_const.
  destruct member as [n|n c|n fs|n c]; try discriminate.
  destruct (assoc_lookup fs tag) as [fty|]; try discriminate.
  destruct (is_common_const (SchemaField.get_const fty)); simpl; try discriminate.
  destruct (const_lookup m0 (SchemaField.get_const fty)) eqn:Hl; try discriminate.
  intros H. eexists. split; [reflexivity|]. split; assumption.
Qed.

Lemma discriminate_keeps (args : list Ty) (m0 m : list (Value * Ty)) (t : Value) (a : Ty) :
  SchemaField.discriminate attname tag args m0 = inr m ->
  const_lookup m0 t = Some a -> const_lookup m t = Some a.
Proof.
  revert m0. induction args as [|member rest IH]; intros m0 H Hl.
  - simpl in H. injection H as <-. exact Hl.
  - destruct (discriminate_step _ _ _ _ H) as (c & Hc & Hn & Hrest).
    apply (IH _ Hrest). rewrite const_lookup_app, Hl. reflexivity.
Qed.

Lemma discriminate_fresh (args : list Ty) (m0 m : list (Value * Ty)) (member : Ty) (c : Value) :
  SchemaField.discriminate attname tag args m0 = inr m ->
  In member args -> tag_const tag member = Some c ->
  const_lookup m0 c = None.
Proof.
  revert m0. induction args as [|head rest IH]; intros m0 H Hin Hc; [destruct Hin|].
  destruct (discriminate_step _ _ _ _ H) as (c0 & Hc0 & Hn & Hrest).
  destruct Hin as [-> | Hin].
  - congruence.
  - pose proof (IH _ Hrest Hin Hc) as Hx. rewrite const_lookup_app in Hx.
    destruct (const_lookup m0 c); [discriminate|reflexivity].
Qed.

Lemma discriminate_selects (args : list Ty) (m0 m : list (Value * Ty))
    (member : Ty) (c t : Value) :
  SchemaField.discriminate attname tag args m0 = inr m ->
  In member args -> tag_const tag member = Some c ->
  py_key_eqb c t = true ->
  const_lookup m0 t = None ->
  const_lookup m t = Some member.
Proof.
  revert m0. induction args as [|head rest IH]; intros m0 H Hin Hc Ht Hn; [destruct Hin|].
  destruct (discriminate_step _ _ _ _ H) as (c0 & Hc0 & Hn0 & Hrest).
  destruct Hin as [-> | Hin].
  - assert (c0 = c) by congruence. subst c0.
    apply (discriminate_keeps _ _ _ _ _ Hrest).
    rewrite const_lookup_app, Hn. simpl. rewrite Ht. reflexivity.
  - apply (IH _ Hrest Hin Hc Ht).
    rewrite const_lookup_app, Hn. simpl.
    destruct (py_key_eqb c0 t) eqn:H0; [|reflexivity].
    pose proof (discriminate_fresh _ _ _ _ _ Hrest Hin Hc) as Hf.
    rewrite const_lookup_app in Hf.
    destruct (const_lookup m0 c); [discriminate|]. simpl in Hf.
    rewrite (py_key_eqb_euclid c0 c t H0 Ht) in Hf. discriminate.
Qed.

Lemma discriminate_misses (args : list Ty) (m0 m : list (Value * Ty)) (t : Value) :
  SchemaField.discriminate attname tag args m0 = inr m ->
  (forall member c, In member args -> tag_const tag member = Some c ->
                    py_key_eqb c t = false) ->
  const_lookup m0 t = None ->
  const_lookup m t = None.
Proof.
  revert m0. induction args as [|head rest IH]; intros m0 H Hall Hn.
  - simpl in H. injection H as <-. exact Hn.
  - destruct (discriminate_step _ _ _ _ H) as (c0 & Hc0 & Hn0 & Hrest).
    apply (IH _ Hrest).
    + intros member c Hin. apply Hall. right. exact Hin.
    + rewrite const_lookup_app, Hn. simpl.
      rewrite (Hall head c0 (or_introl eq_refl) Hc0). reflexivity.
Qed.

Lemma discriminate_members (args : list Ty) (m0 m : list (Value * Ty)) :
  SchemaField.discriminate attname tag args m0 = inr m ->
  forall member, In member args -> exists c, tag_const tag member = Some c.
Proof.
  revert m0. induction args as [|head rest IH]; intros m0 H member Hin; [destruct Hin|].
  destruct (discriminate_step _ _ _ _ H) as (c0 & Hc0 & Hn0 & Hrest).
  destruct Hin as [-> | Hin]; [eauto|]. eapply IH; eassumption.
Qed.

Lemma discriminate_distinct (args : list Ty) (m0 m : list (Value * Ty)) :
  SchemaField.discriminate attname tag args m0 = inr m ->
  forall pre a mid b post ca cb,
    args = pre ++ a :: mid ++ b :: post ->
    tag_const tag a = Some ca -> tag_const tag b = Some cb ->
    py_key_eqb ca cb = false.
Proof.
  revert m0. induction args as [|head rest IH]; intros m0 H pre a mid b post ca cb Heq Ha Hb.
  - destruct pre; discriminate.
  - destruct (discriminate_step _ _ _ _ H) as (c0 & Hc0 & Hn0 & Hrest).
    destruct pre as [|p pre]; simpl in Heq; injection Heq as -> ->.
    + assert (c0 = ca) by congruence. subst c0.
      assert (Hin : In b (mid ++ b :: post)) by (apply in_or_app; right; left; reflexivity).
      pose proof (discriminate_fresh _ _ _ _ _ Hrest Hin Hb) as Hf.
      rewrite const_lookup_app in Hf.
      destruct (const_lookup m0 cb); [discriminate|]. simpl in Hf.
      destruct (py_key_eqb ca cb); [discriminate|reflexivity].
    + eapply IH; [exact Hrest|reflexivity|eassumption|eassumption].
Qed.

End Discriminate.

Lemma parse_value_on_success (self : SchemaField.t) (value : Value) (c : Runtime.Context)
    (ty : Ty) (parsed : Value) :
  SchemaField.select_type self value = inr ty ->
  Runtime.transformer c value ty = inr parsed ->
  SchemaField.parse_value self value c
  = Runtime.Ok parsed (after_transform self value ty c).
Proof.
  intros Hty Htr. unfold SchemaField.parse_value, after_transform. rewrite Hty.
  unfold Runtime.bind, Runtime.transform, Runtime.collect_waring, Runtime.ret.
  destruct (Field.deprecated (SchemaField.field self)); simpl; rewrite Htr; reflexivity.
Qed.

Lemma init_discriminator_map name ty field attname aliases out options final self :
  SchemaField.init name ty field attname aliases out options final = inr self ->
  SchemaField.type self = ty
  /\ SchemaField.field self = field
  /\ SchemaField.validate_annotation attname ty field
     = inr (SchemaField.discriminator_map self).
Proof.
  unfold SchemaField.init.
  destruct (SchemaField.validate_annotation attname ty field) as [e|m]; [discriminate|].
  intros H. injection H as <-. simpl. auto.
Qed.

(** C4 (as amended): for a SchemaField declared with a discriminator, the
    declaration succeeds only if the annotated type is an any-of/one-of
    combination whose members are all schemas that carry a literal constant
    of a common type for the tag field, no two of them the same; parsing a
    dict whose tag entry equals a member's constant hands the input to the
    transformer with that member as the rule; a dict whose (hashable) tag
    entry equals no member's constant is handed over with the declared type,
    and when that coercion fails the resulting ParseError is resolved by the
    field's error policy: escalated under 'throw' (and under 'exclude' on a
    required field), otherwise recorded as a warning. *)
Theorem discriminator_resolution (name attname tag : string) (ty out : Ty)
    (field : Field.t) (aliases : gset string) (options : option Options.t)
    (final : bool) (self : SchemaField.t) :
  Field.discriminator field = Some tag -> tag <> "" ->
  SchemaField.init name ty field attname aliases out options final = inr self ->
  exists uname combinator members,
    ty = TLogical uname (Some (combinator, members))
    /\ (combinator = "|" \/ combinator = "^")
    /\ (forall member, In member members -> exists c, tag_const tag member = Some c)
    /\ (forall pre a mid b post ca cb,
          members = pre ++ a :: mid ++ b :: post ->
          tag_const tag a = Some ca -> tag_const tag b = Some cb ->
          py_key_eqb ca cb = false)
    /\ (forall d member const,
          In member members -> tag_const tag member = Some const ->
          py_key_eqb const (dict_get d tag) = true ->
          SchemaField.select_type self (VDict d) = inr member
          /\ forall c parsed,
               Runtime.transformer c (VDict d) member = inr parsed ->
               SchemaField.parse_value self (VDict d) c
               = Runtime.Ok parsed (after_transform self (VDict d) member c))
    /\ (forall d,
          hashable (dict_get d tag) = true ->
          (forall member const,
             In member members -> tag_const tag member = Some const ->
             py_key_eqb const (dict_get d tag) = false) ->
          SchemaField.select_type self (VDict d) = inr ty
          /\ forall c e,
               Runtime.transformer c (VDict d) ty = inl e ->
               SchemaField.parse_value self (VDict d) c
               = let error := ParseError (ItemName (SchemaField.name self)) ty (VDict d) e in
                 let c1 := after_transform self (VDict d) ty c in
                 match SchemaField.get_on_error self c with
                 | EXCLUDE =>
                     if SchemaField.is_required self c then escalated error c1
                     else Runtime.Ok VEllipsis (warned error c1)
                 | PRESERVE => Runtime.Ok (VDict d) (warned error c1)
                 | THROW => escalated error c1
                 end).
Proof.
  intros Hdisc Htag Hinit.
  destruct (init_discriminator_map _ _ _ _ _ _ _ _ _ Hinit) as (Hty & Hfield & Hmap).
  unfold SchemaField.validate_annotation in Hmap. rewrite Hdisc in Hmap.
  assert (Htruthy : truthy_str (Some tag) = true).
  { simpl. destruct (String.eqb_spec tag ""); [contradiction|reflexivity]. }
  rewrite Htruthy in Hmap. simpl text_of in Hmap.
  destruct ty as [n|n c|n fs|uname [[combinator members]|]]; try discriminate.
  destruct (String.eqb combinator "|" || String.eqb combinator "^") eqn:Hcomb;
    [|discriminate].
  exists uname, combinator, members. split; [reflexivity|]. split.
  { apply orb_true_iff in Hcomb. destruct Hcomb as [H|H]; apply String.eqb_eq in H; auto. }
  split; [exact (discriminate_members _ _ _ _ _ Hmap)|].
  split; [exact (discriminate_distinct _ _ _ _ _ Hmap)|].
  assert (Hsel : forall d,
            SchemaField.select_type self (VDict d)
            = match SchemaField.discriminator_map self with
              | [] => inr (SchemaField.type self)
              | _ =>
                  if hashable (dict_get d tag) then
                    match const_lookup (SchemaField.discriminator_map self) (dict_get d tag) with
                    | Some variant => inr variant
                    | None => inr (SchemaField.type self)
                    end
                  else inl (TypeError "unhashable type")
              end).
  { intros d. unfold SchemaField.select_type. rewrite Hfield, Hdisc. reflexivity. }
  split.
  - intros d member const Hin Hc Heq.
    assert (Hlook : const_lookup (SchemaField.discriminator_map self) (dict_get d tag)
                    = Some member).
    { eapply discriminate_selects; try eassumption. reflexivity. }
    assert (Hhash : hashable (dict_get d tag) = true).
    { apply py_key_eqb_class in Heq. destruct Heq as (n & _ & Hn).
      destruct (dict_get d tag); simpl in *; congruence. }
    assert (Hs : SchemaField.select_type self (VDict d) = inr member).
    { rewrite Hsel, Hhash, Hlook.
      destruct (SchemaField.discriminator_map self); [discriminate|reflexivity]. }
    split; [exact Hs|].
    intros c parsed Htr. apply parse_value_on_success; assumption.
  - intros d Hhash Hnone.
    assert (Hlook : const_lookup (SchemaField.discriminator_map self) (dict_get d tag) = None).
    { eapply discriminate_misses; try eassumption. reflexivity. }
    assert (Hs : SchemaField.select_type self (VDict d) = inr (TLogical uname (Some (combinator, members)))).
    { rewrite Hsel, Hhash, Hlook, Hty.
      destruct (SchemaField.discriminator_map self); reflexivity. }
    split; [exact Hs|].
    intros c e Htr.
    pose proof (parse_value_on_failure self (VDict d) c _ e Hs Htr) as H.
    cbv zeta in H. rewrite Hty in H. exact H.
Qed.

Lemma discriminator_resolution_witness :
  exists self,
    SchemaField.init "item" Sample.tagged_union (Sample.discriminating None) "item" ∅
      Sample.tagged_union None false = inr self
    /\ SchemaField.select_type self (Sample.tagged 1) = inr (Sample.variant "A" 1)
    /\ SchemaField.select_type self (Sample.tagged 2) = inr (Sample.variant "B" 2)
    /\ SchemaField.select_type self (Sample.tagged 3) = inr Sample.tagged_union.
Proof.
  eexists. split; [reflexivity|].
  destruct (discriminator_resolution "item" "item" "tag" Sample.tagged_union
              Sample.tagged_union (Sample.discriminating None) ∅ None false _
              eq_refl ltac:(discriminate) eq_refl)
    as (uname & combinator & members & Hty & _ & _ & _ & Hhit & Hmiss).
  injection Hty as <- <- <-.
  split; [|split].
  - apply (Hhit _ (Sample.variant "A" 1) (VInt 1)); [left; reflexivity|reflexivity|reflexivity].
  - apply (Hhit _ (Sample.variant "B" 2) (VInt 2));
      [right; left; reflexivity|reflexivity|reflexivity].
  - apply (Hmiss [("tag", VInt 3); ("payload", VStr "p")]); [reflexivity|].
    intros member const [<- | [<- | []]] Hc; injection Hc as <-; reflexivity.
Defined.

(** C4 (as stated) fails: on the union of the variants tagged 1 and 2, a
    field with on_error='preserve' given [{"tag": 3, ...}] raises nothing:
    the input falls through to the declared type, the transformer rejects
    it, and the raw input is returned with a warning. *)
Lemma discriminator_no_match_counterexample :
  exists self,
    SchemaField.init "item" Sample.tagged_union (Sample.discriminating (Some PRESERVE))
      "item" ∅ Sample.tagged_union None false = inr self
    /\ SchemaField.select_type self (Sample.tagged 3) = inr Sample.tagged_union
    /\ Sample.coerce (Sample.tagged 3) Sample.tagged_union
       = inl (CoercionError "no member of the union matches")
    /\ SchemaField.parse_value self (Sample.tagged 3) (Sample.context THROW false)
       = Runtime.Ok (Sample.tagged 3)
           (warned
              (ParseError (ItemName "item") Sample.tagged_union (Sample.tagged 3)
                 (CoercionError "no member of the union matches"))
              (Runtime.with_transformed (Sample.context THROW false)
                 [(Sample.tagged 3, Sample.tagged_union)])).
Proof.
  eexists. split; [reflexivity|]. split; [reflexivity|]. split; reflexivity.
Qed.

(** ** Inheritance composition *)

Section Composition.

Context {A : Type}.
Variable proj : ClassParser.t -> gmap string A.
Variable get : ClassParser.Merged -> gmap string A.
Hypothesis get_merge :
  forall acc base,
    get (ClassParser.merge_base acc base)
    = if ClassParser.is_schema base
      then proj (ClassParser.parser base) ∪ get acc
      else get acc.

Lemma fold_lookup_untouched (later : list ClassParser.Base) (acc : ClassParser.Merged)
    (k : string) :
  (forall b, In b later -> eligible b -> proj (ClassParser.parser b) !! k = None) ->
  get (fold_left ClassParser.merge_base later acc) !! k = get acc !! k.
Proof.
  revert acc. induction later as [|b later IH]; intros acc H; [reflexivity|].
  simpl. rewrite IH by (intros b' Hb'; apply H; right; exact Hb').
  rewrite get_merge. destruct (ClassParser.is_schema b) eqn:Hs; [|reflexivity].
  apply lookup_union_r. apply H; [left; reflexivity|exact Hs].
Qed.

Lemma fold_lookup_last (processed : list ClassParser.Base) (acc : ClassParser.Merged)
    (k : string) (a : A) :
  last_to_define proj processed k a ->
  get (fold_left ClassParser.merge_base processed acc) !! k = Some a.
Proof.
  intros (earlier & base & later & -> & Hel & Hk & Hlater).
  rewrite fold_left_app. simpl.
  rewrite fold_lookup_untouched by exact Hlater.
  rewrite get_merge, Hel. apply lookup_union_Some_l. exact Hk.
Qed.

Lemma fold_lookup_origin (processed : list ClassParser.Base) (acc : ClassParser.Merged)
    (k : string) (a : A) :
  get (fold_left ClassParser.merge_base processed acc) !! k = Some a ->
  get acc !! k = Some a \/ last_to_define proj processed k a.
Proof.
  induction processed as [|b rest IH] using rev_ind; intros H; [left; exact H|].
  rewrite fold_left_app in H. simpl in H. rewrite get_merge in H.
  destruct (ClassParser.is_schema b) eqn:Hs.
  - apply lookup_union_Some_raw in H. destruct H as [Hb | [Hnone Hin]].
    + right. exists rest, b, []. split; [reflexivity|]. split; [exact Hs|].
      split; [exact Hb|]. intros b' [].
    + destruct (IH Hin) as [Hacc | (earlier & base & later & -> & Hel & Hk & Hl)];
        [left; exact Hacc|].
      right. exists earlier, base, (later ++ [b]).
      split; [rewrite <- app_assoc; reflexivity|]. split; [exact Hel|]. split; [exact Hk|].
      intros b' Hin' Hel'. apply in_app_or in Hin'.
      destruct Hin' as [Hin' | [<- | []]]; [apply Hl; assumption|exact Hnone].
  - destruct (IH H) as [Hacc | (earlier & base & later & -> & Hel & Hk & Hl)];
      [left; exact Hacc|].
    right. exists earlier, base, (later ++ [b]).
    split; [rewrite <- app_assoc; reflexivity|]. split; [exact Hel|]. split; [exact Hk|].
    intros b' Hin' Hel'. apply in_app_or in Hin'.
    destruct Hin' as [Hin' | [<- | []]]; [apply Hl; assumption|].
    unfold eligible in Hel'. congruence.
Qed.

End Composition.

Section CompositionSets.

Variable proj : ClassParser.t -> gset string.
Variable get : ClassParser.Merged -> gset string.
Hypothesis get_merge :
  forall acc base,
    get (ClassParser.merge_base acc base)
    = if ClassParser.is_schema base
      then get acc ∪ proj (ClassParser.parser base)
      else get acc.

Lemma fold_union (processed : list ClassParser.Base) (acc : ClassParser.Merged) (x : string) :
  x ∈ get (fold_left ClassParser.merge_base processed acc) <->
  x ∈ get acc
  \/ exists base, In base processed /\ eligible base /\ x ∈ proj (ClassParser.parser base).
Proof.
  revert acc. induction processed as [|b rest IH]; intros acc; simpl.
  - split; [auto|]. intros [H | (b & [] & _)]. exact H.
  - rewrite IH, get_merge. destruct (ClassParser.is_schema b) eqn:Hs.
    + rewrite elem_of_union. split.
      * intros [[H | H] | (b' & Hin & Hel & Hx)]; eauto 6.
      * intros [H | (b' & [<- | Hin] & Hel & Hx)]; eauto 6.
    + split.
      * intros [H | (b' & Hin & Hel & Hx)]; eauto 6.
      * intros [H | (b' & [<- | Hin] & Hel & Hx)]; eauto 6.
        unfold eligible in Hel. congruence.
Qed.

End CompositionSets.

Lemma fold_option_list (processed : list ClassParser.Base) (acc : ClassParser.Merged) :
  ClassParser.m_option_list (fold_left ClassParser.merge_base processed acc)
  = ClassParser.m_option_list acc ++ contributed_options processed.
Proof.
  revert acc. induction processed as [|b rest IH]; intros acc; simpl.
  - rewrite app_nil_r. reflexivity.
  - rewrite IH. unfold ClassParser.merge_base.
    destruct (ClassParser.is_schema b); simpl; [|reflexivity].
    destruct (Options.vacuum (ClassParser.options (ClassParser.parser b))); simpl;
      [reflexivity|rewrite <- app_assoc; reflexivity].
Qed.

Lemma merge_base_fields acc base :
  ClassParser.m_fields (ClassParser.merge_base acc base)
  = if ClassParser.is_schema base
    then ClassParser.fields (ClassParser.parser base) ∪ ClassParser.m_fields acc
    else ClassParser.m_fields acc.
Proof. unfold ClassParser.merge_base. destruct (ClassParser.is_schema base); reflexivity. Qed.

Lemma merge_base_alias_map acc base :
  ClassParser.m_alias_map (ClassParser.merge_base acc base)
  = if ClassParser.is_schema base
    then ClassParser.field_alias_map (ClassParser.parser base) ∪ ClassParser.m_alias_map acc
    else ClassParser.m_alias_map acc.
Proof. unfold ClassParser.merge_base. destruct (ClassParser.is_schema base); reflexivity. Qed.

Lemma merge_base_attr_alias_map acc base :
  ClassParser.m_attr_alias_map (ClassParser.merge_base acc base)
  = if ClassParser.is_schema base
    then ClassParser.attr_alias_map (ClassParser.parser base)
         ∪ ClassParser.m_attr_alias_map acc
    else ClassParser.m_attr_alias_map acc.
Proof. unfold ClassParser.merge_base. destruct (ClassParser.is_schema base); reflexivity. Qed.

Lemma merge_base_exclude_vars acc base :
  ClassParser.m_exclude_vars (ClassParser.merge_base acc base)
  = if ClassParser.is_schema base
    then ClassParser.m_exclude_vars acc ∪ ClassParser.exclude_vars (ClassParser.parser base)
    else ClassParser.m_exclude_vars acc.
Proof. unfold ClassParser.merge_base. destruct (ClassParser.is_schema base); reflexivity. Qed.

Lemma merge_base_case_insensitive_names acc base :
  ClassParser.m_case_insensitive_names (ClassParser.merge_base acc base)
  = if ClassParser.is_schema base
    then ClassParser.m_case_insensitive_names acc
         ∪ ClassParser.case_insensitive_names (ClassParser.parser base)
    else ClassParser.m_case_insensitive_names acc.
Proof. unfold ClassParser.merge_base. destruct (ClassParser.is_schema base); reflexivity. Qed.

Lemma collect_fields_spec (generated : list SchemaField.t)
    (m0 fm : gmap string SchemaField.t) :
  ClassParser.collect_fields generated m0 = inr fm ->
  (forall k f, m0 !! k = Some f -> fm !! k = Some f)
  /\ (forall field, In field generated -> fm !! SchemaField.name field = Some field)
  /\ (forall k, (forall field, In field generated -> SchemaField.name field <> k) ->
                fm !! k = m0 !! k).
Proof.
  revert m0. induction generated as [|g rest IH]; intros m0 H; simpl in H.
  - injection H as <-. split; [auto|]. split; [intros ? []|auto].
  - destruct (m0 !! SchemaField.name g) eqn:Hg; [discriminate|].
    destruct (IH _ H) as (Hkeep & Hown & Hother).
    split; [|split].
    + intros k f Hk. apply Hkeep. rewrite lookup_insert_ne; [exact Hk|].
      intros <-. congruence.
    + intros field [<- | Hin]; [|apply Hown; exact Hin].
      apply Hkeep. apply lookup_insert_eq.
    + intros k Hk. rewrite Hother by (intros f Hf; apply Hk; right; exact Hf).
      apply lookup_insert_ne. apply Hk. left. reflexivity.
Qed.

Lemma generate_from_case_insensitive (option_list : list Options.t) (acc : Options.t)
    (b : bool) :
  Options.case_insensitive (fold_left Options.override option_list acc) = Some b
  <-> last_setting option_list b
      \/ ((forall o, In o option_list -> Options.case_insensitive o = None)
          /\ Options.case_insensitive acc = Some b).
Proof.
  induction option_list as [|o rest IH] using rev_ind.
  - simpl. split; [intros H; right; split; [intros ? []|exact H]|].
    intros [(earlier & o & later & Heq & _) | [_ H]]; [|exact H].
    destruct earlier; discriminate.
  - rewrite fold_left_app. simpl.
    destruct (Options.case_insensitive o) as [flag|] eqn:Ho.
    + split.
      * intros [= <-]. left. exists rest, o, []. split; [reflexivity|].
        split; [exact Ho|intros ? []].
      * intros [(earlier & o' & later & Heq & Hset & Hlater) | [Hall _]].
        -- destruct later as [|x later] using rev_ind.
           ++ apply app_inj_tail in Heq as [_ <-]. congruence.
           ++ rewrite app_comm_cons, app_assoc in Heq. apply app_inj_tail in Heq as [_ <-].
              rewrite Hlater in Ho; [discriminate|]. apply in_or_app. right. left. reflexivity.
        -- rewrite Hall in Ho; [discriminate|]. apply in_or_app. right. left. reflexivity.
    + rewrite IH. split.
      * intros [(earlier & o' & later & -> & Hset & Hlater) | [Hall Hacc]].
        -- left. exists earlier, o', (later ++ [o]).
           split; [rewrite <- app_assoc; reflexivity|]. split; [exact Hset|].
           intros x Hx. apply in_app_or in Hx as [Hx | [<- | []]]; [apply Hlater; exact Hx|exact Ho].
        -- right. split; [|exact Hacc].
           intros x Hx. apply in_app_or in Hx as [Hx | [<- | []]]; [apply Hall; exact Hx|exact Ho].
      * intros [(earlier & o' & later & Heq & Hset & Hlater) | [Hall Hacc]].
        -- left. destruct later as [|x later] using rev_ind.
           ++ apply app_inj_tail in Heq as [_ <-]. congruence.
           ++ rewrite app_comm_cons, app_assoc in Heq. apply app_inj_tail in Heq as [-> <-].
              exists earlier, o', later. split; [reflexivity|]. split; [exact Hset|].
              intros y Hy. apply Hlater. apply in_or_app. left. exact Hy.
        -- right. split; [|exact Hacc].
           intros x Hx. apply Hall. apply in_or_app. left. exact Hx.
Qed.

(** C8: the bases are processed in reverse declaration order (the reverse
    of the MRO, oldest first); for the field map and both alias maps, a key
    that several bases define takes the value of the base processed last
    among them, and every merged entry comes from such a base; the exclusion
    set and the case-insensitive names are the unions over the bases; the
    non-vacuum options of the bases are merged in processing order with the
    class's own options last, so that a flag takes the value that the last of
    them to set it gives it; and the fields the class declares itself are
    laid over the merged field map. *)
Theorem inheritance_composition (bases : list ClassParser.Base)
    (cls_options : option Options.t) :
  let processed := rev bases in
  let merged := ClassParser.generate_from_bases bases cls_options in
  let option_list :=
    contributed_options processed ++ match cls_options with Some o => [o] | None => [] end in
  (forall k f, ClassParser.fields merged !! k = Some f <->
               last_to_define ClassParser.fields processed k f)
  /\ (forall k a, ClassParser.field_alias_map merged !! k = Some a <->
                  last_to_define ClassParser.field_alias_map processed k a)
  /\ (forall k a, ClassParser.attr_alias_map merged !! k = Some a <->
                  last_to_define ClassParser.attr_alias_map processed k a)
  /\ (forall x, x ∈ ClassParser.exclude_vars merged <->
                exists base, In base bases /\ eligible base
                             /\ x ∈ ClassParser.exclude_vars (ClassParser.parser base))
  /\ (forall x, x ∈ ClassParser.case_insensitive_names merged <->
                exists base, In base bases /\ eligible base
                             /\ x ∈ ClassParser.case_insensitive_names (ClassParser.parser base))
  /\ ClassParser.options merged = Options.generate_from option_list
  /\ (forall b, Options.case_insensitive (ClassParser.options merged) = Some b <->
                last_setting option_list b)
  /\ (forall self generated p,
        ClassParser.fields self = ClassParser.fields merged ->
        ClassParser.generate_fields self generated = inr p ->
        (forall field, In field generated ->
                       ClassParser.fields p !! SchemaField.name field = Some field)
        /\ (forall k, (forall field, In field generated -> SchemaField.name field <> k) ->
                      ClassParser.fields p !! k = ClassParser.fields merged !! k)).
Proof.
  simpl. unfold ClassParser.merge_bases.
  assert (Hmap : forall (A : Type) (proj : ClassParser.t -> gmap string A)
                   (get : ClassParser.Merged -> gmap string A),
             (forall acc base,
                get (ClassParser.merge_base acc base)
                = if ClassParser.is_schema base
                  then proj (ClassParser.parser base) ∪ get acc else get acc) ->
             get ClassParser.empty_merged = ∅ ->
             forall k a,
               get (fold_left ClassParser.merge_base (rev bases) ClassParser.empty_merged) !! k
               = Some a <-> last_to_define proj (rev bases) k a).
  { intros A proj get Hm He k a. split.
    - intros Hk. destruct (fold_lookup_origin proj get Hm _ _ _ _ Hk) as [Hx|Hx]; [|exact Hx].
      rewrite He, lookup_empty in Hx. discriminate.
    - apply fold_lookup_last. exact Hm. }
  assert (Hset : forall (proj : ClassParser.t -> gset string)
                   (get : ClassParser.Merged -> gset string),
             (forall acc base,
                get (ClassParser.merge_base acc base)
                = if ClassParser.is_schema base
                  then get acc ∪ proj (ClassParser.parser base) else get acc) ->
             get ClassParser.empty_merged = ∅ ->
             forall x,
               x ∈ get (fold_left ClassParser.merge_base (rev bases) ClassParser.empty_merged)
               <-> exists base, In base bases /\ eligible base
                                /\ x ∈ proj (ClassParser.parser base)).
  { intros proj get Hm He x. rewrite (fold_union proj get Hm), He. split.
    - intros [Hx | (b & Hin & Hel & Hx)]; [set_solver|].
      exists b. rewrite in_rev. auto.
    - intros (b & Hin & Hel & Hx). right. exists b. rewrite <- in_rev. auto. }
  assert (Hlist : match cls_options with
                  | Some o =>
                      ClassParser.m_option_list
                        (fold_left ClassParser.merge_base (rev bases) ClassParser.empty_merged)
                      ++ [o]
                  | None =>
                      ClassParser.m_option_list
                        (fold_left ClassParser.merge_base (rev bases) ClassParser.empty_merged)
                  end
                  = contributed_options (rev bases)
                    ++ match cls_options with Some o => [o] | None => [] end).
  { rewrite fold_option_list. simpl.
    destruct cls_options; [reflexivity | rewrite app_nil_r; reflexivity]. }
  split; [apply (Hmap _ _ _ merge_base_fields eq_refl)|].
  split; [apply (Hmap _ _ _ merge_base_alias_map eq_refl)|].
  split; [apply (Hmap _ _ _ merge_base_attr_alias_map eq_refl)|].
  split; [apply (Hset _ _ merge_base_exclude_vars eq_refl)|].
  split; [apply (Hset _ _ merge_base_case_insensitive_names eq_refl)|].
  split; [rewrite Hlist; reflexivity|].
  split.
  { intros b. rewrite Hlist. unfold Options.generate_from.
    rewrite generate_from_case_insensitive. simpl. split; [|auto].
    intros [H | [_ H]]; [exact H|discriminate]. }
  intros self generated p Hfields H. unfold ClassParser.generate_fields in H.
  destruct (ClassParser.collect_fields generated ∅) as [e|fm] eqn:Hc; [discriminate|].
  injection H as <-. simpl. rewrite Hfields.
  destruct (collect_fields_spec _ _ _ Hc) as (_ & Hown & Hother).
  split.
  - intros field Hin. apply lookup_union_Some_l. apply Hown. exact Hin.
  - intros k Hk. rewrite lookup_union_r; [reflexivity|].
    rewrite Hother by exact Hk. apply lookup_empty.
Qed.

Lemma inheritance_composition_witness :
  ClassParser.fields
    (ClassParser.generate_from_bases Sample.bases_of_C (Some (Sample.options_of "C"))) !! "x"
  = Some Sample.x_of_A
  /\ Options.case_insensitive
       (ClassParser.options
          (ClassParser.generate_from_bases Sample.bases_of_C (Some (Sample.options_of "C"))))
     = Some true
  /\ Options.case_insensitive
       (ClassParser.options
          (ClassParser.generate_from_bases Sample.bases_of_C (Some (Sample.flagged "C" false))))
     = Some false
  /\ exists p,
       ClassParser.generate_fields
         (ClassParser.generate_from_bases Sample.bases_of_C (Some (Sample.options_of "C")))
         [Sample.y_of_C] = inr p
       /\ ClassParser.fields p !! "y" = Some Sample.y_of_C
       /\ ClassParser.fields p !! "x" = Some Sample.x_of_A.
Proof.
  destruct (inheritance_composition Sample.bases_of_C (Some (Sample.options_of "C")))
    as (Hfields & _ & _ & _ & _ & _ & Hflag & Hown).
  set (merged := ClassParser.generate_from_bases Sample.bases_of_C
                   (Some (Sample.options_of "C"))) in *.
  assert (Hx : ClassParser.fields merged !! "x" = Some Sample.x_of_A).
  { apply Hfields. exists [Sample.flagged_base Sample.base_B (Sample.flagged "B" false)],
      (Sample.flagged_base Sample.base_A (Sample.flagged "A" true)), [].
    split; [reflexivity|]. split; [reflexivity|]. split; [reflexivity|]. intros b []. }
  split; [exact Hx|]. split; [|split].
  - apply Hflag. exists [Sample.flagged "B" false], (Sample.flagged "A" true),
      [Sample.options_of "C"].
    split; [reflexivity|]. split; [reflexivity|].
    intros o [<- | []]. reflexivity.
  - destruct (inheritance_composition Sample.bases_of_C (Some (Sample.flagged "C" false)))
      as (_ & _ & _ & _ & _ & _ & Hflag' & _).
    apply Hflag'. exists [Sample.flagged "B" false; Sample.flagged "A" true],
      (Sample.flagged "C" false), [].
    split; [reflexivity|]. split; [reflexivity|]. intros o [].
  - destruct (ClassParser.generate_fields merged [Sample.y_of_C]) as [e|p] eqn:Hp;
      [discriminate Hp|].
    exists p. split; [reflexivity|].
    destruct (Hown merged [Sample.y_of_C] p eq_refl Hp) as [Hmine Hrest].
    split.
    + exact (Hmine Sample.y_of_C (or_introl eq_refl)).
    + rewrite Hrest; [exact Hx|]. intros field [<- | []]. discriminate.
Defined.

(** ** Generators *)

Section GeneratorFacts.

Context {G : Type}.
Variable send : G -> Value -> Generator.Step G.
Variable self : FunctionParser.t.

Lemma parse_yield_ok (i : nat) (item parsed : Value) (c : Runtime.Context) (yt : Ty) :
  FunctionParser.generator_yield_type self = Some yt ->
  Runtime.transformer c item yt = inr parsed ->
  Generator.parse_yield self i item c = Runtime.Ok parsed (transformed_once c item yt).
Proof.
  intros Hy Ht. unfold Generator.parse_yield. rewrite Hy.
  unfold Runtime.bind, Runtime.transform. rewrite Ht. reflexivity.
Qed.

Lemma parse_yield_fails (i : nat) (item : Value) (e : Exn) (c : Runtime.Context) (yt : Ty) :
  FunctionParser.generator_yield_type self = Some yt ->
  Runtime.transformer c item yt = inl e ->
  Generator.parse_yield self i item c
  = Runtime.Raise (ParseError (Generator.yield_item i) yt item e) (transformed_once c item yt).
Proof.
  intros Hy Ht. unfold Generator.parse_yield. rewrite Hy.
  unfold Runtime.bind, Runtime.transform. rewrite Ht. reflexivity.
Qed.

Lemma pump_keeps_index (fuel : nat) (g : G) (i : nat) (c c' : Runtime.Context)
    (item : Value) (frame : Generator.Frame G) :
  Generator.pump send self fuel g i c = Runtime.Ok (Some (Generator.Yield item frame)) c' ->
  next_index frame = S i.
Proof.
  revert g c. induction fuel as [|fuel IH]; intros g c H; [discriminate|].
  assert (Hstop : forall result,
            match FunctionParser.generator_return_type self with
            | Some return_type =>
                if is_None result
                then Runtime.ret (Some (Generator.RuntimeError Generator.raised_StopIteration))
                else
                  r <- Runtime.transform result return_type ;;
                  match r with
                  | inr parsed => Runtime.ret (Some (Generator.Return parsed))
                  | inl e =>
                      Runtime.handle_error
                        (ParseError (ItemName "<generator.return>") return_type result e)
                        true ;;;
                      Runtime.ret (Some (Generator.Return result))
                  end
            | None => Runtime.ret (Some (Generator.RuntimeError Generator.raised_StopIteration))
            end c
            <> Runtime.Ok (Some (Generator.Yield item frame)) c').
  { intros result. destruct (FunctionParser.generator_return_type self); [|discriminate].
    destruct (is_None result); [discriminate|].
    unfold Runtime.bind, Runtime.transform.
    destruct (Runtime.transformer c result t); discriminate. }
  simpl in H. destruct (send g VNone) as [[plain|inner] rest|result|e].
  - unfold Runtime.bind in H.
    destruct (Generator.parse_yield self i plain c); [|discriminate].
    injection H as _ <- _. reflexivity.
  - eapply IH. exact H.
  - destruct (Hstop result H).
  - destruct e; try discriminate. destruct (Hstop value H).
Qed.

Lemma resume_advances_index (fuel : nat) (frame frame' : Generator.Frame G) (sent item : Value)
    (c c' : Runtime.Context) :
  Generator.resume send self fuel frame sent c
  = Runtime.Ok (Some (Generator.Yield item frame')) c' ->
  next_index frame' = S (next_index frame).
Proof.
  unfold Generator.resume. destruct frame as [g|g i]; simpl.
  - destruct (is_None sent); [|discriminate]. apply pump_keeps_index.
  - destruct (is_None sent); [apply pump_keeps_index|].
    unfold Runtime.bind. destruct (Generator.parse_sent self i sent c); [|discriminate].
    destruct (send g a) as [y rest|r|e]; try discriminate; [apply pump_keeps_index|].
    destruct e; discriminate.
Qed.

Lemma drives_counts (fuel : nat) (frame frame' : Generator.Frame G) (c c' : Runtime.Context)
    (sents items : list Value) :
  drives send self fuel frame c sents items frame' c' ->
  next_index frame' = next_index frame + length items.
Proof.
  induction 1 as [|frame c sent item frame1 c1 sents items frame2 c2 Hstep Hrest IH]; simpl.
  - lia.
  - rewrite IH, (resume_advances_index _ _ _ _ _ _ _ Hstep). lia.
Qed.

Lemma resume_pulls (fuel : nat) (frame : Generator.Frame G) (c : Runtime.Context) :
  Generator.resume send self fuel frame VNone c
  = Generator.pump send self fuel (current frame) (next_index frame) c.
Proof. destruct frame; reflexivity. Qed.

End GeneratorFacts.

(** C3: the code does not keep the claim.  Evaluated on a generator
    declared [Generator[int, int, str]] that yields ['3'] and then ends
    without a return value: the wrapper delivers [3], and at the next
    [next()] the consumer gets the RuntimeError of a StopIteration raised
    inside a generator, where the underlying generator would simply have
    ended.  The same error is what a [send()] ends in when it exhausts the
    underlying generator, whose return value [9] is then neither coerced nor
    delivered; and the item with which the underlying generator answers a
    [send()] (here ['4']) is never re-yielded: the next item delivered is
    [5]. *)
Theorem sync_generator_end_is_RuntimeError :
  Generator.resume Sample.script_send Sample.int_generator 1
    (Generator.Created {| Sample.items := [VStr "3"]; Sample.result := VNone |}) VNone
    (Sample.context THROW false)
  = Runtime.Ok
      (Some (Generator.Yield (VInt 3)
               (Generator.AtYield {| Sample.items := []; Sample.result := VNone |} 0)))
      (transformed_once (Sample.context THROW false) (VStr "3") Sample.int_type)
  /\ Generator.resume Sample.script_send Sample.int_generator 1
       (Generator.AtYield {| Sample.items := []; Sample.result := VNone |} 0) VNone
       (transformed_once (Sample.context THROW false) (VStr "3") Sample.int_type)
     = Runtime.Ok (Some (Generator.RuntimeError "generator raised StopIteration"))
         (transformed_once (Sample.context THROW false) (VStr "3") Sample.int_type)
  /\ Generator.resume Sample.script_send Sample.int_generator 1
       (Generator.AtYield {| Sample.items := []; Sample.result := VInt 9 |} 0) (VStr "5")
       (Sample.context THROW false)
     = Runtime.Ok (Some (Generator.RuntimeError "generator raised StopIteration"))
         (transformed_once (Sample.context THROW false) (VStr "5") Sample.int_type)
  /\ Generator.resume Sample.script_send Sample.int_generator 1
       (Generator.AtYield {| Sample.items := [VStr "4"; VStr "5"]; Sample.result := VInt 9 |} 0)
       (VStr "7") (Sample.context THROW false)
     = Runtime.Ok
         (Some (Generator.Yield (VInt 5)
                  (Generator.AtYield {| Sample.items := []; Sample.result := VInt 9 |} 1)))
         (transformed_once
            (transformed_once (Sample.context THROW false) (VStr "7") Sample.int_type)
            (VStr "5") Sample.int_type).
Proof.
  split; [reflexivity|]. split; [reflexivity|]. split; reflexivity.
Qed.

(** ** Absence of a required field *)

Lemma extends_refl (c : Runtime.Context) : extends c c.
Proof.
  exists [], (Runtime.warnings c), (Runtime.transformed c).
  destruct c; unfold Runtime.with_transformed, Runtime.with_warnings, Runtime.with_errors;
    simpl. rewrite app_nil_r. reflexivity.
Qed.

Lemma extends_trans (c1 c2 c3 : Runtime.Context) :
  extends c1 c2 -> extends c2 c3 -> extends c1 c3.
Proof.
  intros (es & ws & ts & ->) (es' & ws' & ts' & ->).
  exists (es ++ es'), ws', ts'.
  unfold Runtime.with_transformed, Runtime.with_warnings, Runtime.with_errors; simpl.
  rewrite app_assoc. reflexivity.
Qed.

Lemma extends_collect_errors (c c' : Runtime.Context) :
  extends c c' -> Runtime.collect_errors c' = Runtime.collect_errors c.
Proof. intros (es & ws & ts & ->). reflexivity. Qed.

Lemma extends_errors (c c' : Runtime.Context) (e : Exn) :
  extends c c' -> In e (Runtime.errors c) -> In e (Runtime.errors c').
Proof. intros (es & ws & ts & ->) H. simpl. apply in_or_app. left. exact H. Qed.

Lemma extends_is_required (c c' : Runtime.Context) (f : SchemaField.t) :
  extends c c' -> SchemaField.is_required f c' = SchemaField.is_required f c.
Proof. intros (es & ws & ts & ->). reflexivity. Qed.

Lemma extends_with_warnings (c : Runtime.Context) (ws : list Warning) :
  extends c (Runtime.with_warnings c ws).
Proof.
  exists [], ws, (Runtime.transformed c).
  destruct c; unfold Runtime.with_transformed, Runtime.with_warnings, Runtime.with_errors;
    simpl. rewrite app_nil_r. reflexivity.
Qed.

Lemma extends_with_transformed (c : Runtime.Context) (ts : list (Value * Ty)) :
  extends c (Runtime.with_transformed c ts).
Proof.
  exists [], (Runtime.warnings c), ts.
  destruct c; unfold Runtime.with_transformed, Runtime.with_warnings, Runtime.with_errors;
    simpl. rewrite app_nil_r. reflexivity.
Qed.

Lemma extends_with_errors (c : Runtime.Context) (es : list Exn) :
  extends c (Runtime.with_errors c (Runtime.errors c ++ es)).
Proof.
  exists es, (Runtime.warnings c), (Runtime.transformed c).
  destruct c; reflexivity.
Qed.

Lemma tame_steady {A} (m : Runtime.M A) : tame m -> steady m.
Proof.
  intros H c. specialize (H c). destruct (m c); [exact H|]. destruct H as [H _]. exact H.
Qed.

Lemma tame_ret {A} (a : A) : tame (Runtime.ret a).
Proof. intros c. apply extends_refl. Qed.

Lemma tame_bind {A B} (m : Runtime.M A) (k : A -> Runtime.M B) :
  tame m -> (forall a, tame (k a)) -> tame (Runtime.bind m k).
Proof.
  intros Hm Hk c. unfold Runtime.bind. specialize (Hm c).
  destruct (m c) as [a c1|e c1].
  - specialize (Hk a c1). destruct (k a c1) as [b c2|e c2].
    + eapply extends_trans; eassumption.
    + destruct Hk as [Hx Hq]. split; [eapply extends_trans; eassumption|].
      intros Hc. apply Hq. rewrite (extends_collect_errors _ _ Hm). exact Hc.
  - exact Hm.
Qed.

Lemma tame_ask : tame Runtime.ask.
Proof. intros c. apply extends_refl. Qed.

Lemma tame_transform (v : Value) (ty : Ty) : tame (Runtime.transform v ty).
Proof. intros c. apply extends_with_transformed. Qed.

Lemma tame_collect_waring (w : Warning) : tame (Runtime.collect_waring w).
Proof. intros c. apply extends_with_warnings. Qed.

Lemma tame_handle_error (e : Exn) : tame (Runtime.handle_error e false).
Proof.
  intros c. unfold Runtime.handle_error. simpl.
  destruct (Runtime.collect_errors c) eqn:Hc; simpl.
  - apply extends_with_errors.
  - split; [apply extends_refl|]. discriminate.
Qed.

Lemma select_type_error (self : SchemaField.t) (value : Value) (e : Exn) :
  SchemaField.select_type self value = inl e -> e = TypeError "unhashable type".
Proof.
  unfold SchemaField.select_type.
  destruct (SchemaField.discriminator_map self); [discriminate|].
  destruct value; try discriminate.
  destruct (hashable _); [|congruence].
  destruct (const_lookup _ _); discriminate.
Qed.

Create HintDb tame.
#[local] Hint Resolve tame_ret tame_ask tame_transform tame_collect_waring
  tame_handle_error : tame.

Lemma tame_parse_value (self : SchemaField.t) (value : Value) :
  tame (SchemaField.parse_value self value).
Proof.
  unfold SchemaField.parse_value.
  apply tame_bind; [destruct (Field.deprecated _); auto with tame|intros _].
  destruct (SchemaField.select_type self value) as [e|ty] eqn:Hs.
  - apply select_type_error in Hs. subst e. intros c. split; [apply extends_refl|auto].
  - apply tame_bind; [auto with tame|]. intros [e|parsed]; [|auto with tame].
    apply tame_bind; [auto with tame|]. intros options.
    destruct (SchemaField.get_on_error self options).
    + apply tame_bind; [destruct (SchemaField.is_required self options); auto with tame|].
      auto with tame.
    + apply tame_bind; auto with tame.
    + apply tame_bind; auto with tame.
Qed.

Lemma tame_parse_pos_type (self : FunctionParser.t) (index : nat) (value : Value) :
  tame (FunctionParser.parse_pos_type self index value).
Proof.
  unfold FunctionParser.parse_pos_type.
  destruct (FunctionParser.position_type self); [|auto with tame].
  apply tame_bind; [auto with tame|]. intros [e|parsed]; [|auto with tame].
  apply tame_bind; [auto with tame|]. intros context.
  destruct (Runtime.invalid_items context); apply tame_bind; auto with tame.
Qed.

Lemma tame_parse_args (self : FunctionParser.t) (args : list Value) :
  forall i parsed_args parsed_keys,
    tame (FunctionParser.parse_args self i args parsed_args parsed_keys).
Proof.
  induction args as [|arg rest IH]; intros i pa pk; simpl; [auto with tame|].
  destruct (FunctionParser.in_pos_var self i).
  - apply tame_bind; [apply tame_parse_pos_type|]. intros a.
    destruct (unprovided a); apply IH.
  - destruct (FunctionParser.index_lookup _ i) as [field|]; [|apply IH].
    apply tame_bind; [auto with tame|]. intros context.
    destruct (SchemaField.no_input field arg context).
    + destruct (unprovided _); apply IH.
    + apply tame_bind; [apply tame_parse_value|]. intros a.
      destruct (unprovided a); apply IH.
Qed.

Lemma tame_fill_positional_only (pos_only : list (nat * SchemaField.t)) :
  forall parsed_args parsed_keys,
    tame (FunctionParser.fill_positional_only pos_only parsed_args parsed_keys).
Proof.
  induction pos_only as [|[index field] rest IH]; intros pa pk; simpl; [auto with tame|].
  destruct (FunctionParser.key_in _ pk); [apply IH|].
  apply tame_bind; [auto with tame|]. intros context.
  destruct (SchemaField.is_required field context).
  - apply tame_bind; [auto with tame|]. intros _. apply IH.
  - destruct (negb _); apply IH.
Qed.

Lemma tame_parse_supplied (self : FunctionParser.t) (data : list (string * Value))
    (excluded_keys : list string) :
  forall result, tame (FunctionParser.parse_supplied self data excluded_keys result).
Proof.
  induction data as [|[key value] rest IH]; intros result; simpl; [auto with tame|].
  destruct (List.filter _ _) as [|field others].
  2: { destruct (FunctionParser.key_in _ excluded_keys); [apply IH|].
       apply tame_bind; [auto with tame|]. intros context.
       destruct (SchemaField.no_input field value context); [apply IH|].
       apply tame_bind; [apply tame_parse_value|]. intros parsed.
       destruct (unprovided parsed); apply IH. }
  destruct (truthy_str _); apply IH.
Qed.

Lemma tame_parse_missing (self : FunctionParser.t) (remaining : list SchemaField.t)
    (data : list (string * Value)) (excluded_keys : list string) :
  forall result, tame (FunctionParser.parse_missing self remaining data excluded_keys result).
Proof.
  induction remaining as [|field rest IH]; intros result; simpl; [auto with tame|].
  destruct (_ || _ || _); [apply IH|].
  apply tame_bind; [auto with tame|]. intros context.
  destruct (SchemaField.is_required field context).
  - apply tame_bind; [auto with tame|]. intros _. apply IH.
  - destruct (negb _); apply IH.
Qed.

Lemma tame_parse_data (self : FunctionParser.t) (data : list (string * Value))
    (excluded_keys : list string) :
  tame (FunctionParser.parse_data self data excluded_keys).
Proof.
  unfold FunctionParser.parse_data.
  apply tame_bind; [apply tame_parse_supplied|]. intros result. apply tame_parse_missing.
Qed.

Lemma key_in_In (k : string) (l : list string) :
  FunctionParser.key_in k l = true <-> In k l.
Proof.
  unfold FunctionParser.key_in. rewrite existsb_exists. split.
  - intros (x & Hin & Heq). apply String.eqb_eq in Heq. subst. exact Hin.
  - intros Hin. exists k. split; [exact Hin|apply String.eqb_refl].
Qed.

Lemma key_in_snoc (k x : string) (l : list string) :
  FunctionParser.key_in k l = false -> x <> k ->
  FunctionParser.key_in k (l ++ [x]) = false.
Proof.
  intros Hl Hx. unfold FunctionParser.key_in in *. rewrite existsb_app, Hl. simpl.
  destruct (String.eqb_spec k x); [congruence|reflexivity].
Qed.

Lemma fill_aggregates (pos_only : list (nat * SchemaField.t)) :
  forall parsed_args parsed_keys c,
    Runtime.collect_errors c = true ->
    exists r c', FunctionParser.fill_positional_only pos_only parsed_args parsed_keys c
                 = Runtime.Ok r c'.
Proof.
  induction pos_only as [|[index field] rest IH]; intros pa pk c Hc; simpl; [eauto|].
  destruct (FunctionParser.key_in _ pk); [apply IH; exact Hc|].
  unfold Runtime.bind, Runtime.ask.
  destruct (SchemaField.is_required field c).
  - unfold Runtime.handle_error. rewrite Hc. simpl. apply IH. exact Hc.
  - destruct (negb _); apply IH; exact Hc.
Qed.

Section Absence.

Variable f : SchemaField.t.

Lemma fill_records (pos_only : list (nat * SchemaField.t)) :
  forall parsed_args parsed_keys c idx,
    (forall j g, In (j, g) pos_only ->
                 SchemaField.attname g = SchemaField.attname f -> g = f) ->
    In (idx, f) pos_only ->
    SchemaField.is_required f c = true ->
    FunctionParser.key_in (SchemaField.attname f) parsed_keys = false ->
    match FunctionParser.fill_positional_only pos_only parsed_args parsed_keys c with
    | Runtime.Ok _ c' => In (AbsenceError (SchemaField.attname f)) (Runtime.errors c')
    | Runtime.Raise e c' => Runtime.collect_errors c = false
    end.
Proof.
  induction pos_only as [|[j g] rest IH]; intros pa pk c idx Huniq Hin Hreq Hkey;
    [destruct Hin|].
  assert (Hrest : forall j' g', In (j', g') rest ->
                    SchemaField.attname g' = SchemaField.attname f -> g' = f).
  { intros j' g' Hg. apply (Huniq j' g'). right. exact Hg. }
  simpl. destruct (FunctionParser.key_in (SchemaField.attname g) pk) eqn:Hg.
  - destruct Hin as [Heq | Hin]; [injection Heq as -> ->; congruence|].
    apply (IH _ _ _ idx); assumption.
  - unfold Runtime.bind, Runtime.ask.
    destruct (SchemaField.is_required g c) eqn:Hgreq.
    + unfold Runtime.handle_error. simpl.
      destruct (Runtime.collect_errors c) eqn:Hc; simpl; [|reflexivity].
      set (c1 := Runtime.with_errors c
                   (Runtime.errors c ++ [AbsenceError (SchemaField.attname g)])).
      destruct Hin as [Heq | Hin].
      * injection Heq as -> ->.
        destruct (fill_aggregates rest pa pk c1 Hc) as (r & c' & Hok). rewrite Hok.
        pose proof (tame_steady _ (tame_fill_positional_only rest pa pk) c1) as Hst.
        rewrite Hok in Hst. apply (extends_errors _ _ _ Hst).
        subst c1. simpl. apply in_or_app. right. left. reflexivity.
      * specialize (IH pa pk c1 idx Hrest Hin Hreq Hkey).
        destruct (FunctionParser.fill_positional_only rest pa pk c1); [exact IH|].
        subst c1. simpl in IH. congruence.
    + assert (Hne : SchemaField.attname g <> SchemaField.attname f).
      { intros Heq. rewrite (Huniq j g (or_introl eq_refl) Heq) in Hgreq. congruence. }
      destruct Hin as [Heq | Hin]; [injection Heq as -> ->; congruence|].
      destruct (negb _).
      * apply (IH _ _ _ idx); try assumption. apply key_in_snoc; assumption.
      * apply (IH _ _ _ idx); assumption.
Qed.

Lemma fill_keys (pos_only : list (nat * SchemaField.t)) :
  forall parsed_args parsed_keys c r c',
    FunctionParser.fill_positional_only pos_only parsed_args parsed_keys c
    = Runtime.Ok r c' ->
    forall k, In k (snd r) ->
      In k parsed_keys
      \/ exists j g, In (j, g) pos_only /\ SchemaField.attname g = k
                     /\ SchemaField.is_required g c = false.
Proof.
  induction pos_only as [|[j g] rest IH]; intros pa pk c r c' H k Hk; simpl in H.
  - injection H as <- _. left. exact Hk.
  - assert (Hlift : forall pa' pk' c1,
              extends c c1 ->
              FunctionParser.fill_positional_only rest pa' pk' c1 = Runtime.Ok r c' ->
              In k pk'
              \/ exists j' g', In (j', g') ((j, g) :: rest) /\ SchemaField.attname g' = k
                               /\ SchemaField.is_required g' c = false).
    { intros pa' pk' c1 Hext H1.
      destruct (IH _ _ _ _ _ H1 k Hk) as [Hin | (j' & g' & Hin & Ha & Hr)]; [left; exact Hin|].
      right. exists j', g'. split; [right; exact Hin|]. split; [exact Ha|].
      rewrite <- (extends_is_required _ _ _ Hext). exact Hr. }
    destruct (FunctionParser.key_in (SchemaField.attname g) pk).
    + apply (Hlift _ _ _ (extends_refl c) H).
    + unfold Runtime.bind, Runtime.ask in H.
      destruct (SchemaField.is_required g c) eqn:Hreq.
      * unfold Runtime.handle_error in H. simpl in H.
        destruct (Runtime.collect_errors c); simpl in H; [|discriminate].
        apply (Hlift _ _ _ (extends_with_errors c _) H).
      * destruct (negb _).
        -- destruct (Hlift _ _ _ (extends_refl c) H) as [Hin | Hx]; [|right; exact Hx].
           apply in_app_or in Hin. destruct Hin as [Hin | [<- | []]]; [left; exact Hin|].
           right. exists j, g. split; [left; reflexivity|]. auto.
        -- apply (Hlift _ _ _ (extends_refl c) H).
Qed.

Lemma parse_missing_records (self : FunctionParser.t) (remaining : list SchemaField.t)
    (data : list (string * Value)) (excluded_keys : list string) :
  forall result c,
    In f remaining ->
    SchemaField.is_required f c = true ->
    FunctionParser.non_positional self f = true ->
    FunctionParser.key_in (SchemaField.attname f) excluded_keys = false ->
    FunctionParser.supplied self data f = false ->
    match FunctionParser.parse_missing self remaining data excluded_keys result c with
    | Runtime.Ok _ c' => In (AbsenceError (SchemaField.attname f)) (Runtime.errors c')
    | Runtime.Raise e c' => Runtime.collect_errors c = false
    end.
Proof.
  induction remaining as [|g rest IH]; intros result c Hin Hreq Hnp Hkey Hsup; [destruct Hin|].
  assert (Hagg : forall res c1, Runtime.collect_errors c1 = true ->
            exists r c', FunctionParser.parse_missing self rest data excluded_keys res c1
                         = Runtime.Ok r c').
  { clear. induction rest as [|h rest IH]; intros res c1 Hc; simpl; [eauto|].
    destruct (_ || _ || _); [apply IH; exact Hc|].
    unfold Runtime.bind, Runtime.ask. destruct (SchemaField.is_required h c1).
    - unfold Runtime.handle_error. rewrite Hc. simpl. apply IH. exact Hc.
    - destruct (negb _); apply IH; exact Hc. }
  simpl.
  destruct (negb (FunctionParser.non_positional self g)
            || FunctionParser.key_in (SchemaField.attname g) excluded_keys
            || FunctionParser.supplied self data g) eqn:Hskip.
  - destruct Hin as [-> | Hin]; [rewrite Hnp, Hkey, Hsup in Hskip; discriminate|].
    apply IH; assumption.
  - unfold Runtime.bind, Runtime.ask.
    destruct (SchemaField.is_required g c) eqn:Hgreq.
    + unfold Runtime.handle_error. simpl.
      destruct (Runtime.collect_errors c) eqn:Hc; simpl; [|reflexivity].
      set (c1 := Runtime.with_errors c
                   (Runtime.errors c ++ [AbsenceError (SchemaField.attname g)])).
      destruct Hin as [-> | Hin].
      * destruct (Hagg result c1 Hc) as (r & c' & Hok). rewrite Hok.
        pose proof (tame_steady _ (tame_parse_missing self rest data excluded_keys result) c1)
          as Hst.
        rewrite Hok in Hst. apply (extends_errors _ _ _ Hst).
        subst c1. simpl. apply in_or_app. right. left. reflexivity.
      * specialize (IH result c1 Hin Hreq Hnp Hkey Hsup).
        destruct (FunctionParser.parse_missing self rest data excluded_keys result c1);
          [exact IH|].
        subst c1. simpl in IH. congruence.
    + destruct Hin as [-> | Hin]; [congruence|].
      destruct (negb (unprovided _)); apply IH; assumption.
Qed.

End Absence.

Lemma raise_error_raises (c : Runtime.Context) (e : Exn) :
  In e (Runtime.errors c) ->
  Runtime.raise_error c = Runtime.Raise (CollectedParseError (Runtime.errors c)) c.
Proof.
  unfold Runtime.raise_error. destruct (Runtime.errors c); [intros []|reflexivity].
Qed.

Lemma parse_args_keys (self : FunctionParser.t) (args : list Value) :
  forall i parsed_args parsed_keys c r c',
    FunctionParser.parse_args self i args parsed_args parsed_keys c = Runtime.Ok r c' ->
    forall k, In k (snd r) ->
      In k parsed_keys
      \/ exists j g, i <= j < i + length args
                     /\ FunctionParser.index_lookup (FunctionParser.positional_fields self) j
                        = Some g
                     /\ SchemaField.attname g = k.
Proof.
  induction args as [|arg rest IH]; intros i pa pk c r c' H k Hk; simpl in H.
  - injection H as <- _. left. exact Hk.
  - assert (Hlift : forall pa' pk' c1,
              FunctionParser.parse_args self (S i) rest pa' pk' c1 = Runtime.Ok r c' ->
              In k pk'
              \/ exists j g, i <= j < i + length (arg :: rest)
                             /\ FunctionParser.index_lookup
                                  (FunctionParser.positional_fields self) j = Some g
                             /\ SchemaField.attname g = k).
    { intros pa' pk' c1 H1.
      destruct (IH _ _ _ _ _ _ H1 k Hk) as [Hin | (j & g & Hj & Hl & Ha)]; [left; exact Hin|].
      right. exists j, g. split; [simpl; lia|]. auto. }
    destruct (FunctionParser.in_pos_var self i).
    + unfold Runtime.bind in H.
      destruct (FunctionParser.parse_pos_type self i arg c) as [a c1|]; [|discriminate].
      destruct (unprovided a); apply (Hlift _ _ _ H).
    + destruct (FunctionParser.index_lookup _ i) as [field|] eqn:Hfield;
        [|apply (Hlift _ _ _ H)].
      unfold Runtime.bind, Runtime.ask in H.
      destruct (SchemaField.no_input field arg c).
      * destruct (unprovided _); apply (Hlift _ _ _ H).
      * destruct (SchemaField.parse_value field arg c) as [a c1|]; [|discriminate].
        assert (Hx : In k (pk ++ [SchemaField.attname field])
                     \/ exists j g, i <= j < i + length (arg :: rest)
                                    /\ FunctionParser.index_lookup
                                         (FunctionParser.positional_fields self) j = Some g
                                    /\ SchemaField.attname g = k).
        { destruct (unprovided a); apply (Hlift _ _ _ H). }
        destruct Hx as [Hin | Hx]; [|right; exact Hx].
        apply in_app_or in Hin. destruct Hin as [Hin | [<- | []]]; [left; exact Hin|].
        right. exists i, field. split; [simpl; lia|]. auto.
Qed.

Lemma positional_only_from_fields (self : FunctionParser.t) (keys : list string) :
  forall i j g, In (j, g) (FunctionParser.positional_only_from self i keys) ->
                In g (FunctionParser.fields self).
Proof.
  induction keys as [|key rest IH]; intros i j g Hin; simpl in Hin; [destruct Hin|].
  destruct (FunctionParser.get_field self key) as [field|] eqn:Hf.
  - destruct Hin as [Heq | Hin]; [|eapply IH; exact Hin].
    injection Heq as _ <-. unfold FunctionParser.get_field in Hf.
    apply find_some in Hf. apply Hf.
  - eapply IH; exact Hin.
Qed.

Lemma parse_params_tail
    (parse_data : FunctionParser.t -> list (string * Value) -> list string ->
                  Runtime.M (list (string * Value)))
    (self : FunctionParser.t) (kwargs : list (string * Value))
    (step2 : list Value * list string) (c2 : Runtime.Context) (ae : Exn) :
  steady (parse_data self kwargs (snd step2)) ->
  In ae (Runtime.errors c2) ->
  exists e c',
    (parsed_kwargs <- parse_data self kwargs (snd step2) ;;
     Runtime.raise_error ;;; Runtime.ret (fst step2, parsed_kwargs)) c2
    = Runtime.Raise e c'
    /\ In ae (Runtime.errors c').
Proof.
  intros Hst Hin. unfold Runtime.bind. specialize (Hst c2).
  destruct (parse_data self kwargs (snd step2) c2) as [pk c3|e c3].
  - pose proof (extends_errors _ _ _ Hst Hin) as Hin3.
    rewrite (raise_error_raises _ _ Hin3). eauto.
  - pose proof (extends_errors _ _ _ Hst Hin) as Hin3. eauto.
Qed.

Lemma not_given_key (self : FunctionParser.t) (args : list Value) (f : SchemaField.t)
    (c c1 : Runtime.Context) (r : list Value * list string) :
  not_given_positionally self args f ->
  FunctionParser.parse_args self 0 args [] [] c = Runtime.Ok r c1 ->
  FunctionParser.key_in (SchemaField.attname f) (snd r) = false.
Proof.
  intros Hpos H1.
  destruct (FunctionParser.key_in (SchemaField.attname f) (snd r)) eqn:Hk; [|reflexivity].
  apply key_in_In in Hk.
  destruct (parse_args_keys self args _ _ _ _ _ _ H1 _ Hk) as [[] | (j & g & Hj & Hl & Ha)].
  exfalso. apply (Hpos j g); [lia|exact Hl|exact Ha].
Qed.

Lemma key_in_prefix (k x : string) (l : list string) :
  FunctionParser.key_in k (l ++ [x]) = false -> FunctionParser.key_in k l = false.
Proof.
  unfold FunctionParser.key_in. rewrite existsb_app. intros H.
  apply orb_false_iff in H. apply H.
Qed.

Lemma fill_raises_at_once (f : SchemaField.t) (pos_only : list (nat * SchemaField.t)) :
  forall parsed_args parsed_keys c idx,
    Runtime.collect_errors c = false ->
    (forall j g, In (j, g) pos_only ->
                 SchemaField.attname g = SchemaField.attname f -> g = f) ->
    (forall j g, In (j, g) pos_only -> SchemaField.is_required g c = true ->
                 FunctionParser.key_in (SchemaField.attname g) parsed_keys = false -> g = f) ->
    In (idx, f) pos_only ->
    SchemaField.is_required f c = true ->
    FunctionParser.key_in (SchemaField.attname f) parsed_keys = false ->
    FunctionParser.fill_positional_only pos_only parsed_args parsed_keys c
    = Runtime.Raise (AbsenceError (SchemaField.attname f)) c.
Proof.
  induction pos_only as [|[j g] rest IH]; intros pa pk c idx Hc Huniq Honly Hin Hreq Hkey;
    [destruct Hin|].
  assert (Hrest : forall j' g', In (j', g') rest ->
                    SchemaField.attname g' = SchemaField.attname f -> g' = f).
  { intros j' g' Hg. apply (Huniq j' g'). right. exact Hg. }
  simpl. destruct (FunctionParser.key_in (SchemaField.attname g) pk) eqn:Hg.
  - destruct Hin as [Heq | Hin]; [injection Heq as -> ->; congruence|].
    apply (IH _ _ _ idx); try assumption.
    intros j' g' Hg'. apply (Honly j' g'). right. exact Hg'.
  - unfold Runtime.bind, Runtime.ask.
    destruct (SchemaField.is_required g c) eqn:Hgreq.
    + rewrite (Honly j g (or_introl eq_refl) Hgreq Hg).
      unfold Runtime.handle_error. rewrite Hc. reflexivity.
    + assert (Hne : SchemaField.attname g <> SchemaField.attname f).
      { intros Heq. rewrite (Huniq j g (or_introl eq_refl) Heq) in Hgreq. congruence. }
      destruct Hin as [Heq | Hin]; [injection Heq as -> ->; congruence|].
      destruct (negb (unprovided _)).
      * apply (IH _ _ _ idx); try assumption.
        -- intros j' g' Hg' Hr' Hk'. apply (Honly j' g'); [right; exact Hg'|exact Hr'|].
           eapply key_in_prefix. exact Hk'.
        -- apply key_in_snoc; assumption.
      * apply (IH _ _ _ idx); try assumption.
        intros j' g' Hg'. apply (Honly j' g'). right. exact Hg'.
Qed.

Lemma positional_only_absence_at_once
    (parse_data : FunctionParser.t -> list (string * Value) -> list string ->
                  Runtime.M (list (string * Value)))
    (self : FunctionParser.t) (args : list Value) (kwargs : list (string * Value))
    (c c1 : Runtime.Context) (f : SchemaField.t) (idx : nat)
    (step1 : list Value * list string) :
  SchemaField.is_required f c = true ->
  not_given_positionally self args f ->
  own_attname self f ->
  In (idx, f) (FunctionParser.positional_only_fields self) ->
  Runtime.collect_errors c = false ->
  FunctionParser.parse_args self 0 args [] [] c = Runtime.Ok step1 c1 ->
  (forall j g, In (j, g) (FunctionParser.positional_only_fields self) ->
               SchemaField.is_required g c = true ->
               FunctionParser.key_in (SchemaField.attname g) (snd step1) = false -> g = f) ->
  FunctionParser.parse_params parse_data self args kwargs c
  = Runtime.Raise (AbsenceError (SchemaField.attname f)) c1.
Proof.
  intros Hreq Hpos Hown Hin Hc H1 Honly.
  pose proof (tame_parse_args self args 0 [] [] c) as Ht1. rewrite H1 in Ht1.
  unfold FunctionParser.parse_params. rewrite (bind_Ok _ _ _ _ _ H1).
  apply bind_Raise. apply (fill_raises_at_once f _ _ _ _ idx).
  - rewrite (extends_collect_errors _ _ Ht1). exact Hc.
  - intros j g Hg. apply Hown. eapply positional_only_from_fields. exact Hg.
  - intros j g Hg Hr. apply (Honly j g Hg).
    rewrite <- (extends_is_required _ _ _ Ht1). exact Hr.
  - exact Hin.
  - rewrite (extends_is_required _ _ _ Ht1). exact Hreq.
  - exact (not_given_key _ _ _ _ _ _ Hpos H1).
Qed.

Lemma positional_only_absence
    (parse_data : FunctionParser.t -> list (string * Value) -> list string ->
                  Runtime.M (list (string * Value)))
    (self : FunctionParser.t) (args : list Value) (kwargs : list (string * Value))
    (c : Runtime.Context) (f : SchemaField.t) (idx : nat) :
  SchemaField.is_required f c = true ->
  not_given_positionally self args f ->
  own_attname self f ->
  (forall s d ex, steady (parse_data s d ex)) ->
  In (idx, f) (FunctionParser.positional_only_fields self) ->
  absence_is_fatal parse_data self args kwargs c f.
Proof.
  intros Hreq Hpos Hown Hpd Hin.
  unfold absence_is_fatal, FunctionParser.parse_params.
  pose proof (tame_parse_args self args 0 [] [] c) as Ht1.
  destruct (FunctionParser.parse_args self 0 args [] [] c) as [r1 c1|e1 c1] eqn:H1.
  - rewrite (bind_Ok _ _ _ _ _ H1).
    pose proof (not_given_key _ _ _ _ _ _ Hpos H1) as Hkey.
    assert (Huniq : forall j g, In (j, g) (FunctionParser.positional_only_fields self) ->
                      SchemaField.attname g = SchemaField.attname f -> g = f).
    { intros j g Hg. apply Hown. eapply positional_only_from_fields. exact Hg. }
    assert (Hreq1 : SchemaField.is_required f c1 = true).
    { rewrite (extends_is_required _ _ _ Ht1). exact Hreq. }
    pose proof (fill_records f _ (fst r1) (snd r1) c1 idx Huniq Hin Hreq1 Hkey) as Hfill.
    destruct (FunctionParser.fill_positional_only
                (FunctionParser.positional_only_fields self) (fst r1) (snd r1) c1)
      as [r2 c2|e2 c2] eqn:H2.
    + rewrite (bind_Ok _ _ _ _ _ H2).
      destruct (parse_params_tail parse_data self kwargs r2 c2 _ (Hpd _ _ _) Hfill)
        as (e & c' & Htail & Hin').
      split; [exists e, c'; exact Htail|].
      intros Hc e0 c0 H0. rewrite Htail in H0. injection H0 as <- <-. right. exact Hin'.
    + rewrite (bind_Raise _ _ _ _ _ H2). split; [eauto|].
      intros Hc. rewrite <- (extends_collect_errors _ _ Ht1) in Hc. congruence.
  - rewrite (bind_Raise _ _ _ _ _ H1). split; [eauto|].
    intros Hc e c' H. injection H as <- <-. left. apply (proj2 Ht1). exact Hc.
Qed.

Lemma keyword_absence (self : FunctionParser.t) (args : list Value)
    (kwargs : list (string * Value)) (c : Runtime.Context) (f : SchemaField.t) :
  SchemaField.is_required f c = true ->
  not_given_positionally self args f ->
  own_attname self f ->
  In f (FunctionParser.fields self) ->
  FunctionParser.non_positional self f = true ->
  FunctionParser.supplied self kwargs f = false ->
  absence_is_fatal FunctionParser.parse_data self args kwargs c f.
Proof.
  intros Hreq Hpos Hown Hin Hnp Hsup.
  unfold absence_is_fatal, FunctionParser.parse_params.
  pose proof (tame_parse_args self args 0 [] [] c) as Ht1.
  destruct (FunctionParser.parse_args self 0 args [] [] c) as [r1 c1|e1 c1] eqn:H1.
  2: { rewrite (bind_Raise _ _ _ _ _ H1). split; [eauto|].
       intros Hc e c' H. injection H as <- <-. left. apply (proj2 Ht1). exact Hc. }
  rewrite (bind_Ok _ _ _ _ _ H1).
  pose proof (not_given_key _ _ _ _ _ _ Hpos H1) as Hkey1.
  pose proof (tame_fill_positional_only (FunctionParser.positional_only_fields self)
                (fst r1) (snd r1) c1) as Ht2.
  destruct (FunctionParser.fill_positional_only
              (FunctionParser.positional_only_fields self) (fst r1) (snd r1) c1)
    as [r2 c2|e2 c2] eqn:H2.
  2: { rewrite (bind_Raise _ _ _ _ _ H2). split; [eauto|].
       intros Hc e c' H. injection H as <- <-. left. apply (proj2 Ht2).
       rewrite (extends_collect_errors _ _ Ht1). exact Hc. }
  simpl in Ht2.
  rewrite (bind_Ok _ _ _ _ _ H2).
  assert (Hreq1 : SchemaField.is_required f c1 = true).
  { rewrite (extends_is_required _ _ _ Ht1). exact Hreq. }
  assert (Hkey2 : FunctionParser.key_in (SchemaField.attname f) (snd r2) = false).
  { destruct (FunctionParser.key_in (SchemaField.attname f) (snd r2)) eqn:Hk; [|reflexivity].
    apply key_in_In in Hk.
    destruct (fill_keys _ _ _ _ _ _ H2 _ Hk) as [Hk1 | (j & g & Hg & Ha & Hr)].
    - apply key_in_In in Hk1. congruence.
    - rewrite (Hown g (positional_only_from_fields _ _ _ _ _ Hg) Ha) in Hr. congruence. }
  unfold FunctionParser.parse_data.
  pose proof (tame_parse_supplied self kwargs (snd r2) [] c2) as Ht3.
  unfold Runtime.bind.
  destruct (FunctionParser.parse_supplied self kwargs (snd r2) [] c2) as [r3 c3|e3 c3] eqn:H3.
  2: { split; [eauto|].
       intros Hc e c' H. injection H as <- <-. left. apply (proj2 Ht3).
       rewrite (extends_collect_errors _ _ Ht2), (extends_collect_errors _ _ Ht1). exact Hc. }
  assert (Hreq3 : SchemaField.is_required f c3 = true).
  { rewrite (extends_is_required _ _ _ Ht3), (extends_is_required _ _ _ Ht2). exact Hreq1. }
  pose proof (parse_missing_records f self (FunctionParser.fields self) kwargs (snd r2)
                r3 c3 Hin Hreq3 Hnp Hkey2 Hsup) as Hmiss.
  destruct (FunctionParser.parse_missing self (FunctionParser.fields self) kwargs (snd r2) r3 c3)
    as [r4 c4|e4 c4] eqn:H4.
  - rewrite (raise_error_raises _ _ Hmiss).
    split; [eauto|]. intros Hc e c' H. injection H as <- <-. right. exact Hmiss.
  - split; [eauto|].
    intros Hc. rewrite <- (extends_collect_errors _ _ Ht1), <- (extends_collect_errors _ _ Ht2),
      <- (extends_collect_errors _ _ Ht3) in Hc. congruence.
Qed.

(** C5 (as amended): a field that is required under the call's options and
    absent from the call's input makes parameter parsing fail, whatever the
    error policy of the field or of the call: the call is aborted, and when
    the call aggregates its errors the AbsenceError of the field is among the
    errors it is aborted with; when it does not, the first error met aborts
    it, and that is the AbsenceError of the field when the field is the one
    absent required positional-only parameter of a call whose supplied
    arguments parse.  For a positional-only parameter this is the loop of
    [parse_params] over the positional-only fields, and it holds with any
    [parse_data] that leaves the error buffer alone; for the other fields it
    is [parse_data], which validates the keyword data against the
    non-positional fields. *)
Theorem required_absence_is_fatal (self : FunctionParser.t) (args : list Value)
    (kwargs : list (string * Value)) (c : Runtime.Context) (f : SchemaField.t) :
  SchemaField.is_required f c = true ->
  not_given_positionally self args f ->
  own_attname self f ->
  (forall parse_data idx,
     (forall s d ex, steady (parse_data s d ex)) ->
     In (idx, f) (FunctionParser.positional_only_fields self) ->
     absence_is_fatal parse_data self args kwargs c f)
  /\ (forall parse_data idx step1 c1,
        In (idx, f) (FunctionParser.positional_only_fields self) ->
        Runtime.collect_errors c = false ->
        FunctionParser.parse_args self 0 args [] [] c = Runtime.Ok step1 c1 ->
        (forall j g, In (j, g) (FunctionParser.positional_only_fields self) ->
                     SchemaField.is_required g c = true ->
                     FunctionParser.key_in (SchemaField.attname g) (snd step1) = false ->
                     g = f) ->
        FunctionParser.parse_params parse_data self args kwargs c
        = Runtime.Raise (AbsenceError (SchemaField.attname f)) c1)
  /\ (In f (FunctionParser.fields self) ->
      FunctionParser.non_positional self f = true ->
      FunctionParser.supplied self kwargs f = false ->
      absence_is_fatal FunctionParser.parse_data self args kwargs c f).
Proof.
  intros Hreq Hpos Hown. split; [|split].
  - intros parse_data idx Hpd Hin. eapply positional_only_absence; eassumption.
  - intros parse_data idx step1 c1 Hin Hc H1 Honly.
    eapply positional_only_absence_at_once; eassumption.
  - intros Hin Hnp Hsup. apply keyword_absence; assumption.
Qed.

Lemma sample_not_given (name : string) :
  name <> "a" ->
  not_given_positionally Sample.a_b_slash_k [VInt 1] (Sample.excluding name).
Proof.
  intros Hname i g Hi Hl. destruct i as [|i]; [|simpl in Hi; lia].
  vm_compute in Hl. injection Hl as <-. simpl. congruence.
Defined.

Lemma sample_own_attname (name : string) :
  name <> "a" ->
  (name = "b" \/ name = "k") ->
  own_attname Sample.a_b_slash_k (Sample.excluding name).
Proof.
  intros Ha Hname g Hin Hg. simpl in Hin.
  destruct Hin as [<- | [<- | [<- | []]]]; simpl in Hg.
  - congruence.
  - subst name. reflexivity.
  - subst name. reflexivity.
Defined.

Lemma required_absence_is_fatal_witness :
  absence_is_fatal FunctionParser.parse_data Sample.a_b_slash_k [VInt 1] []
    (Sample.context EXCLUDE true) (Sample.excluding "b")
  /\ absence_is_fatal FunctionParser.parse_data Sample.a_b_slash_k [VInt 1] []
       (Sample.context EXCLUDE true) (Sample.excluding "k")
  /\ FunctionParser.parse_params FunctionParser.parse_data Sample.a_b_slash_k [VInt 1] []
       (Sample.context EXCLUDE false)
     = Runtime.Raise (AbsenceError "b")
         (transformed_once (Sample.context EXCLUDE false) (VInt 1) Sample.int_type).
Proof.
  split; [|split].
  - refine (proj1 (required_absence_is_fatal Sample.a_b_slash_k [VInt 1] []
                     (Sample.context EXCLUDE true) (Sample.excluding "b") eq_refl
                     (sample_not_given "b" _) (sample_own_attname "b" _ _))
              FunctionParser.parse_data 1 _ _).
    + discriminate.
    + discriminate.
    + left. reflexivity.
    + intros s d ex. apply tame_steady. apply tame_parse_data.
    + right. left. reflexivity.
  - refine (proj2 (proj2 (required_absence_is_fatal Sample.a_b_slash_k [VInt 1] []
                     (Sample.context EXCLUDE true) (Sample.excluding "k") eq_refl
                     (sample_not_given "k" _) (sample_own_attname "k" _ _)))
              _ eq_refl eq_refl).
    + discriminate.
    + discriminate.
    + right. reflexivity.
    + right. right. left. reflexivity.
  - refine (proj1 (proj2 (required_absence_is_fatal Sample.a_b_slash_k [VInt 1] []
                     (Sample.context EXCLUDE false) (Sample.excluding "b") eq_refl
                     (sample_not_given "b" _) (sample_own_attname "b" _ _)))
              FunctionParser.parse_data 1 ([VInt 1], ["a"]) _ _ eq_refl eq_refl _).
    + discriminate.
    + discriminate.
    + left. reflexivity.
    + right. left. reflexivity.
    + intros j g [Heq | [Heq | []]] Hr Hk; injection Heq as <- <-.
      * discriminate Hk.
      * reflexivity.
Defined.

(** C5 (as stated) fails: a call that does not aggregate its errors is
    aborted by the first error it meets, and the absence of a required field
    that comes after it is never recorded.  In
    [def f(a: int, b: int = Field(on_error='exclude'), /, *, k: ...)] called
    as [f('x')], the required positional-only [b] is absent, and what is
    raised is the ParseError of [a], with nothing in the error buffer; called
    as [f()], where [a] and [b] are both absent, only the AbsenceError of [a]
    is raised. *)
Lemma required_absence_counterexample :
  SchemaField.is_required (Sample.excluding "b") (Sample.context THROW false) = true
  /\ FunctionParser.index_lookup (FunctionParser.positional_only_fields Sample.a_b_slash_k) 1
     = Some (Sample.excluding "b")
  /\ FunctionParser.parse_params FunctionParser.parse_data Sample.a_b_slash_k [VStr "x"] []
       (Sample.context THROW false)
     = Runtime.Raise
         (ParseError (ItemName "a") Sample.int_type (VStr "x")
            (CoercionError "invalid literal for int()"))
         (transformed_once (Sample.context THROW false) (VStr "x") Sample.int_type)
  /\ Runtime.errors
       (transformed_once (Sample.context THROW false) (VStr "x") Sample.int_type) = []
  /\ FunctionParser.parse_params FunctionParser.parse_data Sample.a_b_slash_k [] []
       (Sample.context THROW false)
     = Runtime.Raise (AbsenceError "a") (Sample.context THROW false)
  /\ Runtime.errors (Sample.context THROW false) = [].
Proof.
  split; [reflexivity|]. split; [reflexivity|]. split; [reflexivity|].
  split; [reflexivity|]. split; reflexivity.
Qed.

Lemma field_init_fails_iff_witness :
  exists e, Field.init Sample.reordered_tags = inl e.
Proof.
  apply (proj2 (field_init_fails_iff Sample.reordered_tags)).
  right. right. left. exists "wr". split; [reflexivity|]. split; reflexivity.
Defined.

(** ** Further evaluations *)

Example positional_only_out_of_order_raises :
  FunctionParser.validate_fields Sample.a_b1_c_positional
  = ([], Some (SyntaxError "f: non-default argument: 'c' follows default argument: 'b'")).
Proof. reflexivity. Qed.

Example positional_or_keyword_out_of_order_warns :
  FunctionParser.validate_fields Sample.a_b1_c_keyword
  = (["f: non-default argument: 'c' follows default argument: 'b'"], None).
Proof. reflexivity. Qed.

Example discriminator_needs_a_union :
  (exists e, SchemaField.validate_annotation "item" Sample.int_type
               (Sample.discriminating None) = inl (TypeError e))
  /\ (exists e, SchemaField.validate_annotation "item" Sample.all_of
                  (Sample.discriminating None) = inl (TypeError e)).
Proof. split; eexists; reflexivity. Qed.

Example discriminator_needs_tagged_members :
  (exists e, SchemaField.validate_annotation "item" Sample.untagged_member
               (Sample.discriminating None) = inl (ValueError e))
  /\ (exists e, SchemaField.validate_annotation "item" Sample.unconstant_member
                  (Sample.discriminating None) = inl (ValueError e))
  /\ (exists e, SchemaField.validate_annotation "item" Sample.duplicated_members
                  (Sample.discriminating None) = inl (ValueError e)).
Proof. split; [|split]; eexists; reflexivity. Qed.

Example generator_delivers_coerced_items :
  drives Sample.script_send Sample.int_generator 1
    (Generator.Created {| Sample.items := [VStr "3"; VStr "4"]; Sample.result := VInt 9 |})
    (Sample.context THROW false)
    [VNone; VNone] [VInt 3; VInt 4]
    (Generator.AtYield {| Sample.items := []; Sample.result := VInt 9 |} 1)
    (transformed_once
       (transformed_once (Sample.context THROW false) (VStr "3") Sample.int_type)
       (VStr "4") Sample.int_type).
Proof.
  eapply drives_cons; [reflexivity|].
  eapply drives_cons; [reflexivity|].
  apply drives_nil.
Qed.

(** * Further properties of the code *)

(** ** Durations on the wire *)

Lemma append_cons (c : ascii) (s t : string) : String c s +:+ t = String c (s +:+ t).
Proof. reflexivity. Qed.

Lemma append_nil_l (t : string) : "" +:+ t = t.
Proof. reflexivity. Qed.

Lemma append_nil_r (s : string) : s +:+ "" = s.
Proof. induction s as [|c s IH]; [reflexivity|]. rewrite append_cons, IH. reflexivity. Qed.

Lemma append_assoc (a b c : string) : (a +:+ b) +:+ c = a +:+ (b +:+ c).
Proof. induction a as [|x a IH]; [reflexivity|]. rewrite !append_cons, IH. reflexivity. Qed.

Lemma length_append (a b : string) :
  String.length (a +:+ b) = String.length a + String.length b.
Proof. induction a as [|x a IH]; [reflexivity|]. rewrite append_cons. simpl. rewrite IH. reflexivity. Qed.

Lemma append_inj_length (a b c d : string) :
  String.length a = String.length b -> a +:+ c = b +:+ d -> a = b /\ c = d.
Proof.
  revert b. induction a as [|x a IH]; intros [|y b] Hl H; try discriminate Hl.
  - split; [reflexivity|exact H].
  - rewrite !append_cons in H. injection H as -> H. injection Hl as Hl.
    destruct (IH _ Hl H) as [-> ->]. split; reflexivity.
Qed.

Lemma split_digits (a b : string) (x y : ascii) (r s : string) :
  all_digits a = true -> all_digits b = true ->
  is_digit x = false -> is_digit y = false ->
  a +:+ String x r = b +:+ String y s -> a = b /\ String x r = String y s.
Proof.
  intros Ha Hb Hx Hy. revert b Hb.
  induction a as [|c a IH]; intros [|d b] Hb H.
  - split; [reflexivity|exact H].
  - rewrite append_nil_l, append_cons in H. injection H as -> _.
    simpl in Hb. rewrite Hx in Hb. discriminate.
  - rewrite append_nil_l, append_cons in H. injection H as -> _.
    simpl in Ha. rewrite Hy in Ha. discriminate.
  - rewrite !append_cons in H. injection H as -> H.
    simpl in Ha, Hb. apply andb_prop in Ha as [_ Ha]. apply andb_prop in Hb as [_ Hb].
    destruct (IH Ha _ Hb H) as [-> ?]. split; [reflexivity|assumption].
Qed.

Lemma pretty_N_char_digit (x : N) : is_digit (pretty_N_char x) = true.
Proof. unfold pretty_N_char. repeat case_match; reflexivity. Qed.

Lemma pretty_N_go_digits (x : N) (s : string) :
  all_digits s = true -> all_digits (pretty_N_go x s) = true.
Proof.
  revert s. induction (N.lt_wf_0 x) as [x _ IH]; intros s Hs.
  destruct (decide (x = 0)%N) as [->|Hx]; [exact Hs|].
  rewrite pretty_N_go_step by lia. apply IH.
  - apply N.div_lt; lia.
  - simpl. rewrite pretty_N_char_digit. exact Hs.
Qed.

Lemma pretty_Z_digits (n : Z) : (0 <= n)%Z -> all_digits (pretty n) = true.
Proof.
  intros Hn. destruct n as [|p|p]; [reflexivity| |lia].
  unfold pretty, pretty_Z, pretty, pretty_positive, pretty, pretty_N.
  destruct (decide (N.pos p = 0%N)); [reflexivity|].
  apply pretty_N_go_digits. reflexivity.
Qed.

Lemma zeros_snoc (k : nat) (s : string) :
  Encode.zeros k +:+ String "0" s = String "0" (Encode.zeros k +:+ s).
Proof.
  induction k as [|k IH]; [reflexivity|].
  simpl Encode.zeros. rewrite !append_cons, IH. reflexivity.
Qed.

Lemma pretty_N_go_fixed_digits (k : nat) (x : N) (s : string) :
  (x < 10 ^ N.of_nat k)%N ->
  exists j, j <= k
    /\ String.length (pretty_N_go x s) = j + String.length s
    /\ fixed_digits k x s = Encode.zeros (k - j) +:+ pretty_N_go x s.
Proof.
  revert x s. induction k as [|k IH]; intros x s Hx.
  - assert (x = 0%N) as -> by (simpl in Hx; lia).
    exists 0. rewrite pretty_N_go_0. repeat split; reflexivity.
  - destruct (decide (x = 0)%N) as [->|Hne].
    + destruct (IH 0%N (String "0" s)) as (j & Hj & Hl & Hf).
      { apply N.neq_0_lt_0. apply N.pow_nonzero. lia. }
      rewrite pretty_N_go_0 in Hl, Hf. simpl in Hl.
      assert (j = 0) as -> by lia.
      exists 0. rewrite pretty_N_go_0. split; [lia|]. split; [reflexivity|].
      simpl fixed_digits. change (0 / 10)%N with 0%N. change (pretty_N_char (0 mod 10)) with "0"%char.
      rewrite Hf. rewrite Nat.sub_0_r. rewrite zeros_snoc. reflexivity.
    + assert (Hdiv : (x / 10 < 10 ^ N.of_nat k)%N).
      { apply N.Div0.div_lt_upper_bound.
        replace (N.of_nat (S k)) with (N.succ (N.of_nat k)) in Hx by lia.
        rewrite N.pow_succ_r' in Hx. exact Hx. }
      destruct (IH (x / 10)%N (String (pretty_N_char (x mod 10)) s) Hdiv) as (j & Hj & Hl & Hf).
      exists (S j). rewrite pretty_N_go_step by lia.
      split; [lia|]. split; [rewrite Hl; simpl; lia|].
      simpl fixed_digits. rewrite Hf. reflexivity.
Qed.

Lemma fixed_digits_length (w : nat) (x : N) (s : string) :
  String.length (fixed_digits w x s) = w + String.length s.
Proof.
  revert x s. induction w as [|w IH]; intros x s; [reflexivity|].
  simpl fixed_digits. rewrite IH. simpl. lia.
Qed.

Lemma fixed_digits_app (w : nat) (x : N) (s : string) : fixed_digits w x s = fixed_digits w x "" +:+ s.
Proof.
  revert x s. induction w as [|w IH]; intros x s; [reflexivity|].
  simpl fixed_digits. rewrite IH. rewrite (IH _ (String _ "")).
  rewrite append_assoc. reflexivity.
Qed.

Lemma fixed_digits_inj (w : nat) (x y : N) (s t : string) :
  (x < 10 ^ N.of_nat w)%N -> (y < 10 ^ N.of_nat w)%N ->
  String.length s = String.length t ->
  fixed_digits w x s = fixed_digits w y t -> x = y /\ s = t.
Proof.
  revert x y s t. induction w as [|w IH]; intros x y s t Hx Hy Hl H.
  - simpl in Hx, Hy. split; [lia|exact H].
  - replace (N.of_nat (S w)) with (N.succ (N.of_nat w)) in Hx, Hy by lia.
    rewrite N.pow_succ_r' in Hx, Hy.
    simpl fixed_digits in H. apply IH in H.
    + destruct H as [Hd Hs]. injection Hs as Hc ->.
      apply pretty_N_char_inj in Hc; [|apply N.mod_lt; lia..].
      split; [|reflexivity].
      rewrite (N.div_mod x 10), (N.div_mod y 10) by lia. lia.
    + apply N.Div0.div_lt_upper_bound. exact Hx.
    + apply N.Div0.div_lt_upper_bound. exact Hy.
    + simpl. lia.
Qed.

Lemma format_0d_fixed_digits (w : nat) (n : Z) :
  1 <= w -> (0 <= n < 10 ^ Z.of_nat w)%Z ->
  Encode.format_0d w n = fixed_digits w (Z.to_N n) "".
Proof.
  intros Hw Hn. unfold Encode.format_0d.
  assert ((n <? 0)%Z = false) as -> by lia.
  rewrite append_nil_l. rewrite Z.abs_eq by lia. simpl String.length. rewrite Nat.sub_0_r.
  assert (Hlt : (Z.to_N n < 10 ^ N.of_nat w)%N).
  { apply N2Z.inj_lt. rewrite N2Z.inj_pow, Z2N.id by lia.
    rewrite nat_N_Z. simpl. lia. }
  destruct (pretty_N_go_fixed_digits w (Z.to_N n) "" Hlt) as (j & Hj & Hl & Hf).
  rewrite Hf. destruct n as [|p|p]; [| |lia].
  - simpl Z.to_N. rewrite pretty_N_go_0 in *. simpl in Hl. assert (j = 0) as -> by lia.
    change (pretty 0%Z) with "0". simpl String.length.
    destruct w as [|w]; [lia|]. simpl. rewrite Nat.sub_0_r.
    rewrite zeros_snoc. reflexivity.
  - simpl Z.to_N in *. 
    assert (Hp : pretty (Z.pos p) = pretty_N_go (N.pos p) "").
    { unfold pretty at 1, pretty_Z, pretty, pretty_positive, pretty, pretty_N.
      destruct (decide (N.pos p = 0%N)); [discriminate|reflexivity]. }
    rewrite Hp, Hl. simpl. rewrite Nat.add_0_r. reflexivity.
Qed.

Lemma ltb_zero_days (d : Encode.timedelta) :
  Encode.normalised d -> Encode.ltb d Encode.zero = (Encode.days d <? 0)%Z.
Proof.
  intros (_ & Hs & Hus). unfold Encode.ltb, Encode.zero. simpl.
  destruct (Encode.days d <? 0)%Z eqn:Hd; [reflexivity|]. simpl.
  destruct (Encode.days d =? 0)%Z; [|reflexivity]. simpl.
  assert ((Encode.seconds d <? 0)%Z = false) as -> by lia.
  assert ((Encode.microseconds d <? 0)%Z = false) as -> by lia.
  rewrite andb_false_r. reflexivity.
Qed.

Lemma total_microseconds_inj (a b : Encode.timedelta) :
  Encode.normalised a -> Encode.normalised b -> total_microseconds a = total_microseconds b -> a = b.
Proof.
  destruct a as [d1 s1 u1], b as [d2 s2 u2]. unfold Encode.normalised, total_microseconds. simpl.
  intros (_ & Hs1 & Hu1) (_ & Hs2 & Hu2) H.
  assert (u1 = u2) by lia. assert (s1 = s2) by lia. assert (d1 = d2) by lia.
  congruence.
Qed.

Lemma magnitude_spec (d : Encode.timedelta) :
  Encode.normalised d ->
  exists a, magnitude d = Some a
    /\ Encode.normalised a /\ (0 <= Encode.days a)%Z
    /\ total_microseconds d = (if Encode.ltb d Encode.zero then - total_microseconds a else total_microseconds a)%Z.
Proof.
  intros Hn. unfold magnitude. rewrite (ltb_zero_days d Hn).
  destruct Hn as (Hd & Hs & Hus).
  destruct (Encode.days d <? 0)%Z eqn:Hneg.
  - unfold Encode.mul, Encode.make.
    set (s1 := (Encode.seconds d * -1 + Encode.microseconds d * -1 / 1000000)%Z).
    set (d1 := (Encode.days d * -1 + s1 / 86400)%Z).
    assert (Hs1 : (-86400 <= s1 <= 0)%Z).
    { unfold s1. pose proof (Z.div_mod (Encode.microseconds d * -1) 1000000 ltac:(lia)).
      pose proof (Z.mod_pos_bound (Encode.microseconds d * -1) 1000000 ltac:(lia)). lia. }
    assert (Hd1 : (0 <= d1 <= 999999999)%Z).
    { unfold d1. pose proof (Z.div_mod s1 86400 ltac:(lia)).
      pose proof (Z.mod_pos_bound s1 86400 ltac:(lia)). lia. }
    assert ((999999999 <? Z.abs d1)%Z = false) as -> by lia.
    eexists. split; [reflexivity|]. unfold Encode.normalised, total_microseconds. simpl.
    pose proof (Z.div_mod (Encode.microseconds d * -1) 1000000 ltac:(lia)).
    pose proof (Z.mod_pos_bound (Encode.microseconds d * -1) 1000000 ltac:(lia)).
    pose proof (Z.div_mod s1 86400 ltac:(lia)).
    pose proof (Z.mod_pos_bound s1 86400 ltac:(lia)).
    fold s1. fold d1. unfold d1 in *. unfold s1 in *. 
    repeat split; lia.
  - exists d. split; [reflexivity|]. unfold Encode.normalised. repeat split; lia.
Qed.

Lemma duration_iso_string_render (d a : Encode.timedelta) :
  Encode.normalised a -> magnitude d = Some a ->
  Encode.duration_iso_string d = Some (render_duration (Encode.ltb d Encode.zero) a).
Proof.
  intros (Hd & Hs & Hus) Hm. unfold Encode.duration_iso_string. unfold magnitude in Hm.
  rewrite Hm. unfold render_duration. 
  rewrite !format_0d_fixed_digits.
  - destruct (Encode.microseconds a =? 0)%Z; rewrite ?append_assoc; reflexivity.
  - lia.
  - simpl. lia.
  - lia.
  - pose proof (Z.mod_pos_bound (Encode.seconds a) 60 ltac:(lia)). simpl; lia.
  - lia.
  - pose proof (Z.mod_pos_bound (Encode.seconds a / 60) 60 ltac:(lia)). simpl; lia.
  - lia.
  - pose proof (Z.div_mod (Encode.seconds a) 60 ltac:(lia)).
    pose proof (Z.mod_pos_bound (Encode.seconds a) 60 ltac:(lia)).
    pose proof (Z.div_mod (Encode.seconds a / 60) 60 ltac:(lia)).
    pose proof (Z.mod_pos_bound (Encode.seconds a / 60) 60 ltac:(lia)).
    simpl. lia.
Qed.

Lemma String_tail (c d : ascii) (r s : string) : String c r = String d s -> r = s.
Proof. intros H. injection H as _ H. exact H. Qed.

Lemma fixed_digits_split (w : nat) (x y : N) (r s : string) :
  (x < 10 ^ N.of_nat w)%N -> (y < 10 ^ N.of_nat w)%N ->
  fixed_digits w x "" +:+ r = fixed_digits w y "" +:+ s -> x = y /\ r = s.
Proof.
  intros Hx Hy H. apply append_inj_length in H; [|rewrite !fixed_digits_length; reflexivity].
  destruct H as [H ->]. apply fixed_digits_inj in H; [tauto|assumption..|reflexivity].
Qed.

Lemma render_duration_inj (n1 n2 : bool) (a b : Encode.timedelta) :
  Encode.normalised a -> Encode.normalised b ->
  (0 <= Encode.days a)%Z -> (0 <= Encode.days b)%Z ->
  render_duration n1 a = render_duration n2 b -> n1 = n2 /\ a = b.
Proof.
  intros (Hda & Hsa & Hua) (Hdb & Hsb & Hub) Hpa Hpb H. unfold render_duration in H.
  assert (Hn : n1 = n2).
  { destruct n1, n2; try reflexivity; rewrite ?append_cons, ?append_nil_l in H; discriminate. }
  subst n2. split; [reflexivity|].
  apply String.app_inj in H. apply String_tail in H.
  apply split_digits in H; [|apply pretty_Z_digits; assumption..|reflexivity|reflexivity].
  destruct H as [Hdays H]. apply (inj pretty) in Hdays. do 2 apply String_tail in H.
  pose proof (Z.div_mod (Encode.seconds a) 60 ltac:(lia)) as Ea1.
  pose proof (Z.mod_pos_bound (Encode.seconds a) 60 ltac:(lia)) as Ea2.
  pose proof (Z.div_mod (Encode.seconds a / 60) 60 ltac:(lia)) as Ea3.
  pose proof (Z.mod_pos_bound (Encode.seconds a / 60) 60 ltac:(lia)) as Ea4.
  pose proof (Z.div_mod (Encode.seconds b) 60 ltac:(lia)) as Eb1.
  pose proof (Z.mod_pos_bound (Encode.seconds b) 60 ltac:(lia)) as Eb2.
  pose proof (Z.div_mod (Encode.seconds b / 60) 60 ltac:(lia)) as Eb3.
  pose proof (Z.mod_pos_bound (Encode.seconds b / 60) 60 ltac:(lia)) as Eb4.
  apply fixed_digits_split in H; [|simpl; lia..]. destruct H as [Hh H]. apply String_tail in H.
  apply fixed_digits_split in H; [|simpl; lia..]. destruct H as [Hm H]. apply String_tail in H.
  apply fixed_digits_split in H; [|simpl; lia..]. destruct H as [Hs H].
  assert (Hus : Encode.microseconds a = Encode.microseconds b).
  { destruct (Encode.microseconds a =? 0)%Z eqn:Ha, (Encode.microseconds b =? 0)%Z eqn:Hb;
      try discriminate H.
    - lia.
    - apply String_tail in H. apply fixed_digits_split in H; [|simpl; lia..]. lia. }
  destruct a as [d1 s1 u1], b as [d2 s2 u2]; simpl in *.
  assert (s1 = s2) by lia. congruence.
Qed.

Lemma ltb_total_microseconds (a b : Encode.timedelta) :
  Encode.normalised a -> Encode.normalised b ->
  Encode.ltb a b = true <-> (total_microseconds a < total_microseconds b)%Z.
Proof.
  intros (_ & Hsa & Hua) (_ & Hsb & Hub). unfold Encode.ltb, total_microseconds.
  rewrite !orb_true_iff, !andb_true_iff, !Z.ltb_lt, !Z.eqb_eq. lia.
Qed.

Lemma make_spec (d s us : Z) (r : Encode.timedelta) :
  Encode.make d s us = Some r ->
  Encode.normalised r /\ total_microseconds r = ((d * 86400 + s) * 1000000 + us)%Z.
Proof.
  unfold Encode.make.
  set (s1 := (s + us / 1000000)%Z). set (d1 := (d + s1 / 86400)%Z).
  destruct (999999999 <? Z.abs d1)%Z eqn:Hab; [discriminate|].
  intros H. injection H as <-. unfold Encode.normalised, total_microseconds. simpl.
  pose proof (Z.div_mod us 1000000 ltac:(lia)).
  pose proof (Z.mod_pos_bound us 1000000 ltac:(lia)).
  pose proof (Z.div_mod s1 86400 ltac:(lia)).
  pose proof (Z.mod_pos_bound s1 86400 ltac:(lia)).
  unfold d1, s1 in *. repeat split; lia.
Qed.

(** X1: [duration_iso_string] never fails on a timedelta, and it tells any
    two timedeltas apart: equal texts come from equal durations. *)
Theorem duration_iso_string_injective (d1 d2 : Encode.timedelta) :
  Encode.normalised d1 -> Encode.normalised d2 ->
  (exists s, Encode.duration_iso_string d1 = Some s)
  /\ (Encode.duration_iso_string d1 = Encode.duration_iso_string d2 -> d1 = d2).
Proof.
  intros H1 H2.
  destruct (magnitude_spec d1 H1) as (a1 & Hm1 & Hn1 & Hp1 & Ht1).
  destruct (magnitude_spec d2 H2) as (a2 & Hm2 & Hn2 & Hp2 & Ht2).
  rewrite (duration_iso_string_render d1 a1 Hn1 Hm1), (duration_iso_string_render d2 a2 Hn2 Hm2).
  split; [eauto|].
  intros H. injection H as H.
  apply render_duration_inj in H; [|assumption..]. destruct H as [Hs ->].
  apply total_microseconds_inj; [assumption..|]. rewrite Ht1, Ht2, Hs. reflexivity.
Qed.

Lemma duration_iso_string_injective_witness :
  (exists s, Encode.duration_iso_string
               {| Encode.days := -1; Encode.seconds := 86399; Encode.microseconds := 500 |}
             = Some s)
  /\ (Encode.duration_iso_string
        {| Encode.days := -1; Encode.seconds := 86399; Encode.microseconds := 500 |}
      = Encode.duration_iso_string
          {| Encode.days := 0; Encode.seconds := 0; Encode.microseconds := 999500 |} ->
      {| Encode.days := -1; Encode.seconds := 86399; Encode.microseconds := 500 |}
      = {| Encode.days := 0; Encode.seconds := 0; Encode.microseconds := 999500 |}).
Proof.
  apply duration_iso_string_injective; unfold Encode.normalised; simpl; lia.
Defined.

(** X2: the text of the negation of a positive duration is the text of the
    duration with a minus sign in front, whenever the negation exists as a
    timedelta. *)
Theorem duration_iso_string_negation (d nd : Encode.timedelta) :
  Encode.normalised d ->
  Encode.ltb Encode.zero d = true ->
  Encode.mul d (-1) = Some nd ->
  exists s, Encode.duration_iso_string d = Some s
            /\ Encode.duration_iso_string nd = Some ("-" +:+ s).
Proof.
  intros Hn Hpos Hmul.
  destruct (make_spec _ _ _ _ Hmul) as [Hnn Htn].
  assert (Htot : total_microseconds nd = (- total_microseconds d)%Z) by (rewrite Htn; unfold total_microseconds; lia).
  assert (Hd : (0 < total_microseconds d)%Z).
  { apply (ltb_total_microseconds Encode.zero d) in Hpos; [exact Hpos| |exact Hn].
    unfold Encode.normalised. simpl. lia. }
  assert (Hneg : Encode.ltb nd Encode.zero = true).
  { rewrite (ltb_zero_days nd Hnn). destruct Hnn as (? & ? & ?). unfold total_microseconds in *. lia. }
  assert (Hnonneg : Encode.ltb d Encode.zero = false).
  { rewrite (ltb_zero_days d Hn). destruct Hn as (? & ? & ?). unfold total_microseconds in *. lia. }
  destruct (magnitude_spec nd Hnn) as (a & Hma & Hna & Hpa & Hta).
  rewrite Hneg in Hta.
  assert (a = d) as -> by (apply total_microseconds_inj; [assumption..|lia]).
  exists (render_duration false d). split.
  - rewrite (duration_iso_string_render d d Hn); [rewrite Hnonneg; reflexivity|].
    unfold magnitude. rewrite Hnonneg. reflexivity.
  - rewrite (duration_iso_string_render nd d Hn Hma), Hneg. reflexivity.
Qed.

Lemma duration_iso_string_negation_witness :
  exists s,
    Encode.duration_iso_string
      {| Encode.days := 0; Encode.seconds := 1; Encode.microseconds := 0 |} = Some s
    /\ Encode.duration_iso_string
         {| Encode.days := -1; Encode.seconds := 86399; Encode.microseconds := 0 |}
       = Some ("-" +:+ s).
Proof.
  apply (duration_iso_string_negation
           {| Encode.days := 0; Encode.seconds := 1; Encode.microseconds := 0 |}
           {| Encode.days := -1; Encode.seconds := 86399; Encode.microseconds := 0 |}).
  - unfold Encode.normalised; simpl; lia.
  - reflexivity.
  - reflexivity.
Defined.

(** X3: for a time with a microsecond part, [from_time] answers twelve
    characters, [HH:MM:SS.mmm]: the microseconds are cut down to whole
    milliseconds and the UTC offset of the time is lost; a time without
    microsecond part keeps its whole text, UTC offset included. *)
Theorem from_time_cuts_to_milliseconds (t : Encode.time) :
  Encode.time_valid t ->
  (Encode.microsecond t <> 0%Z ->
   Encode.from_time t
   = Encode.format_0d 2 (Encode.hour t) +:+ ":" +:+ Encode.format_0d 2 (Encode.minute t)
     +:+ ":" +:+ Encode.format_0d 2 (Encode.second t)
     +:+ "." +:+ Encode.format_0d 3 (Encode.microsecond t / 1000))
  /\ (Encode.microsecond t = 0%Z ->
      Encode.from_time t
      = Encode.format_0d 2 (Encode.hour t) +:+ ":" +:+ Encode.format_0d 2 (Encode.minute t)
        +:+ ":" +:+ Encode.format_0d 2 (Encode.second t) +:+ Encode.tzstr t).
Proof.
  intros (Hh & Hm & Hs & Hu). unfold Encode.from_time, Encode.time_isoformat. split.
  - intros Hne. assert ((Encode.microsecond t =? 0)%Z = false) as -> by lia. simpl negb.
    cbv iota.
    assert (Hms : (0 <= Encode.microsecond t / 1000 < 1000)%Z).
    { pose proof (Z.div_mod (Encode.microsecond t) 1000 ltac:(lia)).
      pose proof (Z.mod_pos_bound (Encode.microsecond t) 1000 ltac:(lia)). lia. }
    rewrite !format_0d_fixed_digits by (simpl; lia).
    assert (Hdiv : Z.to_N (Encode.microsecond t / 1000)
                   = (Z.to_N (Encode.microsecond t) / 10 / 10 / 10)%N).
    { rewrite Z2N.inj_div by lia. rewrite !N.Div0.div_div. reflexivity. }
    rewrite Hdiv. reflexivity.
  - intros ->. simpl. reflexivity.
Qed.

Lemma from_time_cuts_to_milliseconds_witness :
  Encode.from_time {| Encode.hour := 9; Encode.minute := 5; Encode.second := 7;
                      Encode.microsecond := 123456; Encode.tzstr := "+02:00" |}
  = Encode.format_0d 2 9 +:+ ":" +:+ Encode.format_0d 2 5 +:+ ":" +:+ Encode.format_0d 2 7
    +:+ "." +:+ Encode.format_0d 3 (123456 / 1000).
Proof.
  apply (from_time_cuts_to_milliseconds
           {| Encode.hour := 9; Encode.minute := 5; Encode.second := 7;
              Encode.microsecond := 123456; Encode.tzstr := "+02:00" |}).
  - unfold Encode.time_valid. simpl. lia.
  - discriminate.
Defined.

(** ** Fields *)

(** X4: a Field that was given a default, or that is marked deprecated, is
    never required: whatever was passed as [required] and whatever the
    runtime options are, [is_required] answers False for it. *)
Theorem defaulted_field_never_required (a : Field.Args) (f : Field.t)
    (self : SchemaField.t) (options : Runtime.Context) :
  Field.init a = inr f ->
  SchemaField.field self = f ->
  is_Some (Field.arg_default a) \/ deprecated_truthy (Field.arg_deprecated a) = true ->
  Field.required f = ReqBool false /\ SchemaField.is_required self options = false.
Proof.
  intros Hinit Hf Hd.
  assert (Hr : Field.required f = ReqBool false).
  { unfold Field.init in Hinit.
    destruct (truthy_str (Field.arg_mode a)
              && (truthy_flag (Field.arg_readonly a) || truthy_flag (Field.arg_writeonly a)));
      [discriminate|].
    destruct (truthy_flag (Field.arg_readonly a) && truthy_flag (Field.arg_writeonly a));
      [discriminate|].
    destruct (Field.not_in_mode (Field.arg_no_input a) (Field.resolved_mode a));
      [discriminate|].
    destruct (Field.not_in_mode (Field.arg_no_output a) (Field.resolved_mode a));
      [discriminate|].
    injection Hinit as <-. simpl. unfold Field.resolved_required.
    destruct Hd as [[d Hd] | Hd].
    - rewrite Hd. reflexivity.
    - rewrite Hd. destruct (Field.arg_default a); reflexivity. }
  split; [exact Hr|].
  unfold SchemaField.is_required. rewrite Hf, Hr.
  destruct (Runtime.ignore_required options); reflexivity.
Qed.

Lemma defaulted_field_never_required_witness :
  exists f,
    Field.init Inputs.required_with_default = inr f
    /\ SchemaField.is_required (Sample.schema_field "n" Sample.int_type f [])
         (Sample.context THROW false) = false.
Proof.
  eexists. split; [reflexivity|].
  exact (proj2 (defaulted_field_never_required Inputs.required_with_default _
                  (Sample.schema_field "n" Sample.int_type _ [])
                  (Sample.context THROW false) eq_refl eq_refl
                  (or_introl (ex_intro _ (DefaultValue (VInt 1)) eq_refl)))).
Defined.

(** X5: [get_alias] answers the declared alias when there is one; without
    one, a generator declared on the Field is asked and the generator that
    the caller passes is left out; and the answer is never the empty string
    for an attribute name that is not empty, since an empty or non-string
    result of the generator falls back on the attribute name. *)
Theorem get_alias_priority (self : Field.t) (attname : string)
    (generator : option (string -> Value)) :
  (truthy_str (Field.alias self) = true ->
   Field.get_alias self attname generator = text_of (Field.alias self))
  /\ (truthy_str (Field.alias self) = false ->
      forall own, Field.alias_generator self = Some own ->
        Field.get_alias self attname generator
        = match own attname with
          | VStr s => if String.eqb s "" then attname else s
          | _ => attname
          end)
  /\ (attname <> "" -> Field.get_alias self attname generator <> "").
Proof.
  unfold Field.get_alias. repeat split.
  - intros ->. reflexivity.
  - intros -> own ->. destruct (own attname) as [| | | |s| |]; try reflexivity.
    destruct (String.eqb s ""); reflexivity.
  - intros Hne. destruct (truthy_str (Field.alias self)) eqn:Ha.
    + destruct (Field.alias self) as [s|]; [|discriminate]. simpl in *.
      intros ->. discriminate.
    + destruct (match Field.alias_generator self with Some g => Some g | None => generator end)
        as [g|]; [|exact Hne].
      destruct (g attname) as [| | | |s| |]; try exact Hne.
      destruct (String.eqb s "") eqn:Hs; simpl; [exact Hne|].
      intros ->. discriminate.
Qed.

Lemma nonempty_strs_nonempty (l : list Value) (x : string) :
  In x (Field.nonempty_strs l) -> x <> "".
Proof.
  induction l as [|v l IH]; simpl; [intros []|].
  destruct v as [| | | |s| |]; try exact IH.
  destruct (String.eqb s "") eqn:Hs; simpl; [exact IH|].
  intros [<- | Hin]; [|exact (IH Hin)].
  intros ->. discriminate.
Qed.

Lemma add_alias_keeps (attname : string) (aliases : gset string) (entry : AliasEntry)
    (x : string) :
  x ∈ aliases -> x ∈ Field.add_alias attname aliases entry.
Proof.
  intros Hx. unfold Field.add_alias.
  destruct (match entry with AliasCall f => f attname | AliasValue v => v end)
    as [| | | |s|l|]; try exact Hx.
  - destruct (negb (String.eqb s "")); [set_solver|exact Hx].
  - set_solver.
Qed.

Lemma add_alias_adds (attname : string) (aliases : gset string) (entry : AliasEntry)
    (x : string) :
  x ∈ Field.add_alias attname aliases entry -> x ∈ aliases \/ x <> "".
Proof.
  unfold Field.add_alias.
  destruct (match entry with AliasCall f => f attname | AliasValue v => v end)
    as [| | | |s|l|]; try (intros Hx; left; exact Hx).
  - destruct (String.eqb s "") eqn:Hs; simpl; [intros Hx; left; exact Hx|].
    intros Hx. apply elem_of_union in Hx as [Hx|Hx]; [left; exact Hx|].
    apply elem_of_singleton in Hx as ->. right. intros ->. discriminate.
  - intros Hx. apply elem_of_union in Hx as [Hx|Hx]; [left; exact Hx|].
    right. apply elem_of_list_to_set in Hx. apply list_elem_of_In in Hx.
    eapply nonempty_strs_nonempty. exact Hx.
Qed.

Lemma fold_add_alias_keeps (attname : string) (entries : list AliasEntry)
    (aliases : gset string) (x : string) :
  x ∈ aliases -> x ∈ fold_left (Field.add_alias attname) entries aliases.
Proof.
  revert aliases. induction entries as [|e entries IH]; intros aliases Hx; [exact Hx|].
  simpl. apply IH. apply add_alias_keeps. exact Hx.
Qed.

Lemma fold_add_alias_adds (attname : string) (entries : list AliasEntry)
    (aliases : gset string) (x : string) :
  x ∈ fold_left (Field.add_alias attname) entries aliases -> x ∈ aliases \/ x <> "".
Proof.
  revert aliases. induction entries as [|e entries IH]; intros aliases Hx; [left; exact Hx|].
  simpl in Hx. destruct (IH _ Hx) as [Hin | Hne]; [|right; exact Hne].
  apply add_alias_adds in Hin. exact Hin.
Qed.

(** X6: the names that [get_alias_from] answers with always include the
    attribute name, and whatever else they include is a non-empty string;
    and on a Field that declares no [alias_from] of its own the answer is the
    attribute name alone, the generator that the caller passes not being
    asked at all. *)
Theorem get_alias_from_names (self : Field.t) (attname : string)
    (generator : option (string -> Value)) :
  attname ∈ fst (Field.get_alias_from self attname generator)
  /\ (forall x, x ∈ fst (Field.get_alias_from self attname generator) ->
                x = attname \/ x <> "")
  /\ (Field.alias_from_truthy (Field.alias_from self) = false ->
      Field.get_alias_from self attname generator = ({[ attname ]}, self)).
Proof.
  unfold Field.get_alias_from.
  destruct (Field.alias_from_truthy (Field.alias_from self)) eqn:Ht.
  - destruct (Field.alias_from self) as [|e|stored]; simpl.
    + split; [set_solver|]. split; [set_solver|discriminate].
    + split; [apply fold_add_alias_keeps; set_solver|]. split; [|discriminate].
      intros x Hx. apply fold_add_alias_adds in Hx as [Hx|Hx]; [left; set_solver|right; exact Hx].
    + split; [apply fold_add_alias_keeps; set_solver|]. split; [|discriminate].
      intros x Hx. apply fold_add_alias_adds in Hx as [Hx|Hx]; [left; set_solver|right; exact Hx].
  - simpl. split; [set_solver|]. split; [set_solver|reflexivity].
Qed.

Lemma lower_empty (s : string) : lower s = "" -> s = "".
Proof. destruct s; [reflexivity|discriminate]. Qed.

Lemma get_alias_from_case (self : Field.t) (attname : string)
    (generator : option (string -> Value)) :
  Field.case_insensitive (snd (Field.get_alias_from self attname generator))
  = Field.case_insensitive self.
Proof.
  unfold Field.get_alias_from.
  destruct (Field.alias_from_truthy (Field.alias_from self)); [|reflexivity].
  destruct (Field.alias_from self); reflexivity.
Qed.

(** X7: a schema field that [generate] builds for a declaration and whose
    names are ASCII text can always be addressed by the name of the attribute
    (lower-cased when the field is case-insensitive); its canonical name is
    not among its aliases, which together with that name make up all its
    names; and the canonical name is not empty when the attribute name is
    not. *)
Theorem generated_field_addressable (attname : string) (input_type : Ty) (final : bool)
    (default : SchemaField.Declared) (options : option Options.t)
    (alias_generator alias_from_generator : option (string -> Value))
    (self : SchemaField.t) :
  SchemaField.generate attname input_type final default options
    alias_generator alias_from_generator = inr self ->
  (forall a, a ∈ SchemaField.all_aliases self -> ascii_only a = true) ->
  SchemaField.attname self = attname
  /\ elem_of (if SchemaField.case_insensitive_of options (SchemaField.field self)
              then lower attname else attname)
             (SchemaField.all_aliases self)
  /\ (SchemaField.name self ∉ SchemaField.aliases self)
  /\ SchemaField.all_aliases self = SchemaField.aliases self ∪ {[ SchemaField.name self ]}
  /\ (attname <> "" -> SchemaField.name self <> "").
Proof.
  unfold SchemaField.generate.
  destruct (match default with
            | SchemaField.NoValue => Field.init (SchemaField.implicit_field None)
            | SchemaField.PlainValue d => Field.init (SchemaField.implicit_field (Some d))
            | SchemaField.FieldValue f => inr f
            end) as [e|field]; [discriminate|].
  pose proof (get_alias_from_names field attname alias_from_generator) as (Hin & _ & _).
  pose proof (get_alias_from_case field attname alias_from_generator) as Hcase.
  pose proof (get_alias_priority field attname alias_generator) as (_ & _ & Hname).
  destruct (Field.get_alias_from field attname alias_from_generator) as [aliases field'].
  simpl in Hin, Hcase. unfold SchemaField.init.
  destruct (SchemaField.validate_annotation attname input_type field') as [e|dm];
    [discriminate|].
  intros [= <-] _. simpl.
  split; [reflexivity|]. split; [|split; [|split]].
  - destruct (SchemaField.case_insensitive_of options field') eqn:Hci.
    + destruct (decide (lower attname = lower (Field.get_alias field attname alias_generator)))
        as [Heq|Hne]; [set_solver|].
      apply elem_of_union_l. apply elem_of_difference. split; [|set_solver].
      apply elem_of_map. exists attname. split; [reflexivity|exact Hin].
    + destruct (decide (attname = Field.get_alias field attname alias_generator));
        set_solver.
  - intros Hx. apply elem_of_difference in Hx as [_ Hx]. apply Hx.
    apply elem_of_singleton. reflexivity.
  - reflexivity.
  - intros Hne. destruct (SchemaField.case_insensitive_of options field').
    + intros Hl. apply lower_empty in Hl. exact (Hname Hne Hl).
    + exact (Hname Hne).
Qed.

Lemma generated_field_addressable_witness :
  exists self,
    SchemaField.generate "Name" Sample.int_type false SchemaField.NoValue
      (Some {| Options.label := "o"; Options.vacuum := false;
               Options.case_insensitive := Some true |})
      None None = inr self
    /\ (forall a, a ∈ SchemaField.all_aliases self -> ascii_only a = true)
    /\ "name" ∈ SchemaField.all_aliases self
    /\ SchemaField.name self = "name".
Proof.
  eexists. split; [reflexivity|].
  assert (Hascii : forall a,
            a ∈ ((set_map lower ({[ "Name" ]} : gset string) ∖ {[ "name" ]} : gset string)
                 ∪ {[ "name" ]}) ->
            ascii_only a = true).
  { intros a Ha. apply elem_of_union in Ha as [Ha | Ha].
    - apply elem_of_difference in Ha as [Ha _].
      apply elem_of_map in Ha as (x & -> & Hx). apply elem_of_singleton in Hx as ->.
      reflexivity.
    - apply elem_of_singleton in Ha as ->. reflexivity. }
  split; [exact Hascii|]. split; [|reflexivity].
  exact (proj1 (proj2 (generated_field_addressable "Name" Sample.int_type false
                         SchemaField.NoValue
                         (Some {| Options.label := "o"; Options.vacuum := false;
                                  Options.case_insensitive := Some true |})
                         None None _ eq_refl Hascii))).
Defined.

Lemma collect_dependencies_spec (name : string) (fields : gmap string SchemaField.t)
    (alias_map : gmap string string) (declared acc : list string) :
  match SchemaField.collect_dependencies name fields alias_map declared acc with
  | inr l =>
      (forall dep, In dep declared ->
                   is_Some (fields !! SchemaField.canonical alias_map dep))
      /\ (list_to_set l : gset string)
         = list_to_set acc ∪ list_to_set (SchemaField.canonical alias_map <$> declared)
  | inl _ =>
      exists dep, In dep declared /\ fields !! SchemaField.canonical alias_map dep = None
  end.
Proof.
  revert acc. induction declared as [|dep rest IH]; intros acc; simpl.
  - split; [intros ? []|]. rewrite union_empty_r_L. reflexivity.
  - destruct (fields !! SchemaField.canonical alias_map dep) as [f|] eqn:Hf.
    + specialize (IH (if bool_decide (SchemaField.canonical alias_map dep ∈ acc)
                      then acc else acc ++ [SchemaField.canonical alias_map dep])).
      destruct (SchemaField.collect_dependencies name fields alias_map rest _) as [e|l].
      * destruct IH as (d & Hin & Hd). exists d. split; [right; exact Hin|exact Hd].
      * destruct IH as [Hall Hset]. split.
        -- intros d [<- | Hin]; [rewrite Hf; eauto|apply Hall; exact Hin].
        -- rewrite Hset. apply set_eq. intros x.
           rewrite !elem_of_union, elem_of_singleton.
           case_bool_decide as Hmem.
           ++ split; [tauto|].
              intros [Hx | [-> | Hx]]; [left; exact Hx| |right; exact Hx].
              left. apply elem_of_list_to_set. exact Hmem.
           ++ rewrite list_to_set_app_L, elem_of_union. simpl.
              rewrite elem_of_union, elem_of_singleton, elem_of_empty. tauto.
    + exists dep. split; [left; reflexivity|exact Hf].
Qed.

Lemma aliases_free (aliases : gset string) (fields : gmap string SchemaField.t) :
  aliases ∩ dom fields = ∅ <-> (forall a, a ∈ aliases -> fields !! a = None).
Proof.
  split.
  - intros H a Ha. apply not_elem_of_dom. intros Hd.
    assert (Hx : a ∈ aliases ∩ dom fields) by (apply elem_of_intersection; split; assumption).
    rewrite H in Hx. apply elem_of_empty in Hx. exact Hx.
  - intros H. apply set_eq. intros x. rewrite elem_of_intersection, elem_of_empty.
    split; [|intros []]. intros [Ha Hd]. apply elem_of_dom in Hd as [f Hf].
    rewrite (H x Ha) in Hf. discriminate.
Qed.

(** X8: [apply_fields] accepts a schema field against the fields of its
    schema exactly when none of its aliases is the name of a field, every
    declared dependency is, once an alias is replaced by the name it stands
    for, the name of a field, and so is the field named as the replacement
    of a deprecated one.  The dependencies are then those names, and the
    schema field is otherwise as before; in particular the replacement is
    checked but not recorded. *)
Theorem apply_fields_outcome (self : SchemaField.t) (fields : gmap string SchemaField.t)
    (alias_map : gmap string string) :
  ((exists applied, SchemaField.apply_fields self fields alias_map = inr applied)
   <-> (forall a, a ∈ SchemaField.aliases self -> fields !! a = None)
       /\ (forall dep, In dep (declared_dependencies self) ->
                       is_Some (fields !! SchemaField.canonical alias_map dep))
       /\ (truthy_str (Field.deprecated_to (SchemaField.field self)) = true ->
           is_Some (fields !! SchemaField.canonical alias_map
                                (text_of (Field.deprecated_to (SchemaField.field self))))))
  /\ (forall applied,
        SchemaField.apply_fields self fields alias_map = inr applied ->
        SchemaField.dependencies applied
        = match declared_dependencies self with
          | [] => SchemaField.dependencies self
          | declared => list_to_set (SchemaField.canonical alias_map <$> declared)
          end
        /\ (forall d, declared_dependencies self <> [] ->
                      d ∈ SchemaField.dependencies applied -> is_Some (fields !! d))
        /\ SchemaField.deprecated_to applied = SchemaField.deprecated_to self
        /\ SchemaField.name applied = SchemaField.name self
        /\ SchemaField.all_aliases applied = SchemaField.all_aliases self
        /\ SchemaField.field applied = SchemaField.field self).
Proof.
  unfold SchemaField.apply_fields, declared_dependencies.
  pose proof (aliases_free (SchemaField.aliases self) fields) as Hal.
  case_bool_decide as Hb.
  2: { split; [split|].
       - intros [? H]; discriminate.
       - intros (Ha & _). apply (proj2 Hal) in Ha. contradiction.
       - intros ? H; discriminate. }
  pose proof (proj1 Hal Hb) as Hb'. clear Hal Hb. rename Hb' into Hb.
  set (to := SchemaField.canonical alias_map
               (text_of (Field.deprecated_to (SchemaField.field self)))).
  assert (Hdeps :
    match Field.dependencies (SchemaField.field self) with
    | Some (dep :: rest) =>
        match SchemaField.collect_dependencies (SchemaField.name self) fields alias_map
                (dep :: rest) [] with
        | inr l =>
            (forall d, In d (dep :: rest) ->
                       is_Some (fields !! SchemaField.canonical alias_map d))
            /\ (list_to_set l : gset string)
               = list_to_set (SchemaField.canonical alias_map <$> dep :: rest)
        | inl _ =>
            exists d, In d (dep :: rest)
                      /\ fields !! SchemaField.canonical alias_map d = None
        end
    | _ => True
    end).
  { destruct (Field.dependencies (SchemaField.field self)) as [[|dep rest]|]; try exact I.
    pose proof (collect_dependencies_spec (SchemaField.name self) fields alias_map
                  (dep :: rest) []) as Hc.
    destruct (SchemaField.collect_dependencies _ _ _ (dep :: rest) []) as [e|l]; [exact Hc|].
    destruct Hc as [Hall Hset]. split; [exact Hall|].
    rewrite Hset. simpl. rewrite union_empty_l_L. reflexivity. }
  destruct (Field.dependencies (SchemaField.field self)) as [[|dep rest]|].
  - (* an empty list of dependencies *)
    destruct (truthy_str (Field.deprecated_to (SchemaField.field self))).
    + destruct (fields !! to) eqn:Hto.
      * split; [split|].
        -- intros _. split; [exact Hb|]. split; [intros ? []|]. intros _. eauto.
        -- intros _. eauto.
        -- intros applied [= <-]. simpl. repeat split. intros d Hd. contradiction.
      * split; [split|].
        -- intros [? H]; discriminate.
        -- intros (_ & _ & Hd). destruct (Hd eq_refl) as [? Hd']. discriminate.
        -- intros ? H; discriminate.
    + split; [split|].
      * intros _. split; [exact Hb|]. split; [intros ? []|]. discriminate.
      * intros _. eauto.
      * intros applied [= <-]. simpl. repeat split. intros d Hd. contradiction.
  - (* declared dependencies *)
    destruct (SchemaField.collect_dependencies (SchemaField.name self) fields alias_map
                (dep :: rest) []) as [e|l].
    + destruct Hdeps as (d & Hin & Hnone). split; [split|].
      * intros [? H]; discriminate.
      * intros (_ & Hall & _). destruct (Hall d Hin) as [? Hd']. rewrite Hnone in Hd'.
        discriminate.
      * intros ? H; discriminate.
    + destruct Hdeps as [Hall Hset].
      assert (Hin : forall d, d ∈ (list_to_set l : gset string) -> is_Some (fields !! d)).
      { intros d Hd. rewrite Hset in Hd. apply elem_of_list_to_set in Hd.
        apply list_elem_of_fmap in Hd as (d0 & -> & Hd0). apply Hall.
        apply list_elem_of_In. exact Hd0. }
      destruct (truthy_str (Field.deprecated_to (SchemaField.field self))).
      * destruct (fields !! to) eqn:Hto.
        -- split; [split|].
           ++ intros _. split; [exact Hb|]. split; [exact Hall|]. intros _. eauto.
           ++ intros _. eauto.
           ++ intros applied [= <-]. simpl. split; [exact Hset|]. split; [|repeat split].
              intros d _ Hd. apply Hin. exact Hd.
        -- split; [split|].
           ++ intros [? H]; discriminate.
           ++ intros (_ & _ & Hd). destruct (Hd eq_refl) as [? Hd']. discriminate.
           ++ intros ? H; discriminate.
      * split; [split|].
        -- intros _. split; [exact Hb|]. split; [exact Hall|]. discriminate.
        -- intros _. eauto.
        -- intros applied [= <-]. simpl. split; [exact Hset|]. split; [|repeat split].
           intros d _ Hd. apply Hin. exact Hd.
  - (* no dependencies *)
    destruct (truthy_str (Field.deprecated_to (SchemaField.field self))).
    + destruct (fields !! to) eqn:Hto.
      * split; [split|].
        -- intros _. split; [exact Hb|]. split; [intros ? []|]. intros _. eauto.
        -- intros _. eauto.
        -- intros applied [= <-]. simpl. repeat split. intros d Hd. contradiction.
      * split; [split|].
        -- intros [? H]; discriminate.
        -- intros (_ & _ & Hd). destruct (Hd eq_refl) as [? Hd']. discriminate.
        -- intros ? H; discriminate.
    + split; [split|].
      * intros _. split; [exact Hb|]. split; [intros ? []|]. discriminate.
      * intros _. eauto.
      * intros applied [= <-]. simpl. repeat split. intros d Hd. contradiction.
Qed.

Lemma init_accepted (a : Field.Args) (f : Field.t) :
  Field.init a = inr f ->
  Field.not_in_mode (Field.arg_no_input a) (Field.resolved_mode a) = None
  /\ Field.not_in_mode (Field.arg_no_output a) (Field.resolved_mode a) = None
  /\ Field.no_input f = Field.arg_no_input a
  /\ Field.no_output f = Field.arg_no_output a
  /\ Field.mode f = Field.resolved_mode a.
Proof.
  unfold Field.init.
  destruct (truthy_str (Field.arg_mode a)
            && (truthy_flag (Field.arg_readonly a) || truthy_flag (Field.arg_writeonly a)));
    [discriminate|].
  destruct (truthy_flag (Field.arg_readonly a) && truthy_flag (Field.arg_writeonly a));
    [discriminate|].
  destruct (Field.not_in_mode (Field.arg_no_input a) (Field.resolved_mode a));
    [discriminate|].
  destruct (Field.not_in_mode (Field.arg_no_output a) (Field.resolved_mode a));
    [discriminate|].
  intros [= <-]. simpl. repeat split.
Qed.

Lemma in_mode_accepted (s : string) (mode : option string) :
  Field.not_in_mode (NoMode s) mode = None -> truthy_str mode = true ->
  str_contains s (text_of mode) = true.
Proof.
  unfold Field.not_in_mode. intros H Hm. rewrite Hm in H.
  destruct (str_contains s (text_of mode)); [reflexivity|discriminate].
Qed.

(** X9: on a Field that has a mode, a mode string given as [no_input] or
    [no_output] is checked at construction and then never consulted: at a
    runtime mode the field is left out exactly when that mode does not occur
    in the field's mode, so that at the very mode that [no_input] names the
    field is still taken from the input. *)
Theorem mode_overrides_no_input (a : Field.Args) (f : Field.t) (self : SchemaField.t)
    (value : Value) (options : Runtime.Context) :
  Field.init a = inr f ->
  SchemaField.field self = f ->
  truthy_str (Field.mode f) = true ->
  (forall s, Field.arg_no_input a = NoMode s ->
     (Runtime.mode options = Some s -> SchemaField.no_input self value options = false)
     /\ (forall m, Runtime.mode options = Some m -> m <> "" ->
           SchemaField.no_input self value options
           = negb (str_contains m (text_of (Field.mode f)))))
  /\ (forall s, Field.arg_no_output a = NoMode s ->
        (Runtime.mode options = Some s -> SchemaField.no_output self value options = false)
        /\ (forall m, Runtime.mode options = Some m -> m <> "" ->
              SchemaField.no_output self value options
              = negb (str_contains m (text_of (Field.mode f))))).
Proof.
  intros Hinit Hf Hmode.
  destruct (init_accepted a f Hinit) as (Hi & Ho & Hni & Hno & Hm).
  assert (Hgen : forall m, m <> "" -> truthy_str (Some m) = true).
  { intros m Hne. simpl. destruct (String.eqb_spec m ""); [contradiction|reflexivity]. }
  split; intros s Hs.
  - rewrite Hs in Hi, Hni. rewrite <- Hm in Hi.
    pose proof (in_mode_accepted s _ Hi Hmode) as Hin.
    unfold SchemaField.no_input. rewrite Hf, Hni. split.
    + intros ->. destruct (truthy_str (Some s)); [|reflexivity]. simpl.
      rewrite Hmode. simpl. rewrite Hin. reflexivity.
    + intros m -> Hne. rewrite (Hgen m Hne). simpl. rewrite Hmode. reflexivity.
  - rewrite Hs in Ho, Hno. rewrite <- Hm in Ho.
    pose proof (in_mode_accepted s _ Ho Hmode) as Hin.
    unfold SchemaField.no_output. rewrite Hf, Hno. split.
    + intros ->. destruct (truthy_str (Some s)); [|reflexivity]. simpl.
      rewrite Hmode. simpl. rewrite Hin. reflexivity.
    + intros m -> Hne. rewrite (Hgen m Hne). simpl. rewrite Hmode. reflexivity.
Qed.

Lemma mode_overrides_no_input_witness :
  exists f,
    Field.init Inputs.rw_no_input_r = inr f
    /\ SchemaField.no_input (Sample.schema_field "n" Sample.int_type f []) (VInt 1)
         (Inputs.at_mode "r") = false.
Proof.
  eexists. split; [reflexivity|].
  exact (proj1 (proj1 (mode_overrides_no_input Inputs.rw_no_input_r _
                         (Sample.schema_field "n" Sample.int_type _ []) (VInt 1)
                         (Inputs.at_mode "r") eq_refl eq_refl eq_refl)
                  "r" eq_refl) eq_refl).
Defined.

Lemma parse_value_steps (self : SchemaField.t) (value : Value) (c : Runtime.Context) :
  let c0 :=
    if Field.deprecated (SchemaField.field self)
    then Runtime.with_warnings c (Runtime.warnings c ++ [SchemaField.deprecation_warning self])
    else c in
  match SchemaField.select_type self value with
  | inl e => SchemaField.parse_value self value c = Runtime.Raise e c0
  | inr ty =>
      let c1 := Runtime.with_transformed c0 (Runtime.transformed c0 ++ [(value, ty)]) in
      match Runtime.transformer c value ty with
      | inr parsed => SchemaField.parse_value self value c = Runtime.Ok parsed c1
      | inl e =>
          context_of (SchemaField.parse_value self value c) = c1
          \/ (exists w, context_of (SchemaField.parse_value self value c)
                        = Runtime.with_warnings c1 (Runtime.warnings c1 ++ [w]))
          \/ (exists err, context_of (SchemaField.parse_value self value c)
                          = Runtime.with_errors c1 (Runtime.errors c1 ++ [err]))
      end
  end.
Proof.
  intros c0. unfold SchemaField.parse_value.
  assert (H0 : (if Field.deprecated (SchemaField.field self)
                then Runtime.collect_waring (SchemaField.deprecation_warning self)
                else Runtime.ret tt) c = Runtime.Ok tt c0).
  { subst c0. destruct (Field.deprecated (SchemaField.field self)); reflexivity. }
  rewrite (bind_Ok _ _ _ _ _ H0).
  assert (Ht : forall ty, Runtime.transformer c0 value ty = Runtime.transformer c value ty).
  { intros ty. subst c0. destruct (Field.deprecated (SchemaField.field self)); reflexivity. }
  destruct (SchemaField.select_type self value) as [e|ty]; [reflexivity|].
  set (c1 := Runtime.with_transformed c0 (Runtime.transformed c0 ++ [(value, ty)])).
  assert (Htr : Runtime.transform value ty c0 = Runtime.Ok (Runtime.transformer c value ty) c1).
  { unfold Runtime.transform. rewrite Ht. reflexivity. }
  rewrite (bind_Ok _ _ _ _ _ Htr).
  destruct (Runtime.transformer c value ty) as [e|parsed]; [|reflexivity].
  rewrite (bind_Ok Runtime.ask _ c1 c1 c1 eq_refl).
  assert (Hh : forall err (v : Value),
            context_of ((Runtime.handle_error err false ;;; Runtime.ret v) c1) = c1
            \/ context_of ((Runtime.handle_error err false ;;; Runtime.ret v) c1)
               = Runtime.with_errors c1 (Runtime.errors c1 ++ [err])).
  { intros err v. unfold Runtime.bind, Runtime.handle_error.
    destruct (Runtime.collect_errors c1); [right|left]; reflexivity. }
  assert (Hw : forall w (v : Value),
            context_of ((Runtime.collect_waring w ;;; Runtime.ret v) c1)
            = Runtime.with_warnings c1 (Runtime.warnings c1 ++ [w])).
  { intros w v. reflexivity. }
  destruct (SchemaField.get_on_error self c1).
  - destruct (SchemaField.is_required self c1).
    + destruct (Hh (ParseError (ItemName (SchemaField.name self)) (SchemaField.type self)
                      value e) VEllipsis) as [H|H]; [left; exact H|right; right; eauto].
    + right. left. eexists. apply Hw.
  - right. left. eexists. apply Hw.
  - destruct (Hh (ParseError (ItemName (SchemaField.name self)) (SchemaField.type self)
                    value e) VEllipsis) as [H|H]; [left; exact H|right; right; eauto].
Qed.

(** X10: one call of [parse_value] hands the raw value to the transformer
    exactly once, and not at all when an unhashable tag stops it before; a
    deprecated field has its warning recorded first; and besides that the
    call records at most one warning and at most one error. *)
Theorem parse_value_calls_transformer_once (self : SchemaField.t) (value : Value)
    (c : Runtime.Context) :
  Runtime.transformed (context_of (SchemaField.parse_value self value c))
  = Runtime.transformed c
    ++ match SchemaField.select_type self value with
       | inr ty => [(value, ty)]
       | inl _ => []
       end
  /\ (exists rest,
        Runtime.warnings (context_of (SchemaField.parse_value self value c))
        = Runtime.warnings c
          ++ (if Field.deprecated (SchemaField.field self)
              then [SchemaField.deprecation_warning self] else [])
          ++ rest
        /\ length rest <= 1)
  /\ (exists es,
        Runtime.errors (context_of (SchemaField.parse_value self value c))
        = Runtime.errors c ++ es
        /\ length es <= 1).
Proof.
  pose proof (parse_value_steps self value c) as H. cbv zeta in H.
  destruct (SchemaField.select_type self value) as [e|ty].
  - rewrite H. simpl.
    destruct (Field.deprecated (SchemaField.field self)); simpl;
      rewrite ?app_nil_r; (split; [reflexivity|]);
      (split; [exists []|exists []]); rewrite ?app_nil_r; auto.
  - destruct (Runtime.transformer c value ty) as [e|parsed].
    + destruct H as [H | [[w H] | [err H]]]; rewrite H;
        destruct (Field.deprecated (SchemaField.field self)); simpl;
        (split; [reflexivity|]).
      * split; [exists []|exists []]; rewrite ?app_nil_r; auto.
      * split; [exists []|exists []]; rewrite ?app_nil_r; auto.
      * split; [exists [w]|exists []]; rewrite <- ?app_assoc, ?app_nil_r; auto.
      * split; [exists [w]|exists []]; rewrite <- ?app_assoc, ?app_nil_r; auto.
      * split; [exists []|exists [err]]; rewrite ?app_nil_r; auto.
      * split; [exists []|exists [err]]; rewrite ?app_nil_r; auto.
    + rewrite H. simpl.
      destruct (Field.deprecated (SchemaField.field self)); simpl;
        (split; [reflexivity|]);
        (split; [exists []|exists []]); rewrite ?app_nil_r; auto.
Qed.

Lemma apply_fields_keeps (self applied : SchemaField.t)
    (fields : gmap string SchemaField.t) (alias_map : gmap string string) :
  SchemaField.apply_fields self fields alias_map = inr applied ->
  SchemaField.deprecated_to applied = SchemaField.deprecated_to self
  /\ SchemaField.name applied = SchemaField.name self
  /\ SchemaField.field applied = SchemaField.field self.
Proof.
  unfold SchemaField.apply_fields.
  destruct (bool_decide _); [|discriminate].
  destruct (match Field.dependencies (SchemaField.field self) with
            | Some (dep :: rest) => _
            | _ => _
            end) as [e|deps]; [discriminate|].
  destruct (truthy_str (Field.deprecated_to (SchemaField.field self))).
  - destruct (fields !! _); [|discriminate]. intros [= <-]. repeat split.
  - intros [= <-]. repeat split.
Qed.

(** X11: the warning that parsing a deprecated field records never names
    the field to use instead: a schema field that [__init__] has built and
    [apply_fields] has accepted warns with the text ['name' is deprecated]
    and nothing more, although the Field names a replacement and
    [apply_fields] has checked that it exists. *)
Theorem deprecation_names_no_replacement (name attname : string) (input_type output_type : Ty)
    (field : Field.t) (aliases : gset string) (options : option Options.t) (final : bool)
    (self applied : SchemaField.t) (fields : gmap string SchemaField.t)
    (alias_map : gmap string string) (value : Value) (c : Runtime.Context) :
  SchemaField.init name input_type field attname aliases output_type options final
  = inr self ->
  SchemaField.apply_fields self fields alias_map = inr applied ->
  Field.deprecated field = true ->
  exists rest,
    Runtime.warnings (context_of (SchemaField.parse_value applied value c))
    = Runtime.warnings c
      ++ WarnText (repr (SchemaField.name self) +:+ " is deprecated") "DeprecationWarning"
         :: rest.
Proof.
  intros Hinit Happly Hdep.
  destruct (apply_fields_keeps _ _ _ _ Happly) as (Hto & Hname & Hfield).
  assert (Hnone : SchemaField.deprecated_to self = None
                  /\ SchemaField.field self = field).
  { unfold SchemaField.init in Hinit.
    destruct (SchemaField.validate_annotation attname input_type field); [discriminate|].
    injection Hinit as <-. split; reflexivity. }
  destruct Hnone as [Hnone Hsf].
  pose proof (parse_value_steps applied value c) as H. cbv zeta in H.
  assert (Hw : SchemaField.deprecation_warning applied
               = WarnText (repr (SchemaField.name self) +:+ " is deprecated")
                   "DeprecationWarning").
  { unfold SchemaField.deprecation_warning. rewrite Hto, Hnone, Hname.
    rewrite append_nil_r. reflexivity. }
  rewrite Hfield, Hsf, Hdep, Hw in H.
  destruct (SchemaField.select_type applied value) as [e|ty].
  - rewrite H. simpl. exists []. reflexivity.
  - destruct (Runtime.transformer c value ty) as [e|parsed].
    + destruct H as [H | [[w H] | [err H]]]; rewrite H; simpl.
      * exists []. reflexivity.
      * exists [w]. rewrite <- app_assoc. reflexivity.
      * exists []. reflexivity.
    + rewrite H. simpl. exists []. reflexivity.
Qed.

Lemma deprecation_names_no_replacement_witness :
  exists rest,
    Runtime.warnings
      (context_of (SchemaField.parse_value
                     (Sample.schema_field "a" Sample.int_type Inputs.deprecated_for_b [])
                     (VInt 1) (Sample.context THROW false)))
    = Runtime.warnings (Sample.context THROW false)
      ++ WarnText (repr (SchemaField.name
                           (Sample.schema_field "a" Sample.int_type
                              Inputs.deprecated_for_b []))
                   +:+ " is deprecated") "DeprecationWarning"
         :: rest.
Proof.
  apply (deprecation_names_no_replacement "a" "a" Sample.int_type Sample.int_type
           Inputs.deprecated_for_b ∅ None false
           (Sample.schema_field "a" Sample.int_type Inputs.deprecated_for_b [])
           (Sample.schema_field "a" Sample.int_type Inputs.deprecated_for_b [])
           {[ "b" := Sample.bare "b" ]} ∅ (VInt 1) (Sample.context THROW false)).
  - vm_compute. reflexivity.
  - vm_compute. reflexivity.
  - reflexivity.
Defined.

(** ** Signatures and parameters *)

Lemma scan_parameters_spec (params : list (string * FunctionParser.Param)) :
  forall (i : nat) (pv : option string) (pvi : option nat) (kv : option string)
         (pkm : list (nat * string)) (pok : list string),
    match FunctionParser.scan_parameters i params pv pvi kv pkm pok with
    | (pv', pvi', kv', pkm', pok') =>
        (forall n k, In (n, k) pkm' <->
                     In (n, k) pkm
                     \/ exists j v, n = i + j /\ params !! j = Some (k, v)
                                    /\ FunctionParser.order_checked v = true)
        /\ pok' = pok ++ map fst (List.filter
                                    (fun kv => FunctionParser.is_kind
                                                 (FunctionParser.kind (snd kv))
                                                 FunctionParser.POSITIONAL_ONLY) params)
        /\ ((pv', pvi') = (pv, pvi)
            /\ (forall k v, In (k, v) params ->
                            FunctionParser.kind v <> FunctionParser.VAR_POSITIONAL)
            \/ exists j k v, pvi' = Some (i + j) /\ pv' = Some k
                             /\ params !! j = Some (k, v)
                             /\ FunctionParser.kind v = FunctionParser.VAR_POSITIONAL)
    end.
Proof.
  induction params as [|[k v] rest IH]; intros i pv pvi kv pkm pok; simpl.
  - split; [|split].
    + intros n k. split; [auto|]. intros [H | (j & v & _ & H & _)]; [exact H|discriminate].
    + rewrite app_nil_r. reflexivity.
    + left. split; [reflexivity|]. intros k v [].
  - assert (Hshift : forall (n : nat) (k0 : string) (P : FunctionParser.Param -> Prop),
              (exists j v0, n = S i + j /\ rest !! j = Some (k0, v0) /\ P v0)
              -> exists j v0, n = i + j /\ ((k, v) :: rest) !! j = Some (k0, v0) /\ P v0).
    { intros n k0 P (j & v0 & -> & Hj & HP). exists (S j), v0. split; [lia|]. auto. }
    assert (Hunshift : forall (n : nat) (k0 : string) (P : FunctionParser.Param -> Prop),
              (exists j v0, n = i + j /\ ((k, v) :: rest) !! j = Some (k0, v0) /\ P v0)
              -> (n = i /\ k0 = k /\ P v)
                 \/ exists j v0, n = S i + j /\ rest !! j = Some (k0, v0) /\ P v0).
    { intros n k0 P (j & v0 & -> & Hj & HP). destruct j as [|j].
      - simpl in Hj. injection Hj as <- <-. left. split; [lia|]. auto.
      - right. exists j, v0. split; [lia|]. auto. }
    destruct (FunctionParser.kind v) eqn:Hk; simpl.
    + (* positional-only *)
      specialize (IH (S i) pv pvi kv (pkm ++ [(i, k)]) (pok ++ [k])).
      destruct (FunctionParser.scan_parameters _ rest _ _ _ _ _) as [[[[pv' pvi'] kv'] pkm'] pok'].
      destruct IH as (Hm & Hp & Hv). split; [|split].
      * intros n k0. rewrite Hm, in_app_iff. simpl. split.
        -- intros [[H | [[= <- <-] | []]] | H].
           ++ left. exact H.
           ++ right. exists 0, v. split; [lia|]. split; [reflexivity|].
              unfold FunctionParser.order_checked. rewrite Hk. reflexivity.
           ++ right. apply Hshift. exact H.
        -- intros [H | H]; [left; left; exact H|].
           apply Hunshift in H as [(-> & -> & _) | H]; [left; right; left; reflexivity|].
           right. exact H.
      * rewrite Hp, <- app_assoc. reflexivity.
      * destruct Hv as [[Heq Hno] | (j & k0 & v0 & H1 & H2 & H3 & H4)].
        -- left. split; [exact Heq|]. intros k0 v0 [[= <- <-] | Hin]; [congruence|].
           eapply Hno. exact Hin.
        -- right. exists (S j), k0, v0. rewrite H1. repeat split; try assumption.
           f_equal. lia.
    + (* positional-or-keyword *)
      specialize (IH (S i) pv pvi kv (pkm ++ [(i, k)]) pok).
      destruct (FunctionParser.scan_parameters _ rest _ _ _ _ _) as [[[[pv' pvi'] kv'] pkm'] pok'].
      destruct IH as (Hm & Hp & Hv). split; [|split].
      * intros n k0. rewrite Hm, in_app_iff. simpl. split.
        -- intros [[H | [[= <- <-] | []]] | H].
           ++ left. exact H.
           ++ right. exists 0, v. split; [lia|]. split; [reflexivity|].
              unfold FunctionParser.order_checked. rewrite Hk. reflexivity.
           ++ right. apply Hshift. exact H.
        -- intros [H | H]; [left; left; exact H|].
           apply Hunshift in H as [(-> & -> & _) | H]; [left; right; left; reflexivity|].
           right. exact H.
      * exact Hp.
      * destruct Hv as [[Heq Hno] | (j & k0 & v0 & H1 & H2 & H3 & H4)].
        -- left. split; [exact Heq|]. intros k0 v0 [[= <- <-] | Hin]; [congruence|].
           eapply Hno. exact Hin.
        -- right. exists (S j), k0, v0. rewrite H1. repeat split; try assumption.
           f_equal. lia.
    + (* variadic positional *)
      specialize (IH (S i) (Some k) (Some i) kv pkm pok).
      destruct (FunctionParser.scan_parameters _ rest _ _ _ _ _) as [[[[pv' pvi'] kv'] pkm'] pok'].
      destruct IH as (Hm & Hp & Hv). split; [|split].
      * intros n k0. rewrite Hm. split.
        -- intros [H | H]; [left; exact H|right; apply Hshift; exact H].
        -- intros [H | H]; [left; exact H|].
           apply Hunshift in H as [(_ & _ & Hc) | H]; [|right; exact H].
           unfold FunctionParser.order_checked in Hc. rewrite Hk in Hc. discriminate.
      * exact Hp.
      * right. destruct Hv as [[[= -> ->] Hno] | (j & k0 & v0 & H1 & H2 & H3 & H4)].
        -- exists 0, k, v. repeat split; try assumption. f_equal. lia.
        -- exists (S j), k0, v0. rewrite H1. repeat split; try assumption. f_equal. lia.
    + (* keyword-only *)
      specialize (IH (S i) pv pvi kv pkm pok).
      destruct (FunctionParser.scan_parameters _ rest _ _ _ _ _) as [[[[pv' pvi'] kv'] pkm'] pok'].
      destruct IH as (Hm & Hp & Hv). split; [|split].
      * intros n k0. rewrite Hm. split.
        -- intros [H | H]; [left; exact H|right; apply Hshift; exact H].
        -- intros [H | H]; [left; exact H|].
           apply Hunshift in H as [(_ & _ & Hc) | H]; [|right; exact H].
           unfold FunctionParser.order_checked in Hc. rewrite Hk in Hc. discriminate.
      * exact Hp.
      * destruct Hv as [[Heq Hno] | (j & k0 & v0 & H1 & H2 & H3 & H4)].
        -- left. split; [exact Heq|]. intros k0 v0 [[= <- <-] | Hin]; [congruence|].
           eapply Hno. exact Hin.
        -- right. exists (S j), k0, v0. rewrite H1. repeat split; try assumption.
           f_equal. lia.
    + (* variadic keyword *)
      specialize (IH (S i) pv pvi (Some k) pkm pok).
      destruct (FunctionParser.scan_parameters _ rest _ _ _ _ _) as [[[[pv' pvi'] kv'] pkm'] pok'].
      destruct IH as (Hm & Hp & Hv). split; [|split].
      * intros n k0. rewrite Hm. split.
        -- intros [H | H]; [left; exact H|right; apply Hshift; exact H].
        -- intros [H | H]; [left; exact H|].
           apply Hunshift in H as [(_ & _ & Hc) | H]; [|right; exact H].
           unfold FunctionParser.order_checked in Hc. rewrite Hk in Hc. discriminate.
      * exact Hp.
      * destruct Hv as [[Heq Hno] | (j & k0 & v0 & H1 & H2 & H3 & H4)].
        -- left. split; [exact Heq|]. intros k0 v0 [[= <- <-] | Hin]; [congruence|].
           eapply Hno. exact Hin.
        -- right. exists (S j), k0, v0. rewrite H1. repeat split; try assumption.
           f_equal. lia.
Qed.

(** X12: the positional bookkeeping that the parser derives from a
    signature agrees with the signature: the index map holds the pair of an
    index and a name exactly when the parameter at that index has that name
    and is positional-only or positional-or-keyword; the positional-only
    keys are the names of the positional-only parameters in their order; and
    the index recorded for the variadic positional parameter, if any, is the
    place of a parameter of that kind whose name is the one recorded. *)
Theorem positional_index_consistent (obj : string)
    (parameters : list (string * FunctionParser.Param)) (fields : list SchemaField.t)
    (position_type return_type yield_type send_type generator_return_type : option Ty) :
  let self := FunctionParser.make obj parameters fields position_type return_type
                yield_type send_type generator_return_type in
  (forall i k, In (i, k) (FunctionParser.pos_key_map self) <->
               exists v, parameters !! i = Some (k, v)
                         /\ (FunctionParser.kind v = FunctionParser.POSITIONAL_ONLY
                             \/ FunctionParser.kind v = FunctionParser.POSITIONAL_OR_KEYWORD))
  /\ FunctionParser.pos_only_keys self
     = map fst (List.filter
                  (fun kv => FunctionParser.is_kind (FunctionParser.kind (snd kv))
                               FunctionParser.POSITIONAL_ONLY) parameters)
  /\ (forall i, FunctionParser.pos_var_index self = Some i ->
                exists k v, parameters !! i = Some (k, v)
                            /\ FunctionParser.kind v = FunctionParser.VAR_POSITIONAL
                            /\ FunctionParser.pos_var self = Some k)
  /\ (FunctionParser.pos_var_index self = None <->
      forall k v, In (k, v) parameters ->
                  FunctionParser.kind v <> FunctionParser.VAR_POSITIONAL).
Proof.
  intros self. subst self. unfold FunctionParser.make.
  pose proof (scan_parameters_spec parameters 0 None None None [] []) as H.
  destruct (FunctionParser.scan_parameters 0 parameters None None None [] [])
    as [[[[pv pvi] kv] pkm] pok].
  simpl. destruct H as (Hm & Hp & Hv).
  assert (Hck : forall v, FunctionParser.order_checked v = true <->
                          FunctionParser.kind v = FunctionParser.POSITIONAL_ONLY
                          \/ FunctionParser.kind v = FunctionParser.POSITIONAL_OR_KEYWORD).
  { intros v. unfold FunctionParser.order_checked.
    destruct (FunctionParser.kind v); split; intros H; try reflexivity; try discriminate;
      auto; destruct H; discriminate. }
  split; [|split; [|split]].
  - intros i k. rewrite Hm. split.
    + intros [[] | (j & v & -> & Hj & Hc)]. exists v. split; [exact Hj|]. apply Hck. exact Hc.
    + intros (v & Hi & Hc). right. exists i, v. split; [reflexivity|]. split; [exact Hi|].
      apply Hck. exact Hc.
  - exact Hp.
  - intros i Hi. destruct Hv as [[[= -> ->] _] | (j & k & v & -> & -> & Hj & Hk)];
      [discriminate|].
    injection Hi as <-. exists k, v. auto.
  - split.
    + intros ->. destruct Hv as [[_ Hno] | (j & k & v & H & _)]; [exact Hno|discriminate].
    + intros Hno. destruct Hv as [[[= -> ->] _] | (j & k & v & _ & _ & Hj & Hk)];
        [reflexivity|].
      exfalso. apply (Hno k v); [|exact Hk].
      apply list_elem_of_In. eapply list_elem_of_lookup_2. exact Hj.
Qed.

(** X13: when the transformer rejects a variadic positional item, the
    item policy of the call decides: under 'preserve' the raw item is kept
    and a warning recorded, under 'exclude' the item is given up (the
    sentinel for "no value" is answered) and a warning recorded, and
    otherwise the ParseError, whose item is the index of the argument, goes
    to the context: it is raised at once, or it joins the error buffer, in
    which case the raw item is answered. *)
Theorem parse_pos_type_policy (self : FunctionParser.t) (index : nat) (value : Value)
    (c : Runtime.Context) (pos_type : Ty) (e : Exn) :
  FunctionParser.position_type self = Some pos_type ->
  Runtime.transformer c value pos_type = inl e ->
  FunctionParser.parse_pos_type self index value c
  = match Runtime.invalid_items c with
    | PRESERVE =>
        Runtime.Ok value
          (warned (ParseError (ItemIndex index) pos_type value e)
                  (transformed_once c value pos_type))
    | EXCLUDE =>
        Runtime.Ok VEllipsis
          (warned (ParseError (ItemIndex index) pos_type value e)
                  (transformed_once c value pos_type))
    | THROW =>
        if Runtime.collect_errors c
        then Runtime.Ok value
               (Runtime.with_errors (transformed_once c value pos_type)
                  (Runtime.errors c ++ [ParseError (ItemIndex index) pos_type value e]))
        else Runtime.Raise (ParseError (ItemIndex index) pos_type value e)
               (transformed_once c value pos_type)
    end.
Proof.
  intros Hp Ht. unfold FunctionParser.parse_pos_type. rewrite Hp.
  assert (Htr : Runtime.transform value pos_type c
                = Runtime.Ok (inl e) (transformed_once c value pos_type)).
  { unfold Runtime.transform. rewrite Ht. reflexivity. }
  rewrite (bind_Ok _ _ _ _ _ Htr).
  rewrite (bind_Ok Runtime.ask _ _ _ _ eq_refl).
  change (Runtime.invalid_items (transformed_once c value pos_type))
    with (Runtime.invalid_items c).
  destruct (Runtime.invalid_items c); try reflexivity.
  unfold Runtime.bind, Runtime.handle_error.
  change (Runtime.collect_errors (transformed_once c value pos_type))
    with (Runtime.collect_errors c).
  destruct (Runtime.collect_errors c); reflexivity.
Qed.

Lemma parse_pos_type_policy_witness :
  FunctionParser.parse_pos_type Inputs.star_args 2 (VStr "x") (Inputs.items EXCLUDE true)
  = Runtime.Ok VEllipsis
      (warned (ParseError (ItemIndex 2) Sample.int_type (VStr "x")
                 (CoercionError "invalid literal for int()"))
              (transformed_once (Inputs.items EXCLUDE true) (VStr "x") Sample.int_type)).
Proof.
  exact (parse_pos_type_policy Inputs.star_args 2 (VStr "x") (Inputs.items EXCLUDE true)
           Sample.int_type (CoercionError "invalid literal for int()") eq_refl eq_refl).
Defined.

Lemma omap_pointwise {A B} (f g : A -> option B) (l : list A) :
  (forall a, f a = g a) -> omap f l = omap g l.
Proof.
  intros H. induction l as [|a l IH]; [reflexivity|]. simpl. rewrite H.
  destruct (g a); [f_equal|]; exact IH.
Qed.

Lemma in_pos_var_succ (self : FunctionParser.t) (i : nat) :
  FunctionParser.in_pos_var self i = true -> FunctionParser.in_pos_var self (S i) = true.
Proof.
  unfold FunctionParser.in_pos_var.
  destruct (FunctionParser.pos_var self) as [name|]; [|discriminate].
  destruct (FunctionParser.pos_var_index self) as [index|]; [|discriminate].
  rewrite !andb_true_iff. intros [Hn Hi]. split; [exact Hn|].
  apply Nat.leb_le in Hi. apply Nat.leb_le. lia.
Qed.

Lemma parse_pos_type_quiet (self : FunctionParser.t) (index : nat) (arg : Value)
    (c : Runtime.Context) (ty : Ty) :
  FunctionParser.position_type self = Some ty ->
  Runtime.invalid_items c <> THROW ->
  exists parsed c',
    FunctionParser.parse_pos_type self index arg c = Runtime.Ok parsed c'
    /\ variadic_item c ty arg = (if unprovided parsed then None else Some parsed)
    /\ Runtime.transformer c' = Runtime.transformer c
    /\ Runtime.invalid_items c' = Runtime.invalid_items c
    /\ Runtime.errors c' = Runtime.errors c
    /\ length (Runtime.warnings c')
       = length (Runtime.warnings c) + (if rejected c ty arg then 1 else 0)
    /\ Runtime.transformed c' = Runtime.transformed c ++ [(arg, ty)].
Proof.
  intros Hp Hpol. unfold FunctionParser.parse_pos_type, variadic_item, rejected. rewrite Hp.
  assert (Htr : Runtime.transform arg ty c
                = Runtime.Ok (Runtime.transformer c arg ty) (transformed_once c arg ty))
    by reflexivity.
  rewrite (bind_Ok _ _ _ _ _ Htr).
  destruct (Runtime.transformer c arg ty) as [e|v].
  - rewrite (bind_Ok Runtime.ask _ _ _ _ eq_refl).
    change (Runtime.invalid_items (transformed_once c arg ty))
      with (Runtime.invalid_items c).
    destruct (Runtime.invalid_items c) eqn:Hpolicy; [| |contradiction].
    + eexists _, _. split; [reflexivity|]. simpl. rewrite length_app. simpl.
      repeat split; try reflexivity; try assumption; lia.
    + eexists _, _. split; [reflexivity|]. simpl. rewrite length_app. simpl.
      repeat split; try reflexivity; try assumption; lia.
  - eexists _, _. split; [reflexivity|]. simpl. repeat split; try reflexivity; lia.
Qed.

(** X14: under an item policy of 'exclude' or 'preserve', the variadic
    positional arguments of a call are parsed without failure and without a
    fatal error: each one is handed to the transformer once, in order; what
    is passed on is the list of the coerced items, an item that the
    transformer rejects being dropped ('exclude') or passed on as it came
    ('preserve'), with one warning recorded for each rejected item. *)
Theorem variadic_items_never_fail (self : FunctionParser.t) (ty : Ty) (args : list Value) :
  forall (i : nat) (parsed_args : list Value) (parsed_keys : list string)
         (c : Runtime.Context),
    FunctionParser.position_type self = Some ty ->
    FunctionParser.in_pos_var self i = true ->
    Runtime.invalid_items c <> THROW ->
    exists c',
      FunctionParser.parse_args self i args parsed_args parsed_keys c
      = Runtime.Ok (parsed_args ++ omap (variadic_item c ty) args, parsed_keys) c'
      /\ Runtime.errors c' = Runtime.errors c
      /\ length (Runtime.warnings c')
         = length (Runtime.warnings c) + length (List.filter (rejected c ty) args)
      /\ Runtime.transformed c'
         = Runtime.transformed c ++ map (fun arg => (arg, ty)) args.
Proof.
  induction args as [|arg rest IH]; intros i parsed_args parsed_keys c Hp Hi Hpol.
  - exists c. simpl. rewrite !app_nil_r. repeat split. lia.
  - simpl FunctionParser.parse_args. rewrite Hi.
    destruct (parse_pos_type_quiet self i arg c ty Hp Hpol)
      as (parsed & c1 & Hstep & Hitem & Htf & Hit & Herr & Hwarn & Htrans).
    rewrite (bind_Ok _ _ _ _ _ Hstep).
    assert (Hpol1 : Runtime.invalid_items c1 <> THROW) by (rewrite Hit; exact Hpol).
    assert (Hsame : forall a, variadic_item c1 ty a = variadic_item c ty a).
    { intros a. unfold variadic_item. rewrite Htf, Hit. reflexivity. }
    assert (Hrej : forall a, rejected c1 ty a = rejected c ty a).
    { intros a. unfold rejected. rewrite Htf. reflexivity. }
    simpl omap. rewrite Hitem.
    destruct (unprovided parsed).
    + destruct (IH (S i) parsed_args parsed_keys c1 Hp (in_pos_var_succ _ _ Hi) Hpol1)
        as (c' & Hrun & He & Hw & Ht).
      exists c'. rewrite Hrun, (omap_pointwise _ _ rest Hsame).
      split; [reflexivity|]. split; [congruence|]. split.
      * rewrite Hw, Hwarn. simpl. rewrite (filter_ext _ _ Hrej).
        destruct (rejected c ty arg); simpl; lia.
      * rewrite Ht, Htrans, <- app_assoc. reflexivity.
    + destruct (IH (S i) (parsed_args ++ [parsed]) parsed_keys c1 Hp
                  (in_pos_var_succ _ _ Hi) Hpol1)
        as (c' & Hrun & He & Hw & Ht).
      exists c'. rewrite Hrun, (omap_pointwise _ _ rest Hsame).
      split; [rewrite <- app_assoc; reflexivity|]. split; [congruence|]. split.
      * rewrite Hw, Hwarn. simpl. rewrite (filter_ext _ _ Hrej).
        destruct (rejected c ty arg); simpl; lia.
      * rewrite Ht, Htrans, <- app_assoc. reflexivity.
Qed.

Lemma variadic_items_never_fail_witness :
  exists c',
    FunctionParser.parse_args Inputs.star_args 0 [VStr "1"; VStr "x"; VInt 3] [] []
      (Inputs.items EXCLUDE false)
    = Runtime.Ok
        ([] ++ omap (variadic_item (Inputs.items EXCLUDE false) Sample.int_type)
                 [VStr "1"; VStr "x"; VInt 3], []) c'
    /\ Runtime.errors c' = Runtime.errors (Inputs.items EXCLUDE false)
    /\ length (Runtime.warnings c')
       = length (Runtime.warnings (Inputs.items EXCLUDE false))
         + length (List.filter (rejected (Inputs.items EXCLUDE false) Sample.int_type)
                     [VStr "1"; VStr "x"; VInt 3])
    /\ Runtime.transformed c'
       = Runtime.transformed (Inputs.items EXCLUDE false)
         ++ map (fun arg => (arg, Sample.int_type)) [VStr "1"; VStr "x"; VInt 3].
Proof.
  apply (variadic_items_never_fail Inputs.star_args Sample.int_type
           [VStr "1"; VStr "x"; VInt 3] 0 [] [] (Inputs.items EXCLUDE false)).
  - reflexivity.
  - reflexivity.
  - discriminate.
Defined.

Lemma parse_args_length (self : FunctionParser.t) (args : list Value) :
  forall (i : nat) (parsed_args : list Value) (parsed_keys : list string)
         (c c' : Runtime.Context) (result : list Value * list string),
    FunctionParser.parse_args self i args parsed_args parsed_keys c = Runtime.Ok result c' ->
    length (fst result) <= length parsed_args + length args.
Proof.
  induction args as [|arg rest IH]; intros i pa pk c c' result H.
  - injection H as <- _. simpl. lia.
  - simpl in H.
    assert (Hgrow : forall v, length (pa ++ [v]) + length rest = S (length pa + length rest)).
    { intros v. rewrite length_app. simpl. lia. }
    destruct (FunctionParser.in_pos_var self i).
    + unfold Runtime.bind in H.
      destruct (FunctionParser.parse_pos_type self i arg c) as [v c1|]; [|discriminate].
      destruct (unprovided v); apply IH in H; simpl; rewrite ?Hgrow in H; lia.
    + destruct (FunctionParser.index_lookup (FunctionParser.positional_fields self) i)
        as [field|].
      * unfold Runtime.bind in H. simpl in H.
        destruct (SchemaField.no_input field arg c).
        -- destruct (unprovided (SchemaField.get_default field c));
             apply IH in H; simpl; rewrite ?Hgrow in H; lia.
        -- destruct (SchemaField.parse_value field arg c) as [v c1|]; [|discriminate].
           destruct (unprovided v); apply IH in H; simpl; rewrite ?Hgrow in H; lia.
      * apply IH in H. simpl. rewrite Hgrow in H. lia.
Qed.

Lemma fill_positional_only_length (pos_only : list (nat * SchemaField.t)) :
  forall (parsed_args : list Value) (parsed_keys : list string)
         (c c' : Runtime.Context) (result : list Value * list string),
    FunctionParser.fill_positional_only pos_only parsed_args parsed_keys c
    = Runtime.Ok result c' ->
    length (fst result) <= length parsed_args + length pos_only.
Proof.
  induction pos_only as [|[index field] rest IH]; intros pa pk c c' result H.
  - injection H as <- _. simpl. lia.
  - simpl in H.
    destruct (FunctionParser.key_in (SchemaField.attname field) pk).
    + apply IH in H. simpl. lia.
    + unfold Runtime.bind in H. simpl in H.
      destruct (SchemaField.is_required field c).
      * destruct (Runtime.handle_error (AbsenceError (SchemaField.attname field)) false c)
          as [u c1|]; [|discriminate].
        apply IH in H. simpl. lia.
      * destruct (negb (unprovided (SchemaField.get_default field c)));
          apply IH in H; simpl; rewrite ?length_app in H; simpl in H; lia.
Qed.

Lemma positional_only_from_length (self : FunctionParser.t) (keys : list string) (i : nat) :
  length (FunctionParser.positional_only_from self i keys) <= length keys.
Proof.
  revert i. induction keys as [|key rest IH]; intros i; simpl; [lia|].
  destruct (FunctionParser.get_field self key); simpl; specialize (IH (S i)); lia.
Qed.

(** X15: parameter parsing never invents positional arguments: whatever
    the keyword data are parsed to, a call that gets through is passed at
    most as many positional arguments as it was given, plus one for each
    positional-only parameter of the signature (the defaults of those left
    out). *)
Theorem parse_params_positional_bound
    (parse_data : FunctionParser.t -> list (string * Value) -> list string ->
                  Runtime.M (list (string * Value)))
    (self : FunctionParser.t) (args : list Value) (kwargs : list (string * Value))
    (c c' : Runtime.Context) (parsed : list Value * list (string * Value)) :
  FunctionParser.parse_params parse_data self args kwargs c = Runtime.Ok parsed c' ->
  length (fst parsed) <= length args + length (FunctionParser.pos_only_keys self).
Proof.
  unfold FunctionParser.parse_params, Runtime.bind. intros H.
  destruct (FunctionParser.parse_args self 0 args [] [] c) as [step1 c1|] eqn:H1;
    [|discriminate].
  destruct (FunctionParser.fill_positional_only _ (fst step1) (snd step1) c1)
    as [step2 c2|] eqn:H2; [|discriminate].
  destruct (parse_data self kwargs (snd step2) c2) as [kw c3|]; [|discriminate].
  destruct (Runtime.raise_error c3) as [u c4|]; [|discriminate].
  injection H as <- _. simpl.
  apply parse_args_length in H1. apply fill_positional_only_length in H2.
  pose proof (positional_only_from_length self (FunctionParser.pos_only_keys self) 0) as H3.
  unfold FunctionParser.positional_only_fields in H2. simpl in H1. lia.
Qed.

Lemma parse_params_positional_bound_witness :
  length (fst ([VInt 1; VInt 2], @nil (string * Value)))
  <= length [VStr "1"; VInt 2] + length (FunctionParser.pos_only_keys Inputs.star_args).
Proof.
  apply (parse_params_positional_bound FunctionParser.parse_data Inputs.star_args
           [VStr "1"; VInt 2] [] (Inputs.items EXCLUDE false)
           (Runtime.with_transformed (Inputs.items EXCLUDE false)
              [(VStr "1", Sample.int_type); (VInt 2, Sample.int_type)])).
  reflexivity.
Defined.

Section FieldlessOrder.

Variable self : FunctionParser.t.

Lemma order_required_fieldless (k : string) (v : FunctionParser.Param) :
  FunctionParser.get_field self k = None ->
  FunctionParser.order_required self k v = param_defaulted v.
Proof. intros H. unfold FunctionParser.order_required, param_defaulted. rewrite H. reflexivity. Qed.

Lemma checked_lack_fields_cons p params :
  checked_lack_fields self (p :: params) -> checked_lack_fields self params.
Proof. intros H k v Hin. apply H. right. exact Hin. Qed.

Lemma checked_lack_fields_app pre post :
  checked_lack_fields self (pre ++ post) -> checked_lack_fields self post.
Proof. intros H k v Hin. apply H. apply in_or_app. right. exact Hin. Qed.

(** With a parameter without default on record, a positional-only
    parameter with a default further on stops the loop. *)
Lemma fieldless_raises_when_open params opt w0 :
  checked_lack_fields self params ->
  is_Some opt ->
  (exists k v, In (k, v) params
               /\ FunctionParser.kind v = FunctionParser.POSITIONAL_ONLY
               /\ param_defaulted v = true) ->
  exists msg, snd (FunctionParser.validate_order self params opt w0)
              = Some (SyntaxError msg).
Proof.
  revert opt w0. induction params as [|[k v] rest IH]; intros opt w0 Hl Hopt (k1 & v1 & Hin & Hk1 & Hd1).
  - destruct Hin.
  - pose proof (checked_lack_fields_cons _ _ Hl) as Hrest. simpl.
    destruct (FunctionParser.order_checked v) eqn:Hck; simpl.
    + rewrite (order_required_fieldless k v (Hl k v (or_introl eq_refl) Hck)).
      destruct (param_defaulted v) eqn:Hd.
      * destruct Hopt as [o ->].
        destruct (FunctionParser.is_kind (FunctionParser.kind v)
                    FunctionParser.POSITIONAL_ONLY) eqn:Hk; [simpl; eauto|].
        apply IH; [exact Hrest|eauto|].
        destruct Hin as [[= <- <-] | Hin]; [|eauto].
        rewrite Hk1 in Hk. discriminate.
      * apply IH; [exact Hrest|eauto|].
        destruct Hin as [[= <- <-] | Hin]; [congruence|eauto].
    + apply IH; [exact Hrest|exact Hopt|].
      destruct Hin as [[= <- <-] | Hin]; [|eauto].
      unfold FunctionParser.order_checked in Hck. rewrite Hk1 in Hck. discriminate.
Qed.

Lemma fieldless_raises pre k v post opt w0 :
  checked_lack_fields self (pre ++ (k, v) :: post) ->
  FunctionParser.order_checked v = true ->
  param_defaulted v = false ->
  (exists k1 v1, In (k1, v1) post
                 /\ FunctionParser.kind v1 = FunctionParser.POSITIONAL_ONLY
                 /\ param_defaulted v1 = true) ->
  exists msg, snd (FunctionParser.validate_order self (pre ++ (k, v) :: post) opt w0)
              = Some (SyntaxError msg).
Proof.
  revert opt w0. induction pre as [|[k0 v0] pre IH]; intros opt w0 Hl Hck Hd Hpost.
  - simpl. rewrite Hck. simpl.
    rewrite (order_required_fieldless k v (Hl k v (or_introl eq_refl) Hck)), Hd.
    apply fieldless_raises_when_open; [|eauto|exact Hpost].
    exact (checked_lack_fields_cons _ _ Hl).
  - pose proof (checked_lack_fields_cons _ _ Hl) as Hrest. simpl.
    destruct (FunctionParser.order_checked v0) eqn:Hck0; simpl; [|apply IH; assumption].
    destruct (FunctionParser.order_required self k0 v0); [|apply IH; assumption].
    destruct opt as [o|]; [|apply IH; assumption].
    destruct (FunctionParser.is_kind (FunctionParser.kind v0)
                FunctionParser.POSITIONAL_ONLY); [simpl; eauto|apply IH; assumption].
Qed.

Lemma fieldless_silent_after params opt w0 :
  checked_lack_fields self params ->
  (forall k v, In (k, v) params -> FunctionParser.order_checked v = true ->
               param_defaulted v = false) ->
  exists opt', FunctionParser.validate_order self params opt w0
               = FunctionParser.validate_order self [] opt' w0.
Proof.
  revert opt. induction params as [|[k v] rest IH]; intros opt Hl Hall; [eauto|].
  pose proof (checked_lack_fields_cons _ _ Hl) as Hrest. simpl.
  assert (Hall' : forall k v, In (k, v) rest -> FunctionParser.order_checked v = true ->
                              param_defaulted v = false).
  { intros k1 v1 Hin. apply (Hall k1 v1). right. exact Hin. }
  destruct (FunctionParser.order_checked v) eqn:Hck; simpl; [|apply IH; assumption].
  rewrite (order_required_fieldless k v (Hl k v (or_introl eq_refl) Hck)).
  rewrite (Hall k v (or_introl eq_refl) Hck). apply IH; assumption.
Qed.

Lemma fieldless_silent params w0 :
  checked_lack_fields self params ->
  (forall pre k v post, params = pre ++ (k, v) :: post ->
     FunctionParser.order_checked v = true -> param_defaulted v = true ->
     forall k0 v0, In (k0, v0) pre -> FunctionParser.order_checked v0 = true ->
                   param_defaulted v0 = true) ->
  FunctionParser.validate_order self params None w0 = (w0, None).
Proof.
  induction params as [|[k v] rest IH]; intros Hl Hord; [reflexivity|].
  pose proof (checked_lack_fields_cons _ _ Hl) as Hrest. simpl.
  assert (Hord' : forall pre k1 v1 post, rest = pre ++ (k1, v1) :: post ->
            FunctionParser.order_checked v1 = true -> param_defaulted v1 = true ->
            forall k0 v0, In (k0, v0) pre -> FunctionParser.order_checked v0 = true ->
                          param_defaulted v0 = true).
  { intros pre k1 v1 post -> Hc1 Hd1 k0 v0 Hin.
    apply (Hord ((k, v) :: pre) k1 v1 post eq_refl Hc1 Hd1 k0 v0). right. exact Hin. }
  destruct (FunctionParser.order_checked v) eqn:Hck; simpl; [|apply IH; assumption].
  rewrite (order_required_fieldless k v (Hl k v (or_introl eq_refl) Hck)).
  destruct (param_defaulted v) eqn:Hd; [apply IH; assumption|].
  destruct (fieldless_silent_after rest (Some k) w0 Hrest) as [opt' ->]; [|reflexivity].
  intros k1 v1 Hin Hc1. destruct (param_defaulted v1) eqn:Hd1; [|reflexivity].
  apply in_split in Hin as (pre & post & ->).
  assert (Hx : param_defaulted v = true).
  { apply (Hord ((k, v) :: pre) k1 v1 post eq_refl Hc1 Hd1 k v);
      [left; reflexivity|exact Hck]. }
  congruence.
Qed.

End FieldlessOrder.

(** X16: for parameters that have no schema field, [validate_fields]
    checks the default order the wrong way round.  A positional-only
    parameter that has a default and comes after a parameter without one,
    which is the order the language itself demands, raises a SyntaxError at
    decoration time; and a signature in which no parameter with a default
    comes after one without passes in silence. *)
Theorem fieldless_default_order_inverted (self : FunctionParser.t) :
  checked_lack_fields self (FunctionParser.parameters self) ->
  (forall pre k v post,
     FunctionParser.parameters self = pre ++ (k, v) :: post ->
     FunctionParser.order_checked v = true ->
     param_defaulted v = false ->
     (exists k1 v1, In (k1, v1) post
                    /\ FunctionParser.kind v1 = FunctionParser.POSITIONAL_ONLY
                    /\ param_defaulted v1 = true) ->
     exists msg, snd (FunctionParser.validate_fields self) = Some (SyntaxError msg))
  /\ ((forall pre k v post,
         FunctionParser.parameters self = pre ++ (k, v) :: post ->
         FunctionParser.order_checked v = true -> param_defaulted v = true ->
         forall k0 v0, In (k0, v0) pre -> FunctionParser.order_checked v0 = true ->
                       param_defaulted v0 = true) ->
      FunctionParser.validate_fields self = ([], None)).
Proof.
  intros Hl. unfold FunctionParser.validate_fields. split.
  - intros pre k v post Hp Hck Hd Hpost. rewrite Hp in *.
    apply fieldless_raises; assumption.
  - intros Hord. apply fieldless_silent; assumption.
Qed.

Lemma private_names_lack_fields :
  checked_lack_fields Inputs.private_a_b1 (FunctionParser.parameters Inputs.private_a_b1).
Proof. intros k v _ _. reflexivity. Defined.

Lemma fieldless_default_order_inverted_witness :
  exists msg, snd (FunctionParser.validate_fields Inputs.private_a_b1)
              = Some (SyntaxError msg).
Proof.
  apply (proj1 (fieldless_default_order_inverted Inputs.private_a_b1
                  private_names_lack_fields)
           [] "_a" _ _ eq_refl eq_refl eq_refl).
  eexists _, _. split; [left; reflexivity|]. split; reflexivity.
Defined.

(** X17: a positional-only parameter whose field is closed to input and
    has a default is passed twice.  When an argument is given for it, step 1
    of [parse_params] puts the default in its place without recording the
    parameter as parsed, and step 2, finding it unparsed and not required,
    appends the default once more: the function that declares one
    positional parameter is handed two positional arguments. *)
Theorem no_input_default_passed_twice
    (parse_data : FunctionParser.t -> list (string * Value) -> list string ->
                  Runtime.M (list (string * Value)))
    (obj k : string) (v : FunctionParser.Param) (f : SchemaField.t)
    (arg d : Value) (kwargs parsed_kwargs : list (string * Value))
    (c c' : Runtime.Context) :
  FunctionParser.kind v = FunctionParser.POSITIONAL_ONLY ->
  SchemaField.name f = k ->
  SchemaField.no_input f arg c = true ->
  SchemaField.is_required f c = false ->
  SchemaField.get_default f c = d ->
  unprovided d = false ->
  parse_data (FunctionParser.make obj [(k, v)] [f] None None None None None)
    kwargs [SchemaField.attname f] c = Runtime.Ok parsed_kwargs c' ->
  Runtime.errors c' = [] ->
  FunctionParser.parse_params parse_data
    (FunctionParser.make obj [(k, v)] [f] None None None None None) [arg] kwargs c
  = Runtime.Ok ([d; d], parsed_kwargs) c'.
Proof.
  intros Hk Hname Hni Hreq Hd Hu Hdata Herr.
  set (self := FunctionParser.make obj [(k, v)] [f] None None None None None) in *.
  assert (Hget : FunctionParser.get_field self k = Some f).
  { unfold FunctionParser.get_field, self, FunctionParser.make. simpl. rewrite Hk. simpl.
    rewrite Hname, String.eqb_refl. reflexivity. }
  assert (Hpos : FunctionParser.positional_fields self = [(0, f)]).
  { unfold FunctionParser.positional_fields.
    assert (Hm : FunctionParser.pos_key_map self = [(0, k)]).
    { unfold self, FunctionParser.make. simpl. rewrite Hk. reflexivity. }
    rewrite Hm. simpl. rewrite Hget. reflexivity. }
  assert (Honly : FunctionParser.positional_only_fields self = [(0, f)]).
  { unfold FunctionParser.positional_only_fields.
    assert (Hm : FunctionParser.pos_only_keys self = [k]).
    { unfold self, FunctionParser.make. simpl. rewrite Hk. reflexivity. }
    rewrite Hm. simpl. rewrite Hget. reflexivity. }
  assert (Hvar : FunctionParser.in_pos_var self 0 = false).
  { unfold FunctionParser.in_pos_var, self, FunctionParser.make. simpl. rewrite Hk.
    reflexivity. }
  assert (H1 : FunctionParser.parse_args self 0 [arg] [] [] c = Runtime.Ok ([d], []) c).
  { simpl. rewrite Hvar, Hpos. simpl.
    rewrite (bind_Ok Runtime.ask _ c c c eq_refl). rewrite Hni, Hd, Hu. reflexivity. }
  assert (H2 : FunctionParser.fill_positional_only (FunctionParser.positional_only_fields self)
                 [d] [] c = Runtime.Ok ([d; d], [SchemaField.attname f]) c).
  { rewrite Honly. simpl.
    rewrite (bind_Ok Runtime.ask _ c c c eq_refl). rewrite Hreq, Hd, Hu. reflexivity. }
  unfold FunctionParser.parse_params.
  rewrite (bind_Ok _ _ _ _ _ H1). simpl fst. simpl snd.
  rewrite (bind_Ok _ _ _ _ _ H2). simpl fst. simpl snd.
  rewrite (bind_Ok _ _ _ _ _ Hdata).
  assert (Hr : Runtime.raise_error c' = Runtime.Ok tt c').
  { unfold Runtime.raise_error. rewrite Herr. reflexivity. }
  rewrite (bind_Ok _ _ _ _ _ Hr). reflexivity.
Qed.

Lemma no_input_default_passed_twice_witness :
  FunctionParser.parse_params FunctionParser.parse_data
    (FunctionParser.make "f" [("a", Sample.param FunctionParser.POSITIONAL_ONLY
                                     (Some (FunctionParser.FieldDefault
                                              (SchemaField.field Inputs.never_input))))]
       [Inputs.never_input] None None None None None)
    [VInt 3] [] (Sample.context THROW false)
  = Runtime.Ok ([VInt 5; VInt 5], []) (Sample.context THROW false).
Proof.
  exact (no_input_default_passed_twice FunctionParser.parse_data "f" "a"
           (Sample.param FunctionParser.POSITIONAL_ONLY
              (Some (FunctionParser.FieldDefault (SchemaField.field Inputs.never_input))))
           Inputs.never_input (VInt 3) (VInt 5) [] [] (Sample.context THROW false)
           (Sample.context THROW false) eq_refl eq_refl eq_refl eq_refl eq_refl eq_refl
           eq_refl eq_refl).
Defined.

(** ** Calls *)

(** X18: a callable that was wrapped in the context of a class and takes
    a receiver is never handed a receiver that is not an instance of that
    class: whenever [get_params] gets through, the first of the arguments it
    answers with is the receiver and passes the instance test. *)
Theorem get_params_receiver_checked
    (parse_data : FunctionParser.t -> list (string * Value) -> list string ->
                  Runtime.M (list (string * Value)))
    (pop : list (string * Value) -> string -> Value * list (string * Value))
    (class_of : Value -> Value) (isinstance : Value -> string -> bool)
    (self : FunctionParser.t) (args : list Value) (kwargs : list (string * Value))
    (first_reserve parse_params : option bool) (c c' : Runtime.Context)
    (result : list Value * list (string * Value)) (cls : string) :
  FunctionParser.get_params parse_data pop class_of isinstance self args kwargs
    first_reserve parse_params c = Runtime.Ok result c' ->
  truthy_flag (match first_reserve with
               | None => FunctionParser.first_reserve self
               | Some b => Some b
               end) = true ->
  FunctionParser.from_class self = Some cls ->
  exists receiver rest,
    fst result = receiver :: rest /\ isinstance receiver cls = true.
Proof.
  unfold FunctionParser.get_params. intros H Hfr Hcls.
  rewrite Hfr, Hcls in H.
  destruct (FunctionParser.take_receiver pop class_of self args kwargs)
    as [[receiver args'] kwargs'].
  unfold Runtime.bind in H.
  destruct ((if truthy_flag parse_params
             then FunctionParser.parse_params parse_data self args' kwargs'
             else Runtime.ret (args', kwargs')) c) as [parsed c1|]; [|discriminate].
  destruct (isinstance receiver cls) eqn:Hi; simpl in H; [|discriminate].
  injection H as <- _. exists receiver, (fst parsed). split; [reflexivity|exact Hi].
Qed.

Lemma get_params_receiver_checked_witness :
  exists receiver rest,
    fst ([VInt 7; VInt 1], @nil (string * Value)) = receiver :: rest
    /\ Sample.any_instance receiver "C" = true.
Proof.
  apply (get_params_receiver_checked FunctionParser.parse_data Sample.pop Sample.no_class
           Sample.any_instance Inputs.method_of_C [VInt 7; VInt 1] [] None None
           (Sample.context THROW false) (Sample.context THROW false)
           ([VInt 7; VInt 1], []) "C").
  - reflexivity.
  - reflexivity.
  - reflexivity.
Defined.

(** X19: a wrapper made without asking for anything (the default of
    [wrap]) around a plain function that takes no receiver adds nothing to
    the call: the function gets the arguments as they came, what it returns
    or raises is the outcome, and the context is left as it was. *)
Theorem wrapper_without_flags_is_transparent
    (parse_data : FunctionParser.t -> list (string * Value) -> list string ->
                  Runtime.M (list (string * Value)))
    (pop : list (string * Value) -> string -> Value * list (string * Value))
    (class_of : Value -> Value) (isinstance : Value -> string -> bool)
    (func : list Value -> list (string * Value) -> Exn + Value)
    (self : FunctionParser.t) (args : list Value) (kwargs : list (string * Value))
    (c : Runtime.Context) :
  truthy_flag (FunctionParser.first_reserve self) = false ->
  FunctionParser.sync_call parse_data pop class_of isinstance func self args kwargs
    None None None c
  = match func args kwargs with
    | inl e => Runtime.Raise e c
    | inr result => Runtime.Ok result c
    end
  /\ FunctionParser.async_call parse_data pop class_of isinstance func self args kwargs
       None None None c
     = match func args kwargs with
       | inl e => Runtime.Raise e c
       | inr result => Runtime.Ok result c
       end.
Proof.
  intros Hfr.
  assert (Hp : FunctionParser.get_params parse_data pop class_of isinstance self args kwargs
                 None None c = Runtime.Ok (args, kwargs) c).
  { unfold FunctionParser.get_params. rewrite Hfr. reflexivity. }
  unfold FunctionParser.sync_call, FunctionParser.async_call.
  rewrite !(bind_Ok _ _ _ _ _ Hp). simpl.
  destruct (func args kwargs); split; reflexivity.
Qed.

Lemma wrapper_without_flags_is_transparent_witness :
  FunctionParser.sync_call FunctionParser.parse_data Sample.pop Sample.no_class
    Sample.any_instance Sample.echo Sample.int_to_int [VStr "x"] [] None None None
    (Sample.context THROW false)
  = Runtime.Ok (VStr "x") (Sample.context THROW false)
  /\ FunctionParser.async_call FunctionParser.parse_data Sample.pop Sample.no_class
       Sample.any_instance Sample.echo Sample.int_to_int [VStr "x"] [] None None None
       (Sample.context THROW false)
     = Runtime.Ok (VStr "x") (Sample.context THROW false).
Proof.
  exact (wrapper_without_flags_is_transparent FunctionParser.parse_data Sample.pop
           Sample.no_class Sample.any_instance Sample.echo Sample.int_to_int
           [VStr "x"] [] (Sample.context THROW false) eq_refl).
Defined.

(** ** Synchronous generators *)

(** X26: in a wrapped synchronous generator with declared yield and
    return types, a plain item that the wrapper pulls from the underlying
    generator is coerced to the yield type before it is re-yielded, and one
    that fails coercion raises a ParseError whose item is
    [<generator.yield[i]>], [i] being the number of items the wrapper has
    delivered so far; a return value other than None that the wrapper pulls
    is coerced to the return type and returned, whereas on a None return the
    transformer is not called and the consumer gets the RuntimeError of a
    StopIteration raised inside a generator; a value other than None that is
    sent in is coerced to the send type, when one is declared, a failure
    raising a ParseError whose item is [<generator.send[i]>], and the coerced
    value is what the underlying generator is resumed with: what it answers
    is dropped, and when it is exhausted by it the consumer gets the same
    RuntimeError; and a pulled item that is itself a generator takes the
    place of the underlying generator, the count staying as it is. *)
Theorem sync_generator_coercions {G : Type} (send : G -> Value -> Generator.Step G)
    (self : FunctionParser.t) (yt rt : Ty) (fuel : nat)
    (frame : Generator.Frame G) (c : Runtime.Context) :
  FunctionParser.generator_yield_type self = Some yt ->
  FunctionParser.generator_return_type self = Some rt ->
  (forall item rest parsed,
     send (current frame) VNone = Generator.Yields (Generator.Plain item) rest ->
     Runtime.transformer c item yt = inr parsed ->
     Generator.resume send self (S fuel) frame VNone c
     = Runtime.Ok (Some (Generator.Yield parsed (Generator.AtYield rest (next_index frame))))
         (transformed_once c item yt))
  /\ (forall item rest e,
        send (current frame) VNone = Generator.Yields (Generator.Plain item) rest ->
        Runtime.transformer c item yt = inl e ->
        Generator.resume send self (S fuel) frame VNone c
        = Runtime.Raise (ParseError (Generator.yield_item (next_index frame)) yt item e)
            (transformed_once c item yt))
  /\ (forall result parsed,
        send (current frame) VNone = Generator.Returns result ->
        is_None result = false ->
        Runtime.transformer c result rt = inr parsed ->
        Generator.resume send self (S fuel) frame VNone c
        = Runtime.Ok (Some (Generator.Return parsed)) (transformed_once c result rt))
  /\ (send (current frame) VNone = Generator.Returns VNone ->
      Generator.resume send self (S fuel) frame VNone c
      = Runtime.Ok (Some (Generator.RuntimeError "generator raised StopIteration")) c)
  /\ (forall st g i sent parsed,
        FunctionParser.generator_send_type self = Some st ->
        frame = Generator.AtYield g i ->
        is_None sent = false ->
        Runtime.transformer c sent st = inr parsed ->
        Generator.resume send self fuel frame sent c
        = match send g parsed with
          | Generator.Yields _ rest =>
              Generator.pump send self fuel rest (S i) (transformed_once c sent st)
          | Generator.Returns _ | Generator.Throws (StopIteration _) =>
              Runtime.Ok (Some (Generator.RuntimeError "generator raised StopIteration"))
                (transformed_once c sent st)
          | Generator.Throws e => Runtime.Raise e (transformed_once c sent st)
          end)
  /\ (forall st g i sent e,
        FunctionParser.generator_send_type self = Some st ->
        frame = Generator.AtYield g i ->
        is_None sent = false ->
        Runtime.transformer c sent st = inl e ->
        Generator.resume send self fuel frame sent c
        = Runtime.Raise (ParseError (Generator.send_item i) st sent e)
            (transformed_once c sent st))
  /\ (forall inner rest,
        send (current frame) VNone = Generator.Yields (Generator.Nested inner) rest ->
        Generator.resume send self (S fuel) frame VNone c
        = Generator.pump send self fuel inner (next_index frame) c)
  /\ (forall g0 c0 sents items,
        drives send self (S fuel) (Generator.Created g0) c0 sents items frame c ->
        next_index frame = length items).
Proof.
  intros Hy Hr. repeat split.
  - intros item rest parsed Hstep Ht. rewrite resume_pulls. simpl. rewrite Hstep.
    unfold Runtime.bind. rewrite (parse_yield_ok self _ _ _ _ _ Hy Ht). reflexivity.
  - intros item rest e Hstep Ht. rewrite resume_pulls. simpl. rewrite Hstep.
    unfold Runtime.bind. rewrite (parse_yield_fails self _ _ _ _ _ Hy Ht). reflexivity.
  - intros result parsed Hstep Hn Ht. rewrite resume_pulls. simpl. rewrite Hstep, Hr, Hn.
    unfold Runtime.bind, Runtime.transform. rewrite Ht. reflexivity.
  - intros Hstep. rewrite resume_pulls. simpl. rewrite Hstep, Hr. reflexivity.
  - intros st g i sent parsed Hs -> Hn Ht. unfold Generator.resume. rewrite Hn.
    unfold Runtime.bind, Generator.parse_sent. rewrite Hs.
    unfold Runtime.bind, Runtime.transform. rewrite Ht. simpl.
    destruct (send g parsed) as [y rest|r|e]; try reflexivity. destruct e; reflexivity.
  - intros st g i sent e Hs -> Hn Ht. unfold Generator.resume. rewrite Hn.
    unfold Runtime.bind, Generator.parse_sent. rewrite Hs.
    unfold Runtime.bind, Runtime.transform. rewrite Ht. reflexivity.
  - intros inner rest Hstep. rewrite resume_pulls. simpl. rewrite Hstep. reflexivity.
  - intros g0 c0 sents items Hd. apply (drives_counts _ _ _ _ _ _ _ _ _ Hd).
Qed.

Lemma sync_generator_coercions_witness :
  Generator.resume Sample.script_send Sample.int_generator 1
    (Generator.Created {| Sample.items := [VStr "3"]; Sample.result := VInt 9 |}) VNone
    (Sample.context THROW false)
  = Runtime.Ok
      (Some (Generator.Yield (VInt 3)
               (Generator.AtYield {| Sample.items := []; Sample.result := VInt 9 |} 0)))
      (transformed_once (Sample.context THROW false) (VStr "3") Sample.int_type)
  /\ Generator.resume Sample.script_send Sample.int_generator 1
       (Generator.AtYield {| Sample.items := []; Sample.result := VInt 9 |} 0) VNone
       (Sample.context THROW false)
     = Runtime.Ok (Some (Generator.Return (VStr "9")))
         (transformed_once (Sample.context THROW false) (VInt 9) Sample.str_type)
  /\ Generator.resume Sample.script_send Sample.int_generator 1
       (Generator.AtYield {| Sample.items := [VStr "x"]; Sample.result := VInt 9 |} 0) VNone
       (Sample.context THROW false)
     = Runtime.Raise
         (ParseError (ItemName "<generator.yield[1]>") Sample.int_type (VStr "x")
            (CoercionError "invalid literal for int()"))
         (transformed_once (Sample.context THROW false) (VStr "x") Sample.int_type).
Proof.
  split; [|split].
  - exact (proj1 (sync_generator_coercions Sample.script_send Sample.int_generator
                    Sample.int_type Sample.str_type 0
                    (Generator.Created {| Sample.items := [VStr "3"]; Sample.result := VInt 9 |})
                    (Sample.context THROW false) eq_refl eq_refl)
             (VStr "3") _ (VInt 3) eq_refl eq_refl).
  - exact (proj1 (proj2 (proj2 (sync_generator_coercions Sample.script_send
                    Sample.int_generator Sample.int_type Sample.str_type 0
                    (Generator.AtYield {| Sample.items := []; Sample.result := VInt 9 |} 0)
                    (Sample.context THROW false) eq_refl eq_refl)))
             (VInt 9) (VStr "9") eq_refl eq_refl eq_refl).
  - exact (proj1 (proj2 (sync_generator_coercions Sample.script_send Sample.int_generator
                    Sample.int_type Sample.str_type 0
                    (Generator.AtYield {| Sample.items := [VStr "x"]; Sample.result := VInt 9 |} 0)
                    (Sample.context THROW false) eq_refl eq_refl))
             (VStr "x") _ _ eq_refl eq_refl).
Defined.

(** ** Asynchronous generators *)

Section AsyncGeneratorFacts.

Context {G : Type}.
Variable parse_data :
  FunctionParser.t -> list (string * Value) -> list string ->
  Runtime.M (list (string * Value)).
Variable pop : list (string * Value) -> string -> Value * list (string * Value).
Variable class_of : Value -> Value.
Variable isinstance : Value -> string -> bool.
Variable func : list Value -> list (string * Value) -> Exn + G.
Variable asend : G -> Value -> AsyncGenerator.Step G.
Variable self : FunctionParser.t.
Variables first_reserve parse_params parse_result : option bool.

Lemma async_pull_unparsed (g : G) (i : nat) (c : Runtime.Context) :
  truthy_flag parse_result = false ->
  AsyncGenerator.pull asend self parse_result g i c
  = match asend g VNone with
    | AsyncGenerator.Yields item rest =>
        Runtime.Ok (AsyncGenerator.Yield item (AsyncGenerator.AtYield rest i)) c
    | AsyncGenerator.Ends => Runtime.Ok AsyncGenerator.End c
    | AsyncGenerator.Throws e => Runtime.Raise e c
    end.
Proof.
  intros Hf. unfold AsyncGenerator.pull, AsyncGenerator.parse_yield. rewrite Hf.
  destruct (asend g VNone); reflexivity.
Qed.

(** X20: an asynchronous generator wrapper for which result parsing is
    not asked for (the default of [wrap]) never calls the transformer once
    it is running: a resumption leaves the context of the call as it was,
    and an item that it delivers is the very item that the underlying
    generator yielded when it was asked for its next one; what the
    underlying generator answers to a value sent in is not delivered. *)
Theorem async_generator_without_parsing (g : G) (i : nat) (sent : Value)
    (c : Runtime.Context) :
  truthy_flag parse_result = false ->
  context_of (AsyncGenerator.resume parse_data pop class_of isinstance func asend self
          first_reserve parse_params parse_result (AsyncGenerator.AtYield g i) sent c) = c
  /\ (forall item frame c',
        AsyncGenerator.resume parse_data pop class_of isinstance func asend self
          first_reserve parse_params parse_result (AsyncGenerator.AtYield g i) sent c
        = Runtime.Ok (AsyncGenerator.Yield item frame) c' ->
        exists g0 rest,
          asend g0 VNone = AsyncGenerator.Yields item rest
          /\ frame = AsyncGenerator.AtYield rest (S i)
          /\ (is_None sent = true -> g0 = g)
          /\ (is_None sent = false ->
              exists answer, asend g sent = AsyncGenerator.Yields answer g0)).
Proof.
  intros Hf. unfold AsyncGenerator.resume.
  destruct (is_None sent) eqn:Hs.
  - rewrite (async_pull_unparsed g (S i) c Hf). split.
    + destruct (asend g VNone); reflexivity.
    + intros item frame c' H. destruct (asend g VNone) as [it rest| |e] eqn:Hg;
        try discriminate.
      injection H as <- <- _. exists g, rest. repeat split; auto. discriminate.
  - assert (Hp : AsyncGenerator.parse_sent self parse_result i sent c = Runtime.Ok sent c).
    { unfold AsyncGenerator.parse_sent. rewrite Hf. reflexivity. }
    rewrite (bind_Ok _ _ _ _ _ Hp).
    destruct (asend g sent) as [answer g0| |e] eqn:Hg.
    + rewrite (async_pull_unparsed g0 (S i) c Hf). split.
      * destruct (asend g0 VNone); reflexivity.
      * intros item frame c' H. destruct (asend g0 VNone) as [it rest| |e] eqn:Hg0;
          try discriminate.
        injection H as <- <- _. exists g0, rest. repeat split; auto; [discriminate|eauto].
    + split; [reflexivity|]. intros item frame c' H. discriminate.
    + split; [reflexivity|]. intros item frame c' H. discriminate.
Qed.

(** X21: with result parsing asked for and a declared yield type, an item
    that the asynchronous wrapper pulls is coerced before it is delivered,
    and one that fails coercion raises a ParseError at once, whether or not
    the call aggregates its errors; the item of that error is
    [<asyncgenerator.yield[i]>], where [i] is 0 for the first item and one
    more than the index of the item delivered before otherwise.  The first
    resumption is the one that takes the parameters and calls the
    function. *)
Theorem async_generator_coercions (yt : Ty) (c : Runtime.Context) :
  truthy_flag parse_result = true ->
  FunctionParser.generator_yield_type self = Some yt ->
  (forall g i item rest parsed,
     asend g VNone = AsyncGenerator.Yields item rest ->
     Runtime.transformer c item yt = inr parsed ->
     AsyncGenerator.resume parse_data pop class_of isinstance func asend self
          first_reserve parse_params parse_result (AsyncGenerator.AtYield g i) VNone c
     = Runtime.Ok (AsyncGenerator.Yield parsed (AsyncGenerator.AtYield rest (S i)))
         (transformed_once c item yt))
  /\ (forall g i item rest e,
        asend g VNone = AsyncGenerator.Yields item rest ->
        Runtime.transformer c item yt = inl e ->
        AsyncGenerator.resume parse_data pop class_of isinstance func asend self
          first_reserve parse_params parse_result (AsyncGenerator.AtYield g i) VNone c
        = Runtime.Raise
            (ParseError (AsyncGenerator.yield_item (S i)) yt item e)
            (transformed_once c item yt))
  /\ (forall args kwargs params c1 g item rest e,
        FunctionParser.get_params parse_data pop class_of isinstance self args kwargs
          first_reserve parse_params c = Runtime.Ok params c1 ->
        func (fst params) (snd params) = inr g ->
        asend g VNone = AsyncGenerator.Yields item rest ->
        Runtime.transformer c1 item yt = inl e ->
        AsyncGenerator.resume parse_data pop class_of isinstance func asend self
          first_reserve parse_params parse_result (AsyncGenerator.Created args kwargs) VNone c
        = Runtime.Raise
            (ParseError (AsyncGenerator.yield_item 0) yt item e)
            (transformed_once c1 item yt))
  /\ (forall g i, asend g VNone = AsyncGenerator.Ends ->
        AsyncGenerator.resume parse_data pop class_of isinstance func asend self
          first_reserve parse_params parse_result (AsyncGenerator.AtYield g i) VNone c = Runtime.Ok AsyncGenerator.End c).
Proof.
  intros Hf Hy.
  assert (Hok : forall c0 g i item rest parsed,
            asend g VNone = AsyncGenerator.Yields item rest ->
            Runtime.transformer c0 item yt = inr parsed ->
            AsyncGenerator.pull asend self parse_result g i c0
            = Runtime.Ok (AsyncGenerator.Yield parsed (AsyncGenerator.AtYield rest i))
                (transformed_once c0 item yt)).
  { intros c0 g i item rest parsed Hg Ht.
    unfold AsyncGenerator.pull, AsyncGenerator.parse_yield. rewrite Hg, Hf, Hy.
    unfold Runtime.bind, Runtime.transform. rewrite Ht. reflexivity. }
  assert (Hfail : forall c0 g i item rest e,
            asend g VNone = AsyncGenerator.Yields item rest ->
            Runtime.transformer c0 item yt = inl e ->
            AsyncGenerator.pull asend self parse_result g i c0
            = Runtime.Raise (ParseError (AsyncGenerator.yield_item i) yt item e)
                (transformed_once c0 item yt)).
  { intros c0 g i item rest e Hg Ht.
    unfold AsyncGenerator.pull, AsyncGenerator.parse_yield. rewrite Hg, Hf, Hy.
    unfold Runtime.bind, Runtime.transform. rewrite Ht. reflexivity. }
  repeat split.
  - intros g i item rest parsed Hg Ht. simpl. eapply Hok; eassumption.
  - intros g i item rest e Hg Ht. simpl. eapply Hfail; eassumption.
  - intros args kwargs params c1 g item rest e Hp Hfn Hg Ht. simpl.
    rewrite (bind_Ok _ _ _ _ _ Hp), Hfn. eapply Hfail; eassumption.
  - intros g i Hg. simpl. unfold AsyncGenerator.pull. rewrite Hg. reflexivity.
Qed.

End AsyncGeneratorFacts.

Lemma async_generator_without_parsing_witness :
  context_of
    (AsyncGenerator.resume FunctionParser.parse_data Sample.pop Sample.no_class
       Sample.any_instance Inputs.yield_args Inputs.items_asend Inputs.int_async_generator
       None None None (AsyncGenerator.AtYield [VStr "x"] 0) VNone (Sample.context THROW false))
  = Sample.context THROW false.
Proof.
  exact (proj1 (async_generator_without_parsing FunctionParser.parse_data Sample.pop
                  Sample.no_class Sample.any_instance Inputs.yield_args Inputs.items_asend
                  Inputs.int_async_generator None None None [VStr "x"] 0 VNone
                  (Sample.context THROW false) eq_refl)).
Defined.

Lemma async_generator_coercions_witness :
  AsyncGenerator.resume FunctionParser.parse_data Sample.pop Sample.no_class
    Sample.any_instance Inputs.yield_args Inputs.items_asend Inputs.int_async_generator
    None None (Some true) (AsyncGenerator.AtYield [VStr "x"] 0) VNone
    (Sample.context THROW true)
  = Runtime.Raise
      (ParseError (ItemName "<asyncgenerator.yield[1]>") Sample.int_type (VStr "x")
         (CoercionError "invalid literal for int()"))
      (transformed_once (Sample.context THROW true) (VStr "x") Sample.int_type).
Proof.
  exact (proj1 (proj2 (async_generator_coercions FunctionParser.parse_data Sample.pop
                         Sample.no_class Sample.any_instance Inputs.yield_args
                         Inputs.items_asend Inputs.int_async_generator None None (Some true)
                         Sample.int_type (Sample.context THROW true) eq_refl eq_refl))
           [VStr "x"] 0 (VStr "x") [] _ eq_refl eq_refl).
Defined.

(** ** Classes *)

Lemma collect_fields_accepts (generated : list SchemaField.t)
    (m0 : gmap string SchemaField.t) :
  (exists fm, ClassParser.collect_fields generated m0 = inr fm)
  <-> NoDup (map SchemaField.name generated)
      /\ (forall field, In field generated -> m0 !! SchemaField.name field = None).
Proof.
  revert m0. induction generated as [|g rest IH]; intros m0; simpl.
  - split; [intros _; split; [constructor|intros ? []]|eauto].
  - destruct (m0 !! SchemaField.name g) eqn:Hg.
    + split; [intros [? H]; discriminate|].
      intros [_ H]. rewrite (H g (or_introl eq_refl)) in Hg. discriminate.
    + rewrite IH. split.
      * intros [Hnd Hfree]. split.
        -- constructor; [|exact Hnd]. intros Hin. apply list_elem_of_In in Hin.
           apply in_map_iff in Hin as (f & Hn & Hf).
           specialize (Hfree f Hf). rewrite <- Hn, lookup_insert_eq in Hfree. discriminate.
        -- intros f [<- | Hf]; [exact Hg|].
           specialize (Hfree f Hf).
           destruct (decide (SchemaField.name g = SchemaField.name f)) as [Heq|Hne].
           ++ rewrite Heq, lookup_insert_eq in Hfree. discriminate.
           ++ rewrite lookup_insert_ne in Hfree by exact Hne. exact Hfree.
      * intros [Hnd Hfree]. apply NoDup_cons in Hnd as [Hnotin Hnd]. split; [exact Hnd|].
        intros f Hf. rewrite lookup_insert_ne.
        -- apply Hfree. right. exact Hf.
        -- intros Heq. apply Hnotin. rewrite Heq. apply list_elem_of_In. apply in_map.
           exact Hf.
Qed.

Lemma collect_fields_rejects (generated : list SchemaField.t)
    (m0 : gmap string SchemaField.t) (e : Exn) :
  ClassParser.collect_fields generated m0 = inl e ->
  exists pre field post,
    generated = pre ++ field :: post
    /\ (In (SchemaField.name field) (map SchemaField.name pre)
        \/ is_Some (m0 !! SchemaField.name field))
    /\ e = ValueError ("field name: " +:+ repr (SchemaField.name field) +:+ " conflicted").
Proof.
  revert m0. induction generated as [|g rest IH]; intros m0 H; simpl in H; [discriminate|].
  destruct (m0 !! SchemaField.name g) eqn:Hg.
  - injection H as <-. exists [], g, rest. split; [reflexivity|]. split; [right; eauto|reflexivity].
  - destruct (IH _ H) as (pre & f & post & -> & Hwhy & ->).
    exists (g :: pre), f, post. split; [reflexivity|]. split; [|reflexivity].
    destruct Hwhy as [Hin | [x Hx]]; [left; right; exact Hin|].
    destruct (decide (SchemaField.name g = SchemaField.name f)) as [Heq|Hne].
    + left. left. exact Heq.
    + rewrite lookup_insert_ne in Hx by exact Hne. right. eauto.
Qed.

(** X22: laying the fields that a class declares itself over the
    inherited ones fails exactly when two of those fields resolve to the
    same name, the error naming a name that a field shares with an earlier
    one; a clash with an inherited field is no failure. *)
Theorem generate_fields_fails_on_clash (self : ClassParser.t)
    (generated : list SchemaField.t) :
  ((exists p, ClassParser.generate_fields self generated = inr p)
   <-> NoDup (map SchemaField.name generated))
  /\ (forall e, ClassParser.generate_fields self generated = inl e ->
        exists pre field post,
          generated = pre ++ field :: post
          /\ In (SchemaField.name field) (map SchemaField.name pre)
          /\ e = ValueError ("field name: " +:+ repr (SchemaField.name field)
                             +:+ " conflicted")).
Proof.
  unfold ClassParser.generate_fields. split.
  - pose proof (collect_fields_accepts generated ∅) as H.
    destruct (ClassParser.collect_fields generated ∅) as [e|fm].
    + split; [intros [? Hx]; discriminate|].
      intros Hnd. destruct (proj2 H) as [? Hx]; [|discriminate].
      split; [exact Hnd|]. intros. apply lookup_empty.
    + split; [|eauto]. intros _. apply H. eauto.
  - intros e H.
    destruct (ClassParser.collect_fields generated ∅) as [e'|fm] eqn:Hc; [|discriminate].
    injection H as <-.
    destruct (collect_fields_rejects _ _ _ Hc) as (pre & f & post & Hg & Hwhy & He).
    exists pre, f, post. split; [exact Hg|]. split; [|exact He].
    destruct Hwhy as [Hin | [x Hx]]; [exact Hin|].
    rewrite lookup_empty in Hx. discriminate.
Qed.

(** X23: the default setter refuses, with an AttributeError, exactly when
    the schema or the field is immutable.  Otherwise it parses the value
    through the field: when that raises, so does the setter, and nothing is
    stored; when it answers, what is stored under the attribute name is the
    parsed value and not the raw one, the other attributes stay as they are,
    the hook, if any, is run on the instance so updated, and without a hook
    the default getter then answers that parsed value. *)
Theorem setter_stores_parsed_value (name : string) (options_immutable : bool)
    (field : SchemaField.t)
    (post_setattr : option (ClassParser.Instance -> SchemaField.t -> Value ->
                            Runtime.M ClassParser.Instance))
    (instance : ClassParser.Instance) (value : Value) :
  match ClassParser.make_setter name options_immutable field post_setattr instance value with
  | inl failure =>
      options_immutable || SchemaField.immutable field = true
      /\ exists msg, failure = ClassParser.AttributeError msg
  | inr run =>
      options_immutable || SchemaField.immutable field = false
      /\ forall c,
           match SchemaField.parse_value field value c with
           | Runtime.Raise e c' => run c = Runtime.Raise e c'
           | Runtime.Ok parsed c' =>
               let stored := <[ SchemaField.attname field := parsed ]> instance in
               run c = match post_setattr with
                       | Some hook => hook stored field parsed c'
                       | None => Runtime.Ok stored c'
                       end
               /\ ClassParser.make_getter name field stored = inr parsed
               /\ (forall k, k <> SchemaField.attname field -> stored !! k = instance !! k)
           end
  end.
Proof.
  unfold ClassParser.make_setter.
  destruct (options_immutable || SchemaField.immutable field).
  - split; [reflexivity|eauto].
  - split; [reflexivity|]. intros c. unfold Runtime.bind.
    destruct (SchemaField.parse_value field value c) as [parsed c'|e c']; [|reflexivity].
    cbv zeta. split; [destruct post_setattr; reflexivity|]. split.
    + unfold ClassParser.make_getter.
      rewrite (lookup_insert_eq instance (SchemaField.attname field) parsed). reflexivity.
    + intros k Hk. apply lookup_insert_ne. congruence.
Qed.

(** X24: the default deleter removes an attribute exactly when neither
    the schema nor the field is immutable, the field is not required under
    the runtime options, and the attribute is set.  The instance is then as
    before without that attribute: the default getter fails on it, and so
    does deleting once more. *)
Theorem deleter_removes_optional_attribute (name : string) (options_immutable : bool)
    (field : SchemaField.t) (options : Runtime.Context) (instance : ClassParser.Instance) :
  ((exists instance',
      ClassParser.make_deleter name options_immutable field None options instance
      = inr instance')
   <-> options_immutable || SchemaField.immutable field = false
       /\ SchemaField.is_required field options = false
       /\ is_Some (instance !! SchemaField.attname field))
  /\ (forall instance',
        ClassParser.make_deleter name options_immutable field None options instance
        = inr instance' ->
        instance' = delete (SchemaField.attname field) instance
        /\ (exists msg, ClassParser.make_getter name field instance'
                        = inl (ClassParser.AttributeError msg))
        /\ (exists msg, ClassParser.make_deleter name options_immutable field None options
                          instance'
                        = inl (ClassParser.AttributeError msg)))
  /\ (forall failure,
        ClassParser.make_deleter name options_immutable field None options instance
        = inl failure ->
        exists msg, failure = ClassParser.AttributeError msg).
Proof.
  unfold ClassParser.make_deleter.
  destruct (options_immutable || SchemaField.immutable field) eqn:Him.
  { split; [split|split].
    - intros [? H]; discriminate.
    - intros (H & _). discriminate.
    - intros ? H; discriminate.
    - intros ? [= <-]. eauto. }
  destruct (SchemaField.is_required field options) eqn:Hreq.
  { split; [split|split].
    - intros [? H]; discriminate.
    - intros (_ & H & _). discriminate.
    - intros ? H; discriminate.
    - intros ? [= <-]. eauto. }
  destruct (instance !! SchemaField.attname field) as [v|] eqn:Hv.
  - split; [split|split].
    + intros _. eauto.
    + intros _. eauto.
    + intros instance' [= <-]. split; [reflexivity|].
      unfold ClassParser.make_getter.
      rewrite (lookup_delete_eq instance (SchemaField.attname field)). eauto.
    + intros ? H; discriminate.
  - split; [split|split].
    + intros [? H]; discriminate.
    + intros (_ & _ & [? H]). discriminate.
    + intros ? H; discriminate.
    + intros ? [= <-]. eauto.
Qed.

(** X25: an assignment that the transformer rejects is not always
    refused by the default setter.  Under the 'preserve' policy the raw,
    rejected value is stored, and under 'exclude' on a field that is not
    required the attribute is set to the sentinel for "no value"; in both
    cases only a warning is recorded.  Under 'throw', when errors are raised
    at once, the ParseError is raised and nothing is stored. *)
Theorem setter_on_rejected_value (name : string) (options_immutable : bool)
    (field : SchemaField.t) (instance : ClassParser.Instance) (value : Value)
    (c : Runtime.Context) (ty : Ty) (e : Exn) :
  options_immutable || SchemaField.immutable field = false ->
  SchemaField.select_type field value = inr ty ->
  Runtime.transformer c value ty = inl e ->
  exists run,
    ClassParser.make_setter name options_immutable field None instance value = inr run
    /\ (SchemaField.get_on_error field c = PRESERVE ->
        run c = Runtime.Ok (<[ SchemaField.attname field := value ]> instance)
                  (warned (ParseError (ItemName (SchemaField.name field))
                             (SchemaField.type field) value e)
                          (after_transform field value ty c)))
    /\ (SchemaField.get_on_error field c = EXCLUDE ->
        SchemaField.is_required field c = false ->
        run c = Runtime.Ok (<[ SchemaField.attname field := VEllipsis ]> instance)
                  (warned (ParseError (ItemName (SchemaField.name field))
                             (SchemaField.type field) value e)
                          (after_transform field value ty c)))
    /\ (SchemaField.get_on_error field c = THROW ->
        Runtime.collect_errors c = false ->
        run c = Runtime.Raise (ParseError (ItemName (SchemaField.name field))
                                 (SchemaField.type field) value e)
                  (after_transform field value ty c)).
Proof.
  intros Him Hsel Ht. unfold ClassParser.make_setter. rewrite Him.
  eexists. split; [reflexivity|].
  pose proof (parse_value_on_failure field value c ty e Hsel Ht) as H. cbv zeta in H.
  unfold Runtime.bind. rewrite H. repeat split.
  - intros ->. reflexivity.
  - intros -> ->. reflexivity.
  - intros -> Hc. unfold escalated.
    assert (Hc1 : Runtime.collect_errors (after_transform field value ty c) = false).
    { unfold after_transform. destruct (Field.deprecated (SchemaField.field field)); exact Hc. }
    rewrite Hc1. reflexivity.
Qed.

Lemma setter_on_rejected_value_witness :
  exists run,
    ClassParser.make_setter "C" false Inputs.optional_excluding None ∅ (VStr "x") = inr run
    /\ run (Sample.context THROW false)
       = Runtime.Ok (<[ "n" := VEllipsis ]> ∅)
           (warned (ParseError (ItemName "n") Sample.int_type (VStr "x")
                      (CoercionError "invalid literal for int()"))
                   (after_transform Inputs.optional_excluding (VStr "x") Sample.int_type
                      (Sample.context THROW false))).
Proof.
  destruct (setter_on_rejected_value "C" false Inputs.optional_excluding ∅ (VStr "x")
              (Sample.context THROW false) Sample.int_type
              (CoercionError "invalid literal for int()") eq_refl eq_refl eq_refl)
    as (run & Hrun & _ & Hex & _).
  exists run. split; [exact Hrun|]. exact (Hex eq_refl eq_refl).
Defined.
